(** * get-popular-names: the bucketing pipeline and its lookup handlers

    A shallow embedding of
    - [populate_ddb_with_names.py]: aggregation of the per-state frequency
      files, greedy packing of names into size-bounded buckets, and the
      item written to the [StateNames] table;
    - [lambda_function.py]: the deployed lookup handler;
    - [get_state_names_lambda.py]: the older lookup handler.

    Python values that the handlers inspect dynamically are modelled by
    the type [pyval]; Python exceptions by the error monad [result]. *)

From Stdlib Require Import ZArith Ascii String.
From stdpp Require Import base option list gmap strings pretty sorting.
From Stdlib Require Import Lia.

Local Open Scope Z_scope.

(** ** Python exceptions *)

Module Py.

(** The exceptions that the modelled code can meet.  All of them derive
    from [Exception]; [JSONDecodeError] is also a [ValueError].
    [SerializerError] stands for what the serializer of boto3 raises on
    a value that it does not send: [TypeError] for a float,
    [decimal.Rounded] for an integer of more than 38 digits.  It is not
    a [ClientError].  [BotoCoreError] stands for the errors of botocore
    that are not a [ClientError] either: no connection, no credentials, a
    timeout. *)
Inductive exn : Type :=
  | IndexError
  | KeyError (key : string)
  | TypeError
  | AttributeError
  | ValueError
  | JSONDecodeError
  | UnboundLocalError
  | ClientError (msg : string)
  | SerializerError
  | BotoCoreError (msg : string).

Inductive result (A : Type) : Type :=
  | Ok (a : A)
  | Raise (e : exn).
Global Arguments Ok {A} a.
Global Arguments Raise {A} e.

Definition bind {A B} (r : result A) (k : A → result B) : result B :=
  match r with
  | Ok a => k a
  | Raise e => Raise e
  end.

End Py.
Export Py.

Notation "x <- e ;; k" := (Py.bind e (fun x => k))
  (at level 100, e at next level, k at level 200, right associativity,
   format "'[v' x  <-  e ;;  '/' k ']'").

(** ** Bucketing ([populate_ddb_with_names.py], lines 91-164) *)

(** [len(name)], as an integer. *)
Definition len (name : string) : Z := Z.of_nat (String.length name).

(** The locals of the packing loops. *)
Record pack_state : Type := PackState {
  buckets : list (list string);
  current_bucket_idx : nat;
  current_size : Z
}.

(** [buckets = [[] for _ in range(num_buckets)]]; [range] of a number
    below one is empty. *)
Definition empty_buckets (num_buckets : Z) : list (list string) :=
  replicate (Z.to_nat num_buckets) [].

Definition initial_pack_state (num_buckets : Z) : pack_state :=
  {| buckets := empty_buckets num_buckets;
     current_bucket_idx := 0;
     current_size := 2 |}.

(** [buckets[idx].append(name)]; the subscript raises [IndexError] when
    [idx] is not a position of [buckets]. *)
Definition append_to_bucket (bs : list (list string)) (idx : nat)
    (name : string) : result (list (list string)) :=
  match bs !! idx with
  | Some b => Ok (<[idx := b ++ [name]]> bs)
  | None => Raise IndexError
  end.

(** The [for name, _ in results] loop of [create_name_buckets]; the
    function returns [buckets] both when the loop runs out of names and
    when it leaves through [break]. *)
Fixpoint create_name_buckets_loop (max_bucket_size num_buckets : Z)
    (results : list (string * Z)) (st : pack_state)
    : result (list (list string)) :=
  match results with
  | [] => Ok (buckets st)
  | (name, _) :: results' =>
      let name_size := len name + 4 in
      if bool_decide (current_size st + name_size > max_bucket_size) then
        let idx := S (current_bucket_idx st) in
        if bool_decide (Z.of_nat idx >= num_buckets) then
          Ok (buckets st)
        else
          bs <- append_to_bucket (buckets st) idx name ;;
          create_name_buckets_loop max_bucket_size num_buckets results'
            {| buckets := bs;
               current_bucket_idx := idx;
               current_size := 2 + name_size |}
      else
        bs <- append_to_bucket (buckets st) (current_bucket_idx st) name ;;
        create_name_buckets_loop max_bucket_size num_buckets results'
          {| buckets := bs;
             current_bucket_idx := current_bucket_idx st;
             current_size := current_size st + name_size |}
  end.

Definition create_name_buckets (results : list (string * Z))
    (max_bucket_size num_buckets : Z) : result (list (list string)) :=
  create_name_buckets_loop max_bucket_size num_buckets results
    (initial_pack_state num_buckets).

(** The [for name in names] loop of [create_international_name_buckets],
    with its [continue] for names found in [existing_names]. *)
Fixpoint create_international_name_buckets_loop
    (existing_names : gset string) (max_bucket_size num_buckets : Z)
    (names : list string) (st : pack_state) : result (list (list string)) :=
  match names with
  | [] => Ok (buckets st)
  | name :: names' =>
      if bool_decide (name ∈ existing_names) then
        create_international_name_buckets_loop existing_names
          max_bucket_size num_buckets names' st
      else
        let name_size := len name + 4 in
        if bool_decide (current_size st + name_size > max_bucket_size) then
          let idx := S (current_bucket_idx st) in
          if bool_decide (Z.of_nat idx >= num_buckets) then
            Ok (buckets st)
          else
            bs <- append_to_bucket (buckets st) idx name ;;
            create_international_name_buckets_loop existing_names
              max_bucket_size num_buckets names'
              {| buckets := bs;
                 current_bucket_idx := idx;
                 current_size := 2 + name_size |}
        else
          bs <- append_to_bucket (buckets st) (current_bucket_idx st) name ;;
          create_international_name_buckets_loop existing_names
            max_bucket_size num_buckets names'
            {| buckets := bs;
               current_bucket_idx := current_bucket_idx st;
               current_size := current_size st + name_size |}
  end.

Definition create_international_name_buckets (names : list string)
    (existing_names : gset string) (max_bucket_size num_buckets : Z)
    : result (list (list string)) :=
  create_international_name_buckets_loop existing_names max_bucket_size
    num_buckets names (initial_pack_state num_buckets).

(** The size that the packing loops account for a bucket: two for the
    brackets and [len(name) + 4] for each name. *)
Definition serialized_size (bucket : list string) : Z :=
  2 + foldr (fun name acc => (len name + 4) + acc) 0 bucket.

(** ** Built-in string functions used by the source

    Text is modelled by [string], one character per code point, for the
    code points below 256; text with other code points is outside the
    model.  The classification of the characters is the one of CPython
    3.11 for these code points. *)

(** [c.isspace()]: tab, line feed, vertical tab, form feed, carriage
    return, the separators 28 to 31, the space, the next line control
    U+0085 and the no-break space U+00A0. *)
Definition isspace (c : ascii) : bool :=
  let n := nat_of_ascii c in
  ((9 <=? n)%nat && (n <=? 13)%nat) || ((28 <=? n)%nat && (n <=? 32)%nat)
  || (n =? 133)%nat || (n =? 160)%nat.

Fixpoint lstrip (s : string) : string :=
  match s with
  | String c s' => if isspace c then lstrip s' else s
  | EmptyString => EmptyString
  end.

(** [s.rstrip()]: a character is dropped when it is a space and all of
    the text after it has been dropped. *)
Fixpoint rstrip (s : string) : string :=
  match s with
  | String c s' =>
      match rstrip s' with
      | EmptyString => if isspace c then EmptyString else String c EmptyString
      | t => String c t
      end
  | EmptyString => EmptyString
  end.

(** [s.strip()] *)
Definition strip (s : string) : string := rstrip (lstrip s).

(** [s.split(sep)] for a separator of one character. *)
Fixpoint split (sep : ascii) (s : string) : list string :=
  match s with
  | EmptyString => [EmptyString]
  | String c s' =>
      if Ascii.eqb c sep then EmptyString :: split sep s'
      else match split sep s' with
           | part :: parts => String c part :: parts
           | [] => [String c EmptyString]
           end
  end.

Definition digit_value (c : ascii) : option Z :=
  let n := nat_of_ascii c in
  if ((48 <=? n)%nat && (n <=? 57)%nat)%bool then Some (Z.of_nat n - 48)
  else None.

(** The white space that [int] skips around a literal: the white space
    of C, and the white space above 127.  The separators 28 to 31 are
    white space for [str.strip] and not for [int]. *)
Definition int_isspace (c : ascii) : bool :=
  let n := nat_of_ascii c in
  ((9 <=? n)%nat && (n <=? 13)%nat) || (n =? 32)%nat
  || (n =? 133)%nat || (n =? 160)%nat.

Fixpoint int_lstrip (s : string) : string :=
  match s with
  | String c s' => if int_isspace c then int_lstrip s' else s
  | EmptyString => EmptyString
  end.

Fixpoint int_blank (s : string) : bool :=
  match s with
  | String c s' => int_isspace c && int_blank s'
  | EmptyString => true
  end.

(** The digits of a decimal literal after the sign: digits, with single
    underscores allowed between two digits, then nothing but white
    space.  The result is the number and how many digits were read. *)
Fixpoint int_digits (acc : Z) (digits : Z) (after_digit : bool) (s : string)
    : option (Z * Z) :=
  match s with
  | EmptyString => if after_digit then Some (acc, digits) else None
  | String c s' =>
      if Ascii.eqb c "_" then
        if after_digit then int_digits acc digits false s' else None
      else
        match digit_value c with
        | Some d => int_digits (10 * acc + d) (digits + 1) true s'
        | None => if after_digit && int_blank s then Some (acc, digits)
                  else None
        end
  end.

(** [sys.get_int_max_str_digits()], at its default. *)
Definition int_max_str_digits : Z := 4300.

(** [int(s)] for a string [s]: white space around the literal is
    ignored, a sign may precede the digits; a literal of more than
    [int_max_str_digits] digits is refused.  [None] stands for
    [ValueError]. *)
Definition int (s : string) : option Z :=
  let t := int_lstrip s in
  let '(negative, t) :=
    match t with
    | String "+" t' => (false, t')
    | String "-" t' => (true, t')
    | _ => (false, t)
    end in
  match int_digits 0 0 false t with
  | Some (n, digits) =>
      if bool_decide (digits ≤ int_max_str_digits) then
        Some (if negative : bool then - n else n)
      else None
  | None => None
  end.

(** [s.startswith(prefix)] *)
Definition startswith (s prefix : string) : bool := String.prefix prefix s.

(** [s[n:]] *)
Fixpoint slice_from (n : nat) (s : string) : string :=
  match n, s with
  | O, _ => s
  | S n', String _ s' => slice_from n' s'
  | S _, EmptyString => EmptyString
  end.

(** [needle in s] for two strings. *)
Fixpoint contains (s needle : string) : bool :=
  String.prefix needle s ||
  match s with
  | String _ s' => contains s' needle
  | EmptyString => false
  end.

(** ** Aggregation ([analyze_names], lines 24-52) *)

(** [name_counts[name] += count] on a [defaultdict(int)]: a dict keeps
    its keys in the order of their first insertion. *)
Fixpoint add_count (name_counts : list (string * Z)) (name : string)
    (count : Z) : list (string * Z) :=
  match name_counts with
  | [] => [(name, 0 + count)]
  | (k, v) :: rest =>
      if String.eqb k name then (k, v + count) :: rest
      else (k, v) :: add_count rest name count
  end.

(** One iteration of [for line in file], on the pair
    [(name_counts, total_name_count)]. *)
Definition analyze_line (acc : list (string * Z) * Z) (line : string)
    : list (string * Z) * Z :=
  let '(name_counts, total_name_count) := acc in
  match split "," (strip line) with
  | [_state; _gender; year; name; count] =>
      match int year with
      | None => acc
      | Some year =>
          match int count with
          | None => acc
          | Some count =>
              if bool_decide (1955 <= year <= 2010) then
                (add_count name_counts name count, total_name_count + count)
              else acc
          end
      end
  | _ => acc
  end.

(** [sorted(items, key=lambda x: x[1], reverse=True)]: the sort is stable,
    also under [reverse=True], so items of equal count keep their order.
    [insert_desc] puts an item in front of the first item whose count is
    not larger. *)
Fixpoint insert_desc (x : string * Z) (l : list (string * Z))
    : list (string * Z) :=
  match l with
  | [] => [x]
  | y :: l' => if bool_decide (y.2 <= x.2) then x :: l
               else y :: insert_desc x l'
  end.

Definition sorted_by_count_desc (items : list (string * Z))
    : list (string * Z) :=
  foldr insert_desc [] items.

(** [analyze_names], on the lines of the opened file. *)
Definition analyze_names (file : list string) : list (string * Z) * Z :=
  let '(name_counts, total_name_count) := foldl analyze_line ([], 0) file in
  (sorted_by_count_desc name_counts, total_name_count).

(** ** Python values

    The values that JSON documents and table items are made of.  A float
    is kept as the bit pattern of its IEEE 754 double.  [VDecimal m e] is
    the [decimal.Decimal] of value [m * 10 ^ e], as which boto3 returns
    the numbers of an item. *)

#[warnings="-register-all"]
Inductive pyval : Type :=
  | VNone
  | VBool (b : bool)
  | VInt (n : Z)
  | VFloat (bits : Z)
  | VStr (s : string)
  | VList (l : list pyval)
  | VDict (d : gmap string pyval)
  | VDecimal (m e : Z).

(** A list of names as a Python list of strings. *)
Definition names_value (names : list string) : pyval := VList (VStr <$> names).

(** [bool(v)]: the empty and zero values are false; a float is zero when
    all bits but the sign are. *)
Definition truthy (v : pyval) : bool :=
  match v with
  | VNone => false
  | VBool b => b
  | VInt n => negb (n =? 0)
  | VFloat bits => negb (bits `mod` 2 ^ 63 =? 0)
  | VStr s => negb (String.eqb s EmptyString)
  | VList l => match l with [] => false | _ => true end
  | VDict d => negb (bool_decide (d = ∅))
  | VDecimal m _ => negb (m =? 0)
  end.

Definition is_dict (v : pyval) : bool :=
  match v with VDict _ => true | _ => false end.

Definition is_str (v : pyval) : bool :=
  match v with VStr _ => true | _ => false end.

(** [key in v] for a string [key]: a key of a dict, an element of a
    list, a substring of a string. *)
Definition py_in (key : string) (v : pyval) : result bool :=
  match v with
  | VDict d => Ok (bool_decide (is_Some (d !! key)))
  | VList l =>
      Ok (existsb (fun x => match x with
                            | VStr s => String.eqb s key
                            | _ => false
                            end) l)
  | VStr s => Ok (contains s key)
  | _ => Raise TypeError
  end.

(** [v[key]] for a string [key] *)
Definition py_getitem (v : pyval) (key : string) : result pyval :=
  match v with
  | VDict d => match d !! key with
               | Some x => Ok x
               | None => Raise (KeyError key)
               end
  | _ => Raise TypeError
  end.

(** [v.get(key)] *)
Definition py_get (v : pyval) (key : string) : result pyval :=
  match v with
  | VDict d => Ok (default VNone (d !! key))
  | _ => Raise AttributeError
  end.

Fixpoint chars (s : string) : list pyval :=
  match s with
  | EmptyString => []
  | String c s' => VStr (String c EmptyString) :: chars s'
  end.

(** The elements that [for x in v] visits.  A dict yields its keys;
    Python visits them in insertion order, the model in the order of the
    map. *)
Definition py_iter (v : pyval) : result (list pyval) :=
  match v with
  | VList l => Ok l
  | VDict d => Ok (VStr <$> (map_to_list d).*1)
  | VStr s => Ok (chars s)
  | _ => Raise TypeError
  end.

(** [l[i]] on a list, for a position [i] that is not negative. *)
Definition subscript {A} (l : list A) (i : nat) : result A :=
  match l !! i with
  | Some x => Ok x
  | None => Raise IndexError
  end.

(** ** The [StateNames] table

    An item is a dict of attributes; the table maps the value of the hash
    key [State] to the item as it was put.  [fault] is the exception with
    which the client answers every request, if the service is failing or
    out of reach: a [ClientError] for an error response of the service,
    another exception otherwise.  Of the types of DynamoDB the sets and
    the binary values are not modelled, nor are the limits on the sizes
    of a key and of an item and the paging of [scan]. *)

Abbreviation item := (gmap string pyval).

Record dynamodb : Type := DynamoDB {
  StateNames : gmap string item;
  fault : option exn
}.

(** boto3 refuses to serialize a float, and a number that does not fit
    the 38 digits of a number of the table, also inside a list or a
    dict. *)
Fixpoint unserializable (v : pyval) : bool :=
  match v with
  | VFloat _ => true
  | VInt n => bool_decide (10 ^ 38 ≤ Z.abs n)
  | VDecimal m _ => bool_decide (10 ^ 38 ≤ Z.abs m)
  | VList l => existsb unserializable l
  | VDict d => map_fold (fun _ x acc => unserializable x || acc) false d
  | _ => false
  end.

(** The Python value that boto3 makes of a stored value when it reads
    an item: a number comes back as a [Decimal], the other values as they
    were put.  (A table holds no float: [put_item] refuses them.) *)
Fixpoint deserialize (v : pyval) : pyval :=
  match v with
  | VInt n => VDecimal n 0
  | VList l => VList (deserialize <$> l)
  | VDict d => VDict (deserialize <$> d)
  | _ => v
  end.

Definition deserialize_item (it : gmap string pyval) : gmap string pyval :=
  deserialize <$> it.

(** [table.get_item(Key={'State': key})]: [Ok None] is a response without
    ['Item'].  A key that is not a string, or is the empty string, does
    not match the key schema. *)
Definition get_item (db : dynamodb) (key : pyval) : result (option item) :=
  if unserializable key then Raise SerializerError
  else match fault db with
       | Some e => Raise e
       | None =>
           match key with
           | VStr ((String _ _) as state) =>
               Ok (deserialize_item <$> StateNames db !! state)
           | _ => Raise (ClientError "ValidationException")
           end
       end.

(** [table.put_item(Item=it)]: the item replaces the one stored under
    its key. *)
Definition put_item (db : dynamodb) (it : item) : result dynamodb :=
  if unserializable (VDict it) then Raise SerializerError
  else match fault db with
       | Some e => Raise e
       | None =>
           match it !! "State" with
           | Some (VStr ((String _ _) as state)) =>
               Ok {| StateNames := <[state := it]> (StateNames db);
                     fault := fault db |}
           | _ => Raise (ClientError "ValidationException")
           end
       end.

(** [table.scan()['Items']] *)
Definition scan (db : dynamodb) : result (list item) :=
  match fault db with
  | Some e => Raise e
  | None => Ok (deserialize_item <$> (map_to_list (StateNames db)).*2)
  end.

(** ** Loader ([populate_ddb_with_names.py], lines 166-333) *)

(** [existing_names.update(elems)].  The set is only ever asked whether
    it holds a string, so of the hashable elements only the strings are
    kept; a list or a dict is unhashable and raises, leaving the set as
    it is at that point. *)
Fixpoint set_update (existing_names : gset string) (elems : list pyval)
    : gset string * option exn :=
  match elems with
  | [] => (existing_names, None)
  | VStr s :: elems' => set_update ({[s]} ∪ existing_names) elems'
  | (VList _ | VDict _) :: _ => (existing_names, Some TypeError)
  | _ :: elems' => set_update existing_names elems'
  end.

(** The body of [for i in range(1, 5)] for one item. *)
Fixpoint scan_item_buckets (it : item) (keys : list string)
    (existing_names : gset string) : gset string * option exn :=
  match keys with
  | [] => (existing_names, None)
  | bucket_key :: keys' =>
      match it !! bucket_key with
      | None => scan_item_buckets it keys' existing_names
      | Some v =>
          match py_iter v with
          | Raise e => (existing_names, Some e)
          | Ok elems =>
              match set_update existing_names elems with
              | (s, None) => scan_item_buckets it keys' s
              | (s, Some e) => (s, Some e)
              end
          end
      end
  end.

Fixpoint scan_items (items : list item) (existing_names : gset string)
    : gset string * option exn :=
  match items with
  | [] => (existing_names, None)
  | it :: items' =>
      match scan_item_buckets it
              ["stateBucket1"; "stateBucket2"; "stateBucket3"; "stateBucket4"]
              existing_names with
      | (s, None) => scan_items items' s
      | (s, Some e) => (s, Some e)
      end
  end.

(** [get_all_existing_names]: any exception ends the scan and the names
    collected so far are returned. *)
Definition get_all_existing_names (db : dynamodb) : gset string :=
  match scan db with
  | Raise _ => ∅
  | Ok items => (scan_items items ∅).1
  end.

(** The item that [write_to_dynamodb] prepares (lines 247-267). *)
Definition prepare_item (state : string) (name_buckets : list (list string))
    (unique_names_count : Z) (total_name_count : Z)
    (other_name_buckets : option (list (list string))) : result item :=
  b1 <- subscript name_buckets 0 ;;
  b2 <- subscript name_buckets 1 ;;
  b3 <- subscript name_buckets 2 ;;
  b4 <- subscript name_buckets 3 ;;
  let it : item :=
    <["State" := VStr state]> (
    <["stateBucket1" := names_value b1]> (
    <["stateBucket2" := names_value b2]> (
    <["stateBucket3" := names_value b3]> (
    <["stateBucket4" := names_value b4]> (
    <["stateBucket1Count" := VInt (Z.of_nat (length b1))]> (
    <["stateBucket2Count" := VInt (Z.of_nat (length b2))]> (
    <["stateBucket3Count" := VInt (Z.of_nat (length b3))]> (
    <["stateBucket4Count" := VInt (Z.of_nat (length b4))]> (
    <["uniqueNamesCount" := VInt unique_names_count]> (
    <["totalNameCount" := VInt total_name_count]> ∅)))))))))) in
  match other_name_buckets with
  | Some ((_ :: _) as other) =>
      o1 <- subscript other 0 ;;
      o2 <- subscript other 1 ;;
      Ok (<["otherNamesBucket2Count" := VInt (Z.of_nat (length o2))]> (
          <["otherNamesBucket1Count" := VInt (Z.of_nat (length o1))]> (
          <["otherNamesBucket2" := names_value o2]> (
          <["otherNamesBucket1" := names_value o1]> it))))
  | _ => Ok it
  end.

(** [write_to_dynamodb]; the table is taken to exist.  The result is the
    table after the write. *)
Definition write_to_dynamodb (db : dynamodb) (state : string)
    (name_buckets : list (list string)) (unique_names_count : Z)
    (total_name_count : Z) (other_name_buckets : option (list (list string)))
    : result dynamodb :=
  it <- prepare_item state name_buckets unique_names_count total_name_count
          other_name_buckets ;;
  put_item db it.

(** The names that lines 316-318 collect from the buckets of the state. *)
Definition state_names_of (name_buckets : list (list string)) : gset string :=
  foldl (fun state_names bucket => state_names ∪ list_to_set bucket) ∅
    name_buckets.

(** [os.path.basename(file_path).split('.')[0]] *)
Definition state_of_path (file_path : string) : string :=
  let basename := List.last (split "/" file_path) EmptyString in
  List.hd EmptyString (split "." basename).

(** [process_state_file], given the lines of the file at [file_path]. *)
Definition process_state_file (db : dynamodb) (file_path : string)
    (file : list string) (international_names : option (list string))
    (existing_names : option (gset string)) : result dynamodb :=
  let state := state_of_path file_path in
  let '(results, total_name_count) := analyze_names file in
  name_buckets <- create_name_buckets results 3950 4 ;;
  other_name_buckets <-
    match international_names with
    | Some ((_ :: _) as international_names) =>
        let existing_names :=
          match existing_names with
          | None => get_all_existing_names db
          | Some names => names
          end in
        let state_names := state_names_of name_buckets in
        other <- create_international_name_buckets international_names
                   state_names 3950 2 ;;
        Ok (Some other)
    | _ => Ok None
    end ;;
  write_to_dynamodb db state name_buckets (Z.of_nat (length results))
    total_name_count other_name_buckets.

(** ** Lookup handlers *)

(** What the handlers take from the Python library and do not define:
    the JSON codec and the text of an exception.  [json_loads] is [None]
    where [json.loads] raises [JSONDecodeError].  [json_dumps] is the text
    that [json.dumps] returns for a value on which it returns; where it
    raises is defined by [json_error] below. *)
Class Runtime : Type := {
  json_loads : string → option pyval;
  json_dumps : pyval → string;
  str_exn : exn → string
}.

(** A call of a handler to the table. *)
Inductive store_call : Type :=
  | GetItem (key : pyval).

Section json.
Context `{Runtime}.

(** [json.loads(v)] *)
Definition loads (v : pyval) : result pyval :=
  match v with
  | VStr s => match json_loads s with
              | Some x => Ok x
              | None => Raise JSONDecodeError
              end
  | _ => Raise TypeError
  end.

(** The exception that [json.dumps(v)] raises, if it raises:
    [TypeError] on a [Decimal], which is no JSON value, and [ValueError]
    on an integer of more than [int_max_str_digits] digits.  The first
    such value met decides; the entries of a dict are visited in the
    order of the map, Python visits them in insertion order. *)
Fixpoint json_error (v : pyval) : option exn :=
  match v with
  | VDecimal _ _ => Some TypeError
  | VInt n =>
      if bool_decide (10 ^ int_max_str_digits ≤ Z.abs n) then Some ValueError
      else None
  | VList l =>
      foldr (fun x later => match json_error x with
                            | Some e => Some e
                            | None => later
                            end) None l
  | VDict d =>
      map_fold (fun _ x later => match json_error x with
                                 | Some e => Some e
                                 | None => later
                                 end) None d
  | _ => None
  end.

(** [json.dumps(v)] *)
Definition dumps (v : pyval) : result string :=
  match json_error v with
  | Some e => Raise e
  | None => Ok (json_dumps v)
  end.

(** [{"error": msg}] *)
Definition error_object (msg : string) : pyval :=
  VDict {[ "error" := VStr msg ]}.

End json.

(** *** [lambda_function.py] *)

Module lambda_function.
Section handler.
Context `{Runtime}.

(** The dict of lines 135-144, around the encoded data. *)
Definition envelope (body : string) : pyval :=
  VDict (
    <["statusCode" := VInt 200]> (
    <["headers" := VDict (
       <["Content-Type" := VStr "application/json"]> (
       <["Access-Control-Allow-Origin" := VStr "*"]> (
       <["Access-Control-Allow-Methods" := VStr "GET, POST, OPTIONS"]> (
       <["Access-Control-Allow-Headers" :=
           VStr "Content-Type,X-Amz-Date,Authorization,X-Api-Key,X-Amz-Security-Token"]>
       ∅))))]> (
    <["body" := VStr body]> ∅))).

(** [format_response]: an exception of [json.dumps] leaves it. *)
Definition format_response (data : pyval) (is_api_gateway : bool)
    : result pyval :=
  if is_api_gateway then
    body <- dumps data ;;
    Ok (envelope body)
  else Ok data.

(** The response of lines 50-53; [json.dumps] returns on the error
    object, which holds a string. *)
Definition invalid_request_format : pyval :=
  VDict (
    <["statusCode" := VInt 400]> (
    <["body" := VStr (json_dumps (error_object "Invalid request format"))]> ∅)).

(** The loop over the transcript (lines 43-48): the arguments of the
    first tool call that has some.  When no tool call has, [state] is
    still unbound where line 60 reads it. *)
Fixpoint first_tool_call (tool_calls : list pyval) : result (pyval * pyval) :=
  match tool_calls with
  | [] => Raise UnboundLocalError
  | tool_call :: tool_calls' =>
      has_arguments <- py_in "arguments" tool_call ;;
      if has_arguments : bool then
        arguments <- py_getitem tool_call "arguments" ;;
        args <- loads arguments ;;
        state <- py_get args "state" ;;
        bucket <- py_get args "bucket" ;;
        Ok (state, bucket)
      else first_tool_call tool_calls'
  end.

(** Lines 31-34: the body of an API Gateway event, decoded when it is a
    string. *)
Definition request_body (event : pyval) : result pyval :=
  event_body <- py_getitem event "body" ;;
  if is_str event_body then loads event_body else Ok event_body.

(** Line 37: ['args' in body and isinstance(body['args'], dict)] *)
Definition args_shape (body : pyval) : result bool :=
  has_args <- py_in "args" body ;;
  if has_args : bool then
    args <- py_getitem body "args" ;; Ok (is_dict args)
  else Ok false.

(** Line 41:
    ['call' in body and 'transcript_with_tool_calls' in body['call']] *)
Definition transcript_shape (body : pyval) : result bool :=
  has_call <- py_in "call" body ;;
  if has_call : bool then
    call <- py_getitem body "call" ;;
    py_in "transcript_with_tool_calls" call
  else Ok false.

(** Lines 29-57: either the early response with status 400, or the
    values bound to [state] and [bucket]. *)
Definition extract_parameters (event : pyval)
    : result (pyval + pyval * pyval) :=
  has_body <- (if is_dict event then py_in "body" event else Ok false) ;;
  if has_body : bool then
    body <- request_body event ;;
    is_args <- args_shape body ;;
    if is_args : bool then
      args <- py_getitem body "args" ;;
      state <- py_get args "state" ;;
      bucket <- py_get args "bucket" ;;
      Ok (inr (state, bucket))
    else
      is_transcript <- transcript_shape body ;;
      if is_transcript : bool then
        call <- py_getitem body "call" ;;
        transcript <- py_getitem call "transcript_with_tool_calls" ;;
        tool_calls <- py_iter transcript ;;
        parameters <- first_tool_call tool_calls ;;
        Ok (inr parameters)
      else Ok (inl invalid_request_format)
  else
    state <- py_get event "state" ;;
    bucket <- py_get event "bucket" ;;
    Ok (inr (state, bucket)).

(** How the [try] block of lines 27-96 ends when it does not raise:
    with a [return], or by falling through with [state] and [bucket]
    bound. *)
Inductive validated : Type :=
  | Return (response : pyval)
  | Proceed (state : pyval) (bucket : string).

(** Lines 73-96, for a bucket that is a string. *)
Definition validate_bucket_number (event : pyval) (bucket : string)
    : result (option pyval) :=
  if startswith bucket "stateBucket" then
    match int (slice_from (String.length "stateBucket") bucket) with
    | Some bucket_number =>
        if bool_decide (bucket_number < 1) || bool_decide (bucket_number > 4)
        then
          is_api_gateway <- py_in "body" event ;;
          response <- format_response
            (error_object "For state buckets, number must be between 1 and 4")
            is_api_gateway ;;
          Ok (Some response)
        else Ok None
    | None =>
        is_api_gateway <- py_in "body" event ;;
        response <- format_response
          (error_object
             "Invalid bucket format. Expected 'stateBucket1' through 'stateBucket4'")
          is_api_gateway ;;
        Ok (Some response)
    end
  else if startswith bucket "otherNamesBucket" then
    match int (slice_from (String.length "otherNamesBucket") bucket) with
    | Some bucket_number =>
        if bool_decide (bucket_number < 1) || bool_decide (bucket_number > 2)
        then
          is_api_gateway <- py_in "body" event ;;
          response <- format_response
            (error_object
               "For other names buckets, number must be between 1 and 2")
            is_api_gateway ;;
          Ok (Some response)
        else Ok None
    | None =>
        is_api_gateway <- py_in "body" event ;;
        response <- format_response
          (error_object
             "Invalid bucket format. Expected 'otherNamesBucket1' or 'otherNamesBucket2'")
          is_api_gateway ;;
        Ok (Some response)
    end
  else Ok None.

(** The [try] block of lines 27-96. *)
Definition parse_and_validate (event : pyval) : result validated :=
  parameters <- extract_parameters event ;;
  match parameters with
  | inl response => Ok (Return response)
  | inr (state, bucket) =>
      if negb (truthy state) || negb (truthy bucket) then
        is_api_gateway <- py_in "body" event ;;
        response <- format_response
          (error_object "Missing required parameters: state and bucket")
          is_api_gateway ;;
        Ok (Return response)
      else
        match bucket with
        | VStr bucket =>
            if negb (existsb (startswith bucket)
                       ["stateBucket"; "otherNamesBucket"]) then
              is_api_gateway <- py_in "body" event ;;
              response <- format_response
                (error_object
                   "bucket must start with 'stateBucket' or 'otherNamesBucket'")
                is_api_gateway ;;
              Ok (Return response)
            else
              early <- validate_bucket_number event bucket ;;
              match early with
              | Some response => Ok (Return response)
              | None => Ok (Proceed state bucket)
              end
        | _ => Raise AttributeError
        end
  end.

(** [('body' in event if isinstance(event, dict) else False)] *)
Definition is_api_gateway_event (event : pyval) : bool :=
  match event with
  | VDict d => bool_decide (is_Some (d !! "body"))
  | _ => false
  end.

(** [lambda_handler] of [lambda_function.py]: the outcome, and the calls
    made to the table.  [Raise] is an exception that leaves the handler. *)
Definition lambda_handler (db : dynamodb) (event : pyval)
    : result pyval * list store_call :=
  match parse_and_validate event with
  | Raise e =>
      (format_response
         (error_object ("Error parsing request: " +:+ str_exn e))
         (is_api_gateway_event event), [])
  | Ok (Return response) => (Ok response, [])
  | Ok (Proceed state bucket) =>
      (match get_item db state with
       | Ok None => format_response (VList []) (is_api_gateway_event event)
       | Ok (Some it) =>
           match it !! bucket with
           | Some names => format_response names (is_api_gateway_event event)
           | None => format_response (VList []) (is_api_gateway_event event)
           end
       | Raise (ClientError msg) =>
           format_response (error_object (str_exn (ClientError msg)))
             (is_api_gateway_event event)
       | Raise e => Raise e
       end, [GetItem state])
  end.

End handler.
End lambda_function.
Import lambda_function.

(** *** [get_state_names_lambda.py] *)

Module get_state_names_lambda.
Section handler.
Context `{Runtime}.

(** [f'{v}'] for the values that pass [isinstance(v, int)]. *)
Definition format_int (v : pyval) : string :=
  match v with
  | VInt n => pretty n
  | VBool true => "True"
  | VBool false => "False"
  | _ => ""
  end.

(** The integer of a value that passes [isinstance(v, int)]; [bool] is a
    subclass of [int]. *)
Definition as_int (v : pyval) : option Z :=
  match v with
  | VInt n => Some n
  | VBool b => Some (if b then 1 else 0)
  | _ => None
  end.

(** [lambda_handler] of [get_state_names_lambda.py].  Only [KeyError] is
    caught around the reading of the event. *)
Definition lambda_handler (db : dynamodb) (event : pyval)
    : result pyval * list store_call :=
  match
    (state <- py_getitem event "state" ;;
     bucket_number <- py_getitem event "bucketNumber" ;;
     match as_int bucket_number with
     | Some n =>
         if bool_decide (n < 1) || bool_decide (n > 5) then
           Ok (inl (error_object
                      "bucketNumber must be an integer between 1 and 5"))
         else Ok (inr (state, bucket_number))
     | None =>
         Ok (inl (error_object
                    "bucketNumber must be an integer between 1 and 5"))
     end)
  with
  | Raise (KeyError key) =>
      (Ok (error_object
             ("Missing required parameter: " +:+ str_exn (KeyError key))), [])
  | Raise e => (Raise e, [])
  | Ok (inl response) => (Ok response, [])
  | Ok (inr (state, bucket_number)) =>
      (match get_item db state with
       | Ok None => Ok (VList [])
       | Ok (Some it) =>
           let bucket_key := "nameBucket" +:+ format_int bucket_number in
           match it !! bucket_key with
           | Some names => Ok names
           | None => Ok (VList [])
           end
       | Raise (ClientError msg) =>
           Ok (error_object (str_exn (ClientError msg)))
       | Raise e => Raise e
       end, [GetItem state])
  end.

End handler.
End get_state_names_lambda.

(** ** Predicates used in the statements *)

(** What the loops keep true of their locals. *)
Record pack_inv (k : Z) (st : pack_state) : Prop := {
  inv_length : length (buckets st) = Z.to_nat k;
  inv_idx : current_bucket_idx st = 0%nat ∨ Z.of_nat (current_bucket_idx st) < k;
  inv_size :
    current_size st
    = serialized_size (default [] (buckets st !! current_bucket_idx st));
  inv_later : ∀ j b, (current_bucket_idx st < j)%nat →
                     buckets st !! j = Some b → b = []
}.

(** The sum of the totals of a ranked list. *)
Definition sum_counts (items : list (string * Z)) : Z :=
  foldr (fun item acc => item.2 + acc) 0 items.

(** The lines that the claim about aggregation calls malformed or out of
    the window: a number of fields other than five, a year or a count
    that is not an integer, a year outside 1955..2010. *)
Inductive skipped_line (line : string) : Prop :=
  | skipped_field_count :
      length (split "," (strip line)) ≠ 5%nat → skipped_line line
  | skipped_year st gender year name count :
      split "," (strip line) = [st; gender; year; name; count] →
      int year = None → skipped_line line
  | skipped_count st gender year name count :
      split "," (strip line) = [st; gender; year; name; count] →
      int count = None → skipped_line line
  | skipped_window st gender year name count y :
      split "," (strip line) = [st; gender; year; name; count] →
      int year = Some y → ¬ (1955 ≤ y ≤ 2010) → skipped_line line.

(** The flat request of a direct invocation. *)
Definition direct_event (state bucket : string) : pyval :=
  VDict (<["state" := VStr state]> (<["bucket" := VStr bucket]> ∅)).

(** The request of the older handler. *)
Definition bucket_number_event (state : string) (bucket_number : Z) : pyval :=
  VDict (<["state" := VStr state]> (<["bucketNumber" := VInt bucket_number]> ∅)).

(** An API Gateway event whose body carries [args]. *)
Definition args_event (state bucket : pyval) : pyval :=
  VDict {[ "body" :=
    VDict {[ "args" :=
      VDict (<["state" := state]> (<["bucket" := bucket]> ∅)) ]} ]}.

(** The identifiers of the partitions of a state record. *)
Definition own_identifiers : list string :=
  ["stateBucket1"; "stateBucket2"; "stateBucket3"; "stateBucket4"].

Definition supplementary_identifiers : list string :=
  ["otherNamesBucket1"; "otherNamesBucket2"].

(** The entries of the envelope of an API Gateway response. *)
Definition status_code (response : pyval) : option pyval :=
  match response with
  | VDict d => d !! "statusCode"
  | _ => None
  end.

Definition response_body (response : pyval) : option pyval :=
  match response with
  | VDict d => d !! "body"
  | _ => None
  end.

(** The response that [format_response] returns when [json.dumps]
    does. *)
Definition response_of `{Runtime} (data : pyval) (is_api_gateway : bool)
    : pyval :=
  if is_api_gateway then envelope (json_dumps data) else data.

(** A table that holds nothing and answers. *)
Definition empty_table : dynamodb := {| StateNames := ∅; fault := None |}.

(** The item that [process_state_file] hands to [put_item], computed
    without the table and without [existing_names]. *)
Definition computed_item (file_path : string) (file : list string)
    (international_names : option (list string)) : result item :=
  name_buckets <- create_name_buckets (analyze_names file).1 3950 4 ;;
  other_name_buckets <-
    match international_names with
    | Some ((_ :: _) as names) =>
        other <- create_international_name_buckets names
                   (state_names_of name_buckets) 3950 2 ;;
        Ok (Some other)
    | _ => Ok None
    end ;;
  prepare_item (state_of_path file_path) name_buckets
    (Z.of_nat (length (analyze_names file).1)) (analyze_names file).2
    other_name_buckets.

(** A runtime for the examples: strings are written between quotes as
    they are, the only texts that decode are the encodings of
    [example_body] and [example_arguments], and the text of an exception
    is its name. *)
Definition quoted (s : string) : string :=
  String (ascii_of_nat 34) s +:+ String (ascii_of_nat 34) EmptyString.

Fixpoint example_dumps (v : pyval) : string :=
  match v with
  | VNone => "null"
  | VBool true => "true"
  | VBool false => "false"
  | VInt n => pretty n
  | VFloat _ => "NaN"
  | VDecimal _ _ => "Decimal"
  | VStr s => quoted s
  | VList l => "[" +:+ String.concat ", " (example_dumps <$> l) +:+ "]"
  | VDict d =>
      "{" +:+ String.concat ", "
                (map_fold (fun k x acc =>
                             (quoted k +:+ ": " +:+ example_dumps x) :: acc)
                   [] d) +:+ "}"
  end.

Definition example_arguments : pyval :=
  VDict (<["state" := VStr "OH"]> (<["bucket" := VStr "stateBucket9"]> ∅)).

Definition example_body : pyval := VDict {[ "args" := example_arguments ]}.

Definition example_runtime : Runtime := {|
  json_loads s :=
    if String.eqb s (example_dumps example_body) then Some example_body
    else if String.eqb s (example_dumps example_arguments)
         then Some example_arguments
         else None;
  json_dumps := example_dumps;
  str_exn e :=
    match e with
    | IndexError => "IndexError"
    | KeyError key => "'" +:+ key +:+ "'"
    | TypeError => "TypeError"
    | AttributeError => "AttributeError"
    | ValueError => "ValueError"
    | JSONDecodeError => "JSONDecodeError"
    | UnboundLocalError => "UnboundLocalError"
    | ClientError msg => msg
    | SerializerError => "SerializerError"
    | BotoCoreError msg => msg
    end
|}.

(** Descending order of the totals. *)
Definition count_ge (a b : string * Z) : Prop := b.2 ≤ a.2.

(** ** The rest of the loader ([populate_ddb_with_names.py], lines 54-75
    and 337-361) *)

(** The loop of [read_international_names] over the lines of the file. *)
Fixpoint read_international_names_loop (file : list string)
    (names : list string) : list string :=
  match file with
  | [] => names
  | line :: file' =>
      let name := strip line in
      if negb (String.eqb name EmptyString) then
        read_international_names_loop file' (names ++ [name])
      else read_international_names_loop file' names
  end.

(** [read_international_names]: [None] is a file that cannot be opened,
    for which the exception is caught and the empty list returned.  A
    failure in the middle of the reading is not modelled. *)
Definition read_international_names (file : option (list string))
    : list string :=
  match file with
  | Some lines => read_international_names_loop lines []
  | None => []
  end.

(** [s.endswith(suffix)]: some tail of [s] is [suffix]. *)
Fixpoint endswith (s suffix : string) : bool :=
  String.eqb s suffix ||
  match s with
  | String _ s' => endswith s' suffix
  | EmptyString => false
  end.

(** [os.path.join(directory, name)] for a directory that is not empty
    and does not end with a slash. *)
Definition path_join (directory name : string) : string :=
  if startswith name "/" then name else directory +:+ "/" +:+ name.

(** The loop of [main] over the state files, each given with its lines:
    the table when the loop ends, and the exception that ended it, if
    any.  The pause between two files is left out. *)
Fixpoint main_loop (db : dynamodb) (international_names : list string)
    (state_files : list (string * list string)) : dynamodb * option exn :=
  match state_files with
  | [] => (db, None)
  | (file_path, file) :: state_files' =>
      match process_state_file db file_path file (Some international_names)
              None with
      | Ok db' => main_loop db' international_names state_files'
      | Raise e => (db, Some e)
      end
  end.

(** The state files that [main] lists: the entries of the directory
    [data/states] whose name ends with [.TXT], each given with its lines
    (every entry is taken to be a file that can be read). *)
Definition state_files (states_data_dir : list (string * list string))
    : list (string * list string) :=
  (fun entry : string * list string =>
     (path_join "data/states" entry.1, entry.2))
  <$> filter (fun entry : string * list string => endswith entry.1 ".TXT" = true)
        states_data_dir.

(** [main], given the file of international names and the entries of
    the directory [data/states]. *)
Definition main (db : dynamodb) (international_names_file : option (list string))
    (states_data_dir : list (string * list string)) : dynamodb * option exn :=
  let international_names := read_international_names international_names_file in
  main_loop db international_names (state_files states_data_dir).

(** ** Further predicates used in the statements *)

(** The name and the count that a line adds, if it adds any: the line
    has five fields, year and count are integers and the year is one of
    1955..2010. *)
Definition admitted_record (line : string) : option (string * Z) :=
  match split "," (strip line) with
  | [_; _; year; name; count] =>
      match int year, int count with
      | Some y, Some c =>
          if bool_decide (1955 ≤ y ≤ 2010) then Some (name, c) else None
      | _, _ => None
      end
  | _ => None
  end.

(** The sum of the counts that the records give to a name. *)
Definition total_for (name : string) (records : list (string * Z)) : Z :=
  sum_counts (filter (fun record => record.1 = name) records).

(** The first occurrences of the elements of a list, in their order. *)
Fixpoint first_occurrences (seen : list string) (l : list string) : list string :=
  match l with
  | [] => []
  | x :: l' =>
      if bool_decide (x ∈ seen) then first_occurrences seen l'
      else x :: first_occurrences (x :: seen) l'
  end.

(** An item whose own partitions, where present, are lists of strings,
    as the loader writes them. *)
Definition own_partitions_are_names (it : item) : Prop :=
  ∀ key v, key ∈ own_identifiers → it !! key = Some v →
           ∃ names, v = names_value names.

(** The step of the loop of [analyze_names] on the record of a line. *)
Definition add_record (acc : list (string * Z) * Z) (record : string * Z)
    : list (string * Z) * Z :=
  (add_count acc.1 record.1 record.2, acc.2 + record.2).

(** What holds of the buckets that a packing returns: the first name of
    a bucket did not fit the bucket before it, and after the first
    bucket an empty bucket is followed by empty buckets only. *)
Record greedy (m : Z) (bs : list (list string)) : Prop := {
  greedy_tight : ∀ (i : nat) b name rest,
    bs !! i = Some b → bs !! S i = Some (name :: rest) →
    serialized_size b + (len name + 4) > m;
  greedy_contiguous : ∀ (i j : nat) b,
    (1 ≤ i < j)%nat → bs !! i = Some [] → bs !! j = Some b → b = []
}.

(** The part of [greedy] that the loops have established for the
    buckets up to the current one. *)
Record greedy_inv (m : Z) (st : pack_state) : Prop := {
  tight_so_far : ∀ (i : nat) b name rest,
    (S i ≤ current_bucket_idx st)%nat →
    buckets st !! i = Some b → buckets st !! S i = Some (name :: rest) →
    serialized_size b + (len name + 4) > m;
  filled_so_far : ∀ i : nat,
    (1 ≤ i ≤ current_bucket_idx st)%nat → buckets st !! i ≠ Some []
}.

(** A character of a string. *)
Fixpoint has_char (c : ascii) (s : string) : bool :=
  match s with
  | EmptyString => false
  | String c' s' => Ascii.eqb c' c || has_char c s'
  end.

(** * Properties of the bucketing *)

Section packing.

Implicit Types (bs : list (list string)) (st : pack_state) (m k : Z).

Lemma serialized_size_nil : serialized_size [] = 2.
Proof. reflexivity. Qed.

Lemma serialized_size_snoc (b : list string) name :
  serialized_size (b ++ [name]) = serialized_size b + (len name + 4).
Proof.
  unfold serialized_size. induction b as [|x b IH]; simpl in *; lia.
Qed.

(** Appending to bucket [i] appends to the concatenation when the
    buckets after [i] are empty. *)
Lemma concat_insert_snoc bs (i : nat) (b : list string) name :
  bs !! i = Some b →
  (∀ j b', (i < j)%nat → bs !! j = Some b' → b' = []) →
  concat (<[i := b ++ [name]]> bs) = concat bs ++ [name].
Proof.
  intros Hi Hlater.
  assert (Hlen : (i < length bs)%nat) by (eapply lookup_lt_Some; eauto).
  assert (Hdrop : concat (drop (S i) bs) = []).
  { apply (proj2 (concat_nil_Forall _)).
    apply Forall_forall. intros x Hx.
    apply list_elem_of_lookup in Hx as [j Hj].
    rewrite lookup_drop in Hj. eapply Hlater; [|exact Hj]. lia. }
  rewrite insert_take_drop by done.
  transitivity (concat (take i bs ++ b :: drop (S i) bs) ++ [name]);
    [|by rewrite take_drop_middle].
  rewrite !concat_app. simpl. rewrite Hdrop, !app_nil_r.
  by rewrite app_assoc.
Qed.

Lemma pack_inv_initial k : pack_inv k (initial_pack_state k).
Proof.
  split; simpl.
  - unfold empty_buckets. by rewrite length_replicate.
  - by left.
  - unfold empty_buckets. destruct (replicate _ _ !! _) eqn:E; [|done].
    apply lookup_replicate in E as [-> _]. done.
  - intros j b _ Hj. unfold empty_buckets in Hj.
    by apply lookup_replicate in Hj as [-> _].
Qed.

(** One appended name, at a position [i] that is the current one or the
    next one. *)
Lemma pack_inv_append k st (i : nat) b name size :
  pack_inv k st →
  buckets st !! i = Some b →
  (current_bucket_idx st ≤ i)%nat →
  size = serialized_size b + (len name + 4) →
  pack_inv k {| buckets := <[i := b ++ [name]]> (buckets st);
                current_bucket_idx := i;
                current_size := size |}.
Proof.
  intros [Hlen Hidx Hsize Hlater] Hi Hle ->.
  assert (Hlt : (i < length (buckets st))%nat) by (eapply lookup_lt_Some; eauto).
  split; simpl.
  - by rewrite length_insert.
  - right. lia.
  - rewrite list_lookup_insert_eq by done. simpl.
    by rewrite serialized_size_snoc.
  - intros j b' Hj Hb'. rewrite list_lookup_insert_ne in Hb' by lia.
    eapply Hlater; [|exact Hb']. lia.
Qed.

(** The bucket that the loop opens is empty. *)
Lemma pack_inv_next_empty k st b :
  pack_inv k st → buckets st !! S (current_bucket_idx st) = Some b → b = [].
Proof. intros Hinv Hb. eapply (inv_later _ _ Hinv); [|exact Hb]. lia. Qed.

Lemma pack_inv_current_size k st b :
  pack_inv k st → buckets st !! current_bucket_idx st = Some b →
  current_size st = serialized_size b.
Proof. intros Hinv Hb. rewrite (inv_size _ _ Hinv), Hb. done. Qed.

(** At a [break] the current bucket is the last one. *)
Lemma pack_inv_break_last k st :
  pack_inv k st → Z.of_nat (S (current_bucket_idx st)) >= k →
  current_size st = serialized_size (default [] (last (buckets st))).
Proof.
  intros [Hlen Hidx Hsize _] Hge. rewrite Hsize, last_lookup.
  destruct Hidx as [H0|Hlt].
  - rewrite H0 in *. destruct (buckets st) as [|b0 [|b1 l]]; simpl in *; try done.
    lia.
  - replace (pred (length (buckets st))) with (current_bucket_idx st); [done|].
    rewrite Hlen. lia.
Qed.

(** What a run of the loop of [create_name_buckets] returns, from any
    state that satisfies the invariant. *)
Lemma create_name_buckets_loop_spec m k results st :
  pack_inv k st →
  match create_name_buckets_loop m k results st with
  | Ok bs =>
      length bs = Z.to_nat k
      ∧ (∃ dropped,
            concat (buckets st) ++ results.*1 = concat bs ++ dropped
            ∧ ∀ d rest, dropped = d :: rest →
                serialized_size (default [] (last bs)) + (len d + 4) > m)
      ∧ (2 ≤ m → Forall (fun r => len r.1 + 6 ≤ m) results →
         Forall (fun b => serialized_size b ≤ m) (buckets st) →
         Forall (fun b => serialized_size b ≤ m) bs)
  | Raise e => e = IndexError ∧ k ≤ 0
  end.
Proof.
  revert st. induction results as [|[name c] results IH]; intros st Hinv; simpl.
  - split; [apply Hinv|]. split; [|done].
    exists []. split; [done|]. intros d rest Hd. discriminate.
  - case_bool_decide as Hfull.
    + case_bool_decide as Hlast.
      * split; [apply Hinv|]. split; [|done].
        exists (name :: results.*1). split; [done|].
        intros d rest [= <- <-].
        rewrite <- (pack_inv_break_last k st) by done. lia.
      * unfold append_to_bucket.
        destruct (buckets st !! S (current_bucket_idx st)) as [b|] eqn:Hb; simpl.
        2:{ apply lookup_ge_None in Hb. rewrite (inv_length _ _ Hinv) in Hb. lia. }
        assert (b = []) as -> by (eapply pack_inv_next_empty; eauto).
        specialize (IH _ (pack_inv_append k st _ [] name (2 + (len name + 4))
                            Hinv Hb ltac:(lia) ltac:(done))).
        simpl in IH. destruct (create_name_buckets_loop _ _ _ _) as [bs|e]; [|done].
        destruct IH as (Hlen & (dropped & Hcat & Hdrop) & Hbudget).
        split; [done|]. split.
        -- exists dropped. split; [|done]. rewrite <- Hcat.
           pose proof (concat_insert_snoc _ _ [] name Hb) as Hc.
           simpl in Hc. rewrite Hc.
           ++ simpl. by rewrite <- app_assoc.
           ++ intros j b' Hj Hb'. eapply (inv_later _ _ Hinv); [|exact Hb']. lia.
        -- intros Hm Hfit Hall. inversion Hfit as [|? ? Hname Hrest]; subst.
           apply Hbudget; [done..|].
           apply Forall_insert; [done|].
           unfold serialized_size. simpl in *. lia.
    + unfold append_to_bucket.
      destruct (buckets st !! current_bucket_idx st) as [b|] eqn:Hb; simpl.
      2:{ split; [done|]. apply lookup_ge_None in Hb.
          rewrite (inv_length _ _ Hinv) in Hb.
          destruct (inv_idx _ _ Hinv) as [H0|Hlt]; lia. }
      pose proof (pack_inv_current_size k st b Hinv Hb) as Hsz.
      specialize (IH _ (pack_inv_append k st _ b name
                          (current_size st + (len name + 4))
                          Hinv Hb ltac:(lia) ltac:(lia))).
      simpl in IH. destruct (create_name_buckets_loop _ _ _ _) as [bs|e]; [|done].
      destruct IH as (Hlen & (dropped & Hcat & Hdrop) & Hbudget).
      split; [done|]. split.
      * exists dropped. split; [|done]. rewrite <- Hcat.
        rewrite (concat_insert_snoc _ _ b name Hb).
        -- simpl. by rewrite <- app_assoc.
        -- apply Hinv.
      * intros Hm Hfit Hall. inversion Hfit as [|? ? Hname Hrest]; subst.
        apply Hbudget; [done..|].
        apply Forall_insert; [done|].
        rewrite serialized_size_snoc. lia.
Qed.

(** The loop of [create_international_name_buckets] is the loop of
    [create_name_buckets] on the names that are not excluded, whatever
    count they are paired with. *)
Lemma create_international_name_buckets_loop_filter
    (existing_names : gset string) m k (c : Z) names st :
  create_international_name_buckets_loop existing_names m k names st
  = create_name_buckets_loop m k
      ((fun name => (name, c)) <$> filter (fun name => name ∉ existing_names) names)
      st.
Proof.
  revert st. induction names as [|name names IH]; intros st; [done|].
  simpl. rewrite filter_cons. case_bool_decide as Hin.
  - rewrite decide_False by (intros Hn; by apply Hn). apply IH.
  - rewrite decide_True by done. simpl.
    repeat case_bool_decide; try done;
      destruct (append_to_bucket _ _ _); simpl; auto.
Qed.

Lemma create_international_name_buckets_filter
    names (existing_names : gset string) m k (c : Z) :
  create_international_name_buckets names existing_names m k
  = create_name_buckets
      ((fun name => (name, c)) <$> filter (fun name => name ∉ existing_names) names)
      m k.
Proof. apply create_international_name_buckets_loop_filter. Qed.

Lemma create_name_buckets_spec results m k :
  match create_name_buckets results m k with
  | Ok bs =>
      length bs = Z.to_nat k
      ∧ (∃ dropped,
            results.*1 = concat bs ++ dropped
            ∧ ∀ d rest, dropped = d :: rest →
                serialized_size (default [] (last bs)) + (len d + 4) > m)
      ∧ (2 ≤ m → Forall (fun r => len r.1 + 6 ≤ m) results →
         Forall (fun b => serialized_size b ≤ m) bs)
  | Raise e => e = IndexError ∧ k ≤ 0
  end.
Proof.
  unfold create_name_buckets.
  pose proof (create_name_buckets_loop_spec m k results _ (pack_inv_initial k)) as H.
  destruct (create_name_buckets_loop _ _ _ _) as [bs|e]; [|done].
  destruct H as (Hlen & (dropped & Hcat & Hdrop) & Hbudget).
  assert (Hnil : concat (buckets (initial_pack_state k)) = []).
  { simpl. unfold empty_buckets. apply (proj2 (concat_nil_Forall _)).
    apply Forall_replicate. done. }
  rewrite Hnil in Hcat. simpl in Hcat.
  split; [done|]. split; [by exists dropped|].
  intros Hm Hfit. apply Hbudget; [done..|].
  simpl. unfold empty_buckets. apply Forall_replicate.
  rewrite serialized_size_nil. done.
Qed.

(** With at least one bucket to fill, packing returns. *)
Lemma create_name_buckets_returns results m k :
  1 ≤ k → ∃ bs, create_name_buckets results m k = Ok bs ∧ length bs = Z.to_nat k.
Proof.
  intros Hk. pose proof (create_name_buckets_spec results m k) as H.
  destruct (create_name_buckets results m k) as [bs|e].
  - exists bs. split; [done|]. apply H.
  - destruct H as [_ H]. lia.
Qed.

End packing.

(** C3: the buckets that [create_name_buckets] returns, concatenated in
    order, are a prefix of the input's names in input order; the names
    left out are the remaining suffix, and its first name is one that
    did not fit the last bucket.  The function raises only when asked
    for no bucket at all. *)
Theorem create_name_buckets_prefix (results : list (string * Z)) (m k : Z) :
  match create_name_buckets results m k with
  | Ok bs =>
      ∃ dropped,
        results.*1 = concat bs ++ dropped
        ∧ match dropped with
          | [] => True
          | d :: _ => serialized_size (default [] (last bs)) + (len d + 4) > m
          end
  | Raise e => e = IndexError ∧ k ≤ 0
  end.
Proof.
  pose proof (create_name_buckets_spec results m k) as H.
  destruct (create_name_buckets results m k) as [bs|e]; [|done].
  destruct H as (_ & (dropped & Hcat & Hdrop) & _).
  exists dropped. split; [done|].
  destruct dropped as [|d rest]; [done|]. by eapply Hdrop.
Qed.

Section oversized.

(** Once bucket 1 holds a single name that is too long for it, the loop
    leaves this bucket as it is. *)
Lemma create_name_buckets_loop_oversized m k results st name :
  buckets st !! 1%nat = Some [name] →
  (1 ≤ current_bucket_idx st)%nat →
  (current_bucket_idx st = 1%nat → current_size st > m) →
  match create_name_buckets_loop m k results st with
  | Ok bs => bs !! 1%nat = Some [name]
  | Raise _ => True
  end.
Proof.
  revert st. induction results as [|[n c] results IH]; intros st Hb Hidx Hsize;
    cbn [create_name_buckets_loop]; [done|].
  assert (Hlen : 0 ≤ len n) by (unfold len; lia).
  case_bool_decide as Hover.
  - case_bool_decide; [done|].
    unfold append_to_bucket.
    destruct (buckets st !! S (current_bucket_idx st)) as [b|]; [|done].
    cbn [Py.bind]. apply IH; cbn [buckets current_bucket_idx current_size].
    + by rewrite list_lookup_insert_ne by lia.
    + lia.
    + lia.
  - assert (current_bucket_idx st ≠ 1%nat) by (intros Heq; specialize (Hsize Heq); lia).
    unfold append_to_bucket.
    destruct (buckets st !! current_bucket_idx st) as [b|]; [|done].
    cbn [Py.bind]. apply IH; cbn [buckets current_bucket_idx current_size].
    + by rewrite list_lookup_insert_ne by lia.
    + lia.
    + done.
Qed.

End oversized.

(** C2: a name that is too long for an empty bucket, at the head of the
    list and with two buckets or more, is put alone into the second
    bucket, whose computed size then exceeds [max_bucket_size];
    [create_international_name_buckets] does the same with the first
    name that is not excluded. *)
Theorem oversized_name_exceeds_max_bucket_size (name : string) (c : Z)
    (rest : list (string * Z)) (others : list string)
    (existing_names : gset string) (m k : Z) :
  2 ≤ k → m < len name + 6 → name ∉ existing_names →
  (∃ bs, create_name_buckets ((name, c) :: rest) m k = Ok bs
         ∧ bs !! 1%nat = Some [name])
  ∧ (∃ bs, create_international_name_buckets (name :: others) existing_names
             m k = Ok bs
           ∧ bs !! 1%nat = Some [name])
  ∧ m < serialized_size [name].
Proof.
  intros Hk Hlong Hnew.
  assert (Hgen : ∀ rest',
    ∃ bs, create_name_buckets ((name, c) :: rest') m k = Ok bs
          ∧ bs !! 1%nat = Some [name]).
  { intros rest'.
    destruct (create_name_buckets_returns ((name, c) :: rest') m k)
      as (bs & Hbs & _); [lia|].
    exists bs. split; [done|].
    unfold create_name_buckets in Hbs. cbn [create_name_buckets_loop] in Hbs.
    cbn [initial_pack_state current_size current_bucket_idx buckets] in Hbs.
    rewrite bool_decide_eq_true_2 in Hbs by lia.
    rewrite bool_decide_eq_false_2 in Hbs by lia.
    unfold append_to_bucket, empty_buckets in Hbs.
    rewrite lookup_replicate_2 in Hbs by lia. cbn [Py.bind app] in Hbs.
    match type of Hbs with
    | create_name_buckets_loop _ _ _ ?st = _ =>
        pose proof (create_name_buckets_loop_oversized m k rest' st name) as H
    end.
    rewrite Hbs in H. apply H; cbn [buckets current_bucket_idx current_size].
    - apply list_lookup_insert_eq. rewrite length_replicate. lia.
    - lia.
    - lia. }
  split; [apply Hgen|]. split.
  - rewrite (create_international_name_buckets_filter _ _ _ _ c).
    rewrite filter_cons, decide_True by done. rewrite fmap_cons. apply Hgen.
  - unfold serialized_size. simpl. lia.
Qed.

Lemma oversized_name_exceeds_max_bucket_size_witness :
  let name := String.concat "" (replicate 3945 "x") in
  (2 ≤ 4 ∧ 3950 < len name + 6 ∧ name ∉ ({["Amy"]} : gset string))
  ∧ (∃ bs, create_name_buckets [(name, 7); ("Bo", 5)] 3950 4 = Ok bs
           ∧ bs !! 1%nat = Some [name])
  ∧ (∃ bs, create_international_name_buckets [name; "Amy"; "Bo"] {["Amy"]}
             3950 4 = Ok bs
           ∧ bs !! 1%nat = Some [name])
  ∧ 3950 < serialized_size [name].
Proof.
  intros name.
  assert (H1 : 2 ≤ 4) by lia.
  assert (H2 : 3950 < len name + 6) by (vm_compute; reflexivity).
  assert (H3 : name ∉ ({["Amy"]} : gset string)).
  { intros Hin. apply elem_of_singleton in Hin. vm_compute in Hin.
    discriminate Hin. }
  split; [by repeat split|].
  exact (oversized_name_exceeds_max_bucket_size name 7 [("Bo", 5)]
           ["Amy"; "Bo"] {["Amy"]} 3950 4 H1 H2 H3).
Defined.

Example oversized_name_ex :
  create_name_buckets [("Maximilian", 7)] 12 2 = Ok [[]; ["Maximilian"]]
  ∧ serialized_size ["Maximilian"] = 16.
Proof. split; reflexivity. Qed.

(** Where the budget holds: when it is at least two and every name that
    is packed fits an empty bucket, every bucket that
    [create_name_buckets] and [create_international_name_buckets]
    return has a computed size within the budget. *)
Theorem size_budget_of_fitting_names (results : list (string * Z))
    (names : list string) (existing_names : gset string) (m k : Z) :
  2 ≤ m →
  Forall (fun r => len r.1 + 6 ≤ m) results →
  Forall (fun name => name ∉ existing_names → len name + 6 ≤ m) names →
  match create_name_buckets results m k with
  | Ok bs => Forall (fun b => serialized_size b ≤ m) bs
  | Raise _ => k ≤ 0
  end
  ∧ match create_international_name_buckets names existing_names m k with
    | Ok bs => Forall (fun b => serialized_size b ≤ m) bs
    | Raise _ => k ≤ 0
    end.
Proof.
  intros Hm Hres Hnames. split.
  - pose proof (create_name_buckets_spec results m k) as H.
    destruct (create_name_buckets results m k) as [bs|e]; [|apply H].
    destruct H as (_ & _ & H). by apply H.
  - rewrite (create_international_name_buckets_filter _ _ _ _ 0).
    pose proof (create_name_buckets_spec
      ((fun name => (name, 0)) <$> filter (fun name => name ∉ existing_names) names)
      m k) as H.
    destruct (create_name_buckets _ m k) as [bs|e]; [|apply H].
    destruct H as (_ & _ & H). apply H; [done|].
    apply Forall_fmap, Forall_forall. intros name Hin.
    apply list_elem_of_filter in Hin as [Hex Hin]. simpl.
    rewrite Forall_forall in Hnames. by apply Hnames.
Qed.

Lemma size_budget_of_fitting_names_witness :
  2 ≤ 15
  ∧ Forall (fun r : string * Z => len r.1 + 6 ≤ 15)
      [("Amy", 9); ("Bo", 7); ("Cy", 5)]
  ∧ Forall (fun name => name ∉ ({["Amy"; "Bartholomew"]} : gset string) → len name + 6 ≤ 15)
      ["Yuki"; "Amy"; "Bartholomew"; "Bo"]
  ∧ (match create_name_buckets [("Amy", 9); ("Bo", 7); ("Cy", 5)] 15 2 with
     | Ok bs => Forall (fun b => serialized_size b ≤ 15) bs
     | Raise _ => 2 ≤ 0
     end
     ∧ match create_international_name_buckets
               ["Yuki"; "Amy"; "Bartholomew"; "Bo"] {["Amy"; "Bartholomew"]} 15 2 with
       | Ok bs => Forall (fun b => serialized_size b ≤ 15) bs
       | Raise _ => 2 ≤ 0
       end).
Proof.
  assert (H1 : 2 ≤ 15) by lia.
  assert (H2 : Forall (fun r : string * Z => len r.1 + 6 ≤ 15)
                 [("Amy", 9); ("Bo", 7); ("Cy", 5)]).
  { repeat constructor; vm_compute; discriminate. }
  assert (H3 : Forall (fun name => name ∉ ({["Amy"; "Bartholomew"]} : gset string)
                                   → len name + 6 ≤ 15)
                 ["Yuki"; "Amy"; "Bartholomew"; "Bo"]).
  { repeat constructor.
    - intros _. vm_compute. discriminate.
    - intros Hn. exfalso. apply Hn. set_solver.
    - intros Hn. exfalso. apply Hn. set_solver.
    - intros _. vm_compute. discriminate. }
  exact (conj H1 (conj H2 (conj H3
    (size_budget_of_fitting_names _ _ _ 15 2 H1 H2 H3)))).
Defined.

(** C4: [create_international_name_buckets] returns what
    [create_name_buckets] returns on the names that are not in the
    exclude set, kept in their order (and paired with any count), be it
    buckets or an exception; and no bucket it returns holds a name of
    the exclude set. *)
Theorem create_international_name_buckets_refines (names : list string)
    (existing_names : gset string) (m k : Z) (c : Z) :
  create_international_name_buckets names existing_names m k
  = create_name_buckets
      ((fun name => (name, c)) <$> filter (fun name => name ∉ existing_names) names)
      m k
  ∧ match create_international_name_buckets names existing_names m k with
    | Ok bs => Forall (Forall (fun name => name ∉ existing_names)) bs
    | Raise _ => True
    end.
Proof.
  split; [apply create_international_name_buckets_filter|].
  rewrite (create_international_name_buckets_filter _ _ _ _ c).
  pose proof (create_name_buckets_spec
    ((fun name => (name, c)) <$> filter (fun name => name ∉ existing_names) names)
    m k) as H.
  destruct (create_name_buckets _ m k) as [bs|e]; [|done].
  destruct H as (_ & (dropped & Hcat & _) & _).
  rewrite <- list_fmap_compose in Hcat.
  apply Forall_forall. intros b Hb. apply Forall_forall. intros name Hname.
  assert (Hin : name ∈ concat bs ++ dropped).
  { apply elem_of_app. left. apply list_elem_of_In, in_concat.
    exists b. by split; apply list_elem_of_In. }
  rewrite <- Hcat in Hin. apply list_elem_of_fmap in Hin as (n & -> & Hin).
  by apply list_elem_of_filter in Hin as [? _].
Qed.

(** * Properties of the aggregation *)

Section aggregation.

Implicit Types (name_counts items : list (string * Z)) (name : string).

Lemma sum_counts_add_count name_counts name count :
  sum_counts (add_count name_counts name count) = sum_counts name_counts + count.
Proof.
  induction name_counts as [|[k v] rest IH]; simpl; [lia|].
  destruct (String.eqb k name); simpl in *; lia.
Qed.

Lemma elem_of_keys_add_count name_counts name count x :
  x ∈ (add_count name_counts name count).*1 → x = name ∨ x ∈ name_counts.*1.
Proof.
  induction name_counts as [|[k v] rest IH]; simpl.
  - intros Hx. apply list_elem_of_singleton in Hx. by left.
  - destruct (String.eqb k name); simpl; [by right|].
    intros [->|Hx]%elem_of_cons; [right; left|].
    destruct (IH Hx); [by left|right; by right].
Qed.

Lemma NoDup_keys_add_count name_counts name count :
  NoDup name_counts.*1 → NoDup (add_count name_counts name count).*1.
Proof.
  induction name_counts as [|[k v] rest IH]; simpl; intros Hnd.
  - apply NoDup_singleton.
  - apply NoDup_cons in Hnd as [Hk Hrest].
    destruct (String.eqb_spec k name) as [->|Hne]; simpl.
    + by apply NoDup_cons.
    + apply NoDup_cons. split; [|by apply IH].
      intros [?|?]%elem_of_keys_add_count; by subst.
Qed.

(** Each iteration keeps the grand total equal to the sum of the
    per-name totals, and the names distinct. *)
Lemma analyze_line_inv name_counts total line :
  sum_counts name_counts = total → NoDup name_counts.*1 →
  sum_counts (analyze_line (name_counts, total) line).1
    = (analyze_line (name_counts, total) line).2
  ∧ NoDup (analyze_line (name_counts, total) line).1.*1.
Proof.
  intros Hsum Hnd. unfold analyze_line.
  repeat (case_match; try done); simpl.
  split; [|by apply NoDup_keys_add_count].
  rewrite sum_counts_add_count. lia.
Qed.

Lemma analyze_lines_inv file acc :
  sum_counts acc.1 = acc.2 → NoDup acc.1.*1 →
  sum_counts (foldl analyze_line acc file).1 = (foldl analyze_line acc file).2
  ∧ NoDup (foldl analyze_line acc file).1.*1.
Proof.
  revert acc. induction file as [|line file IH]; intros [nc total] Hsum Hnd;
    simpl in *; [done|].
  destruct (analyze_line_inv nc total line Hsum Hnd) as [Hs' Hnd'].
  by apply IH.
Qed.

(** A skipped line leaves the accumulated counts and total as they are. *)
Lemma analyze_line_skipped acc line :
  skipped_line line → analyze_line acc line = acc.
Proof.
  destruct acc as [nc total]. unfold analyze_line.
  intros [Hlen|st g y n c Hsplit Hy|st g y n c Hsplit Hc|st g y n c yv Hsplit Hy Hw].
  - repeat (case_match; try done).
  - rewrite Hsplit, Hy. done.
  - rewrite Hsplit, Hc. by destruct (int y).
  - rewrite Hsplit, Hy. destruct (int c); [|done].
    by rewrite bool_decide_eq_false_2.
Qed.

(** A line that is not skipped adds its count to its name and to the
    grand total. *)
Lemma analyze_line_admitted name_counts total line st gender year name count y c :
  split "," (strip line) = [st; gender; year; name; count] →
  int year = Some y → int count = Some c → 1955 ≤ y ≤ 2010 →
  analyze_line (name_counts, total) line
  = (add_count name_counts name c, total + c).
Proof.
  intros Hsplit Hy Hc Hw. unfold analyze_line.
  rewrite Hsplit, Hy, Hc. by rewrite bool_decide_eq_true_2.
Qed.

Lemma insert_desc_perm x items : insert_desc x items ≡ₚ x :: items.
Proof.
  induction items as [|y items IH]; simpl; [done|].
  case_bool_decide; [done|]. rewrite IH. apply Permutation_swap.
Qed.

Lemma sorted_by_count_desc_perm items : sorted_by_count_desc items ≡ₚ items.
Proof.
  induction items as [|x items IH]; simpl; [done|].
  unfold sorted_by_count_desc in *. simpl.
  by rewrite insert_desc_perm, IH.
Qed.

Lemma insert_desc_sorted x items :
  StronglySorted count_ge items → StronglySorted count_ge (insert_desc x items).
Proof.
  induction 1 as [|y items Hsorted IH Hall]; simpl.
  - repeat constructor.
  - case_bool_decide as Hle.
    + constructor; [by constructor|].
      constructor; [done|].
      eapply Forall_impl; [exact Hall|]. unfold count_ge. intros; lia.
    + constructor; [done|].
      rewrite insert_desc_perm. constructor; [|done].
      unfold count_ge. lia.
Qed.

Lemma sorted_by_count_desc_sorted items :
  StronglySorted count_ge (sorted_by_count_desc items).
Proof.
  induction items as [|x items IH]; [constructor|].
  by apply insert_desc_sorted.
Qed.

Lemma sum_counts_perm items items' :
  items ≡ₚ items' → sum_counts items = sum_counts items'.
Proof. induction 1; simpl in *; lia. Qed.

Lemma analyze_names_spec file :
  sum_counts (analyze_names file).1 = (analyze_names file).2
  ∧ NoDup (analyze_names file).1.*1
  ∧ StronglySorted count_ge (analyze_names file).1.
Proof.
  unfold analyze_names.
  destruct (analyze_lines_inv file ([], 0)) as [Hsum Hnd];
    [done|apply NoDup_nil_2|].
  destruct (foldl analyze_line _ file) as [nc total]. simpl in *.
  split; [|split].
  - by rewrite (sum_counts_perm _ _ (sorted_by_count_desc_perm nc)).
  - by rewrite (sorted_by_count_desc_perm nc).
  - apply sorted_by_count_desc_sorted.
Qed.

Lemma analyze_names_skipped pre line post :
  skipped_line line →
  analyze_names (pre ++ line :: post) = analyze_names (pre ++ post).
Proof.
  intros Hskip. unfold analyze_names.
  rewrite !foldl_app. simpl. by rewrite analyze_line_skipped.
Qed.

End aggregation.

(** * Further properties of the aggregation *)

Section aggregation_more.

Implicit Types (name_counts records : list (string * Z)) (name : string).

(** An association list as the dict that it lists. *)
Local Abbreviation dict l := (list_to_map l : gmap string Z).

(** An iteration of the loop, by the record that the line adds. *)
Lemma analyze_line_admitted_record (acc : list (string * Z) * Z) line :
  analyze_line acc line
  = match admitted_record line with
    | Some (name, count) => (add_count acc.1 name count, acc.2 + count)
    | None => acc
    end.
Proof.
  destruct acc as [nc total]. unfold analyze_line, admitted_record.
  repeat (case_match; try done); simplify_eq; done.
Qed.

Lemma foldl_analyze_line file acc :
  foldl analyze_line acc file = foldl add_record acc (omap admitted_record file).
Proof.
  revert acc. induction file as [|line file IH]; intros acc; [done|].
  simpl. rewrite IH, analyze_line_admitted_record.
  by destruct (admitted_record line) as [[name count]|].
Qed.

Lemma foldl_add_record_total records acc :
  (foldl add_record acc records).2 = acc.2 + sum_counts records.
Proof.
  revert acc. induction records as [|[n c] records IH]; intros acc; simpl;
    [lia|]. rewrite IH. simpl. lia.
Qed.

(** The dict after [name_counts[name] += count]. *)
Lemma list_to_map_add_count name_counts name count :
  dict (add_count name_counts name count)
  = <[name := default 0 (dict name_counts !! name) + count]> (dict name_counts).
Proof.
  induction name_counts as [|[k v] rest IH]; simpl; [done|].
  destruct (String.eqb_spec k name) as [->|Hne]; simpl.
  - by rewrite lookup_insert_eq, insert_insert_eq.
  - rewrite IH, lookup_insert_ne by done. by apply insert_insert_ne.
Qed.

Lemma total_for_cons name record records :
  total_for name (record :: records)
  = (if decide (record.1 = name) then record.2 else 0) + total_for name records.
Proof.
  unfold total_for. rewrite filter_cons.
  destruct (decide (record.1 = name)); simpl; lia.
Qed.

Lemma total_for_absent name records :
  name ∉ records.*1 → total_for name records = 0.
Proof.
  induction records as [|[n c] records IH]; [done|].
  rewrite fmap_cons, not_elem_of_cons, total_for_cons. simpl.
  intros [Hne Hnin]. rewrite IH by done. by rewrite decide_False.
Qed.

Lemma foldl_add_record_lookup records acc name :
  dict (foldl add_record acc records).1 !! name
  = if decide (name ∈ records.*1)
    then Some (default 0 (dict acc.1 !! name) + total_for name records)
    else dict acc.1 !! name.
Proof.
  revert acc. induction records as [|[n c] records IH]; intros acc; [done|].
  simpl foldl. rewrite IH. unfold add_record. cbn [fst snd].
  rewrite list_to_map_add_count, total_for_cons, fmap_cons. cbn [fst snd].
  destruct (decide (name ∈ records.*1)) as [Hin|Hnin].
  - rewrite decide_True by (by right).
    destruct (decide (n = name)) as [->|Hne].
    + rewrite lookup_insert_eq. simpl. f_equal. lia.
    + rewrite lookup_insert_ne by done. f_equal.
  - destruct (decide (n = name)) as [->|Hne].
    + rewrite decide_True by (by left). rewrite lookup_insert_eq.
      rewrite total_for_absent by done. f_equal. lia.
    + rewrite decide_False by (rewrite not_elem_of_cons; split; congruence).
      by rewrite lookup_insert_ne.
Qed.

(** The keys of the dict after the loop: the names in the order in
    which they are first met. *)
Lemma keys_add_count name_counts name count :
  (add_count name_counts name count).*1
  = if decide (name ∈ name_counts.*1) then name_counts.*1
    else name_counts.*1 ++ [name].
Proof.
  induction name_counts as [|[k v] rest IH]; [done|].
  cbn [add_count]. destruct (String.eqb_spec k name) as [->|Hne];
    rewrite !fmap_cons; cbn [fst].
  - by rewrite decide_True by (by left).
  - rewrite IH. destruct (decide (name ∈ rest.*1)).
    + by rewrite decide_True by (by right).
    + by rewrite decide_False by (rewrite not_elem_of_cons; split; congruence).
Qed.

Lemma first_occurrences_ext (seen seen' l : list string) :
  (∀ x, x ∈ seen ↔ x ∈ seen') →
  first_occurrences seen l = first_occurrences seen' l.
Proof.
  revert seen seen'. induction l as [|x l IH]; intros seen seen' Hs; [done|].
  simpl. rewrite (bool_decide_ext _ _ (Hs x)).
  case_bool_decide; [by apply IH|]. f_equal. apply IH.
  intros y. rewrite !elem_of_cons. by rewrite Hs.
Qed.

Lemma foldl_add_record_keys records acc :
  (foldl add_record acc records).1.*1
  = acc.1.*1 ++ first_occurrences acc.1.*1 records.*1.
Proof.
  revert acc. induction records as [|[n c] records IH]; intros acc; simpl.
  - by rewrite app_nil_r.
  - rewrite IH. unfold add_record. cbn [fst snd]. rewrite keys_add_count.
    destruct (decide (n ∈ acc.1.*1)) as [Hin|Hnin].
    + by rewrite bool_decide_eq_true_2.
    + rewrite bool_decide_eq_false_2 by done. rewrite <- app_assoc. simpl.
      do 2 f_equal. apply first_occurrences_ext. intros x.
      rewrite elem_of_app, !elem_of_cons, elem_of_nil. tauto.
Qed.

(** The sort is stable: among the items of one count the order is kept. *)
Lemma filter_insert_desc (c : Z) x items :
  filter (fun item : string * Z => item.2 = c) (insert_desc x items)
  = filter (fun item : string * Z => item.2 = c) (x :: items).
Proof.
  induction items as [|y items IH]; simpl; [done|].
  case_bool_decide as Hle; [done|].
  rewrite (filter_cons _ y), IH, !filter_cons.
  destruct (decide (x.2 = c)) as [Hx|Hx]; [|done].
  destruct (decide (y.2 = c)); [lia|done].
Qed.

Lemma filter_sorted_by_count_desc (c : Z) items :
  filter (fun item : string * Z => item.2 = c) (sorted_by_count_desc items)
  = filter (fun item : string * Z => item.2 = c) items.
Proof.
  induction items as [|x items IH]; [done|].
  unfold sorted_by_count_desc in *. simpl.
  rewrite filter_insert_desc, !filter_cons, IH. done.
Qed.

Lemma analyze_names_unfold file :
  analyze_names file
  = (sorted_by_count_desc (foldl add_record ([], 0) (omap admitted_record file)).1,
     (foldl add_record ([], 0) (omap admitted_record file)).2).
Proof.
  unfold analyze_names. rewrite foldl_analyze_line.
  by destruct (foldl add_record _ _).
Qed.

Lemma foldl_add_record_NoDup records :
  NoDup (foldl add_record ([], 0) records).1.*1.
Proof.
  assert (H : ∀ acc, NoDup acc.1.*1 → NoDup (foldl add_record acc records).1.*1).
  { induction records as [|r records IH]; intros acc Hnd; [done|].
    simpl. apply IH. simpl. by apply NoDup_keys_add_count. }
  apply H. simpl. apply NoDup_nil_2.
Qed.

Lemma elem_of_foldl_add_record records name t :
  (name, t) ∈ (foldl add_record ([], 0) records).1
  ↔ name ∈ records.*1 ∧ t = total_for name records.
Proof.
  rewrite (elem_of_list_to_map (M := gmap string)) by apply foldl_add_record_NoDup.
  rewrite foldl_add_record_lookup. simpl.
  destruct (decide (name ∈ records.*1)) as [Hin|Hnin].
  - rewrite lookup_empty. simpl. split.
    + intros [= <-]. split; [done|lia].
    + intros [_ ->]. f_equal.
  - rewrite lookup_empty. split; [done|]. by intros [? _].
Qed.

Lemma filter_keys_total (f : string → Z) (c : Z) items :
  Forall (fun item : string * Z => item.2 = f item.1) items →
  (filter (fun item : string * Z => item.2 = c) items).*1
  = filter (fun name => f name = c) items.*1.
Proof.
  induction 1 as [|[n t] l Hnt _ IH]; [done|].
  rewrite fmap_cons, !filter_cons. cbn [fst snd] in *. rewrite <- Hnt.
  destruct (decide (t = c)); [rewrite fmap_cons|]; by rewrite IH.
Qed.

End aggregation_more.

(** A line adds nothing exactly when it is skipped. *)
Lemma admitted_record_None (line : string) :
  admitted_record line = None ↔ skipped_line line.
Proof.
  unfold admitted_record. split.
  - intros H.
    destruct (split "," (strip line)) as [|a [|b [|y [|n [|c [|? ?]]]]]] eqn:Hs;
      try (apply skipped_field_count; rewrite Hs; simpl; lia).
    destruct (int y) as [yv|] eqn:Hy; [|by eapply skipped_year].
    destruct (int c) as [cv|] eqn:Hc; [|by eapply skipped_count].
    case_bool_decide; [done|]. by eapply skipped_window.
  - intros [Hlen|st g y n c Hs Hy|st g y n c Hs Hc|st g y n c yv Hs Hy Hw].
    + repeat (case_match; try done).
    + by rewrite Hs, Hy.
    + rewrite Hs, Hc. by destruct (int y).
    + rewrite Hs, Hy. destruct (int c); [|done].
      by rewrite bool_decide_eq_false_2.
Qed.

(** C5: [analyze_names] returns a list of distinct names with totals,
    sorted by total in descending order, whose totals sum up to the grand
    total returned with it.  A line with a number of fields other than
    five, with a year or a count that is not an integer, or with a year
    outside 1955..2010 adds to neither: leaving it out of the file
    changes nothing of the result.  Every other line adds its count to
    its name and to the grand total: the grand total is the sum of the
    counts of these lines, and the list holds exactly their names, each
    with the sum of the counts of its lines. *)
Theorem analyze_names_sum_consistent (file : list string) :
  (sum_counts (analyze_names file).1 = (analyze_names file).2
   ∧ NoDup (analyze_names file).1.*1
   ∧ StronglySorted count_ge (analyze_names file).1)
  ∧ (∀ pre line post,
       file = pre ++ line :: post → skipped_line line →
       analyze_names file = analyze_names (pre ++ post))
  ∧ (∀ line, admitted_record line = None ↔ skipped_line line)
  ∧ (analyze_names file).2 = sum_counts (omap admitted_record file)
  ∧ ∀ name t,
      (name, t) ∈ (analyze_names file).1
      ↔ name ∈ (omap admitted_record file).*1
        ∧ t = total_for name (omap admitted_record file).
Proof.
  split; [apply analyze_names_spec|].
  split; [intros pre line post -> Hskip; by apply analyze_names_skipped|].
  split; [apply admitted_record_None|].
  rewrite analyze_names_unfold. simpl. split.
  - rewrite foldl_add_record_total. simpl. lia.
  - intros name t. rewrite (sorted_by_count_desc_perm _).
    apply elem_of_foldl_add_record.
Qed.

(** X4: the grand total of [analyze_names] is the sum of the counts of
    the lines that are not skipped, and the ranked list holds exactly the
    names of these lines, each with the sum of the counts of its lines. *)
Theorem analyze_names_totals (file : list string) :
  (analyze_names file).2 = sum_counts (omap admitted_record file)
  ∧ ∀ name t,
      (name, t) ∈ (analyze_names file).1
      ↔ name ∈ (omap admitted_record file).*1
        ∧ t = total_for name (omap admitted_record file).
Proof.
  rewrite analyze_names_unfold. simpl. split.
  - rewrite foldl_add_record_total. simpl. lia.
  - intros name t. rewrite (sorted_by_count_desc_perm _).
    apply elem_of_foldl_add_record.
Qed.

(** X5: in the ranked list of [analyze_names] the names that have the
    same total stand in the order in which the file first mentions
    them. *)
Theorem analyze_names_ties_first_seen (file : list string) (c : Z) :
  (filter (fun item : string * Z => item.2 = c) (analyze_names file).1).*1
  = filter (fun name => total_for name (omap admitted_record file) = c)
      (first_occurrences [] (omap admitted_record file).*1).
Proof.
  rewrite analyze_names_unfold. simpl. rewrite filter_sorted_by_count_desc.
  set (records := omap admitted_record file).
  pose proof (foldl_add_record_keys records ([], 0)) as Hkeys. simpl in Hkeys.
  rewrite <- Hkeys.
  apply filter_keys_total. apply Forall_forall. intros [n t] Hin.
  by apply elem_of_foldl_add_record in Hin as [_ ->].
Qed.

(** * Properties of the loader *)

Section loader.

Implicit Types (db : dynamodb) (it : item) (state : string)
  (name_buckets : list (list string)).

(** What a prepared item holds under the keys that the handlers read. *)
Lemma prepare_item_lookup state name_buckets unique total other it :
  prepare_item state name_buckets unique total other = Ok it →
  it !! "State" = Some (VStr state)
  ∧ (∀ (n : nat) key, own_identifiers !! n = Some key →
       ∃ names, name_buckets !! n = Some names
                ∧ it !! key = Some (names_value names))
  ∧ (∀ key, String.prefix "nameBucket" key = true → it !! key = None).
Proof.
  unfold prepare_item, subscript. intros Hit.
  destruct (name_buckets !! 0%nat) as [b1|] eqn:H1; [|done].
  destruct (name_buckets !! 1%nat) as [b2|] eqn:H2; [|done].
  destruct (name_buckets !! 2%nat) as [b3|] eqn:H3; [|done].
  destruct (name_buckets !! 3%nat) as [b4|] eqn:H4; [|done].
  simpl in Hit.
  assert (Hown : ∀ it',
    it' !! "stateBucket1" = Some (names_value b1) →
    it' !! "stateBucket2" = Some (names_value b2) →
    it' !! "stateBucket3" = Some (names_value b3) →
    it' !! "stateBucket4" = Some (names_value b4) →
    ∀ (n : nat) key, own_identifiers !! n = Some key →
      ∃ names, name_buckets !! n = Some names
               ∧ it' !! key = Some (names_value names)).
  { intros it' ? ? ? ? n key Hkey.
    destruct n as [|[|[|[|n]]]]; simpl in Hkey; try done;
      injection Hkey as <-; eauto. }
  assert (Hpre : ∀ key (P : Prop), String.prefix "nameBucket" key = true →
            (key ≠ "State" → key ≠ "stateBucket1" → key ≠ "stateBucket2" →
             key ≠ "stateBucket3" → key ≠ "stateBucket4" →
             key ≠ "stateBucket1Count" → key ≠ "stateBucket2Count" →
             key ≠ "stateBucket3Count" → key ≠ "stateBucket4Count" →
             key ≠ "uniqueNamesCount" → key ≠ "totalNameCount" →
             key ≠ "otherNamesBucket1" → key ≠ "otherNamesBucket2" →
             key ≠ "otherNamesBucket1Count" → key ≠ "otherNamesBucket2Count" →
             P) → P).
  { intros key P Hp HP. apply HP; intros ->; discriminate Hp. }
  destruct other as [[|o other]|].
  - injection Hit; clear Hit; intros Hit; subst it. split; [by simplify_map_eq|]. split.
    + apply Hown; by simplify_map_eq.
    + intros key Hp. apply (Hpre key _ Hp). intros. by simplify_map_eq.
  - destruct other as [|o2 other]; [done|]. simpl in Hit.
    injection Hit; clear Hit; intros Hit; subst it. split; [by simplify_map_eq|]. split.
    + apply Hown; by simplify_map_eq.
    + intros key Hp. apply (Hpre key _ Hp). intros. by simplify_map_eq.
  - injection Hit; clear Hit; intros Hit; subst it. split; [by simplify_map_eq|]. split.
    + apply Hown; by simplify_map_eq.
    + intros key Hp. apply (Hpre key _ Hp). intros. by simplify_map_eq.
Qed.

(** The supplementary buckets of a prepared item. *)
Lemma prepare_item_supplementary state name_buckets unique total other it :
  prepare_item state name_buckets unique total other = Ok it →
  match other with
  | Some ((_ :: _) as other) =>
      ∃ o1 o2, other !! 0%nat = Some o1 ∧ other !! 1%nat = Some o2
               ∧ it !! "otherNamesBucket1" = Some (names_value o1)
               ∧ it !! "otherNamesBucket2" = Some (names_value o2)
  | _ => it !! "otherNamesBucket1" = None ∧ it !! "otherNamesBucket2" = None
  end.
Proof.
  unfold prepare_item, subscript. intros Hit.
  destruct (name_buckets !! 0%nat) as [b1|]; [|done].
  destruct (name_buckets !! 1%nat) as [b2|]; [|done].
  destruct (name_buckets !! 2%nat) as [b3|]; [|done].
  destruct (name_buckets !! 3%nat) as [b4|]; [|done].
  simpl in Hit.
  destruct other as [[|o1 [|o2 other]]|]; simpl in Hit; try done;
    injection Hit; clear Hit; intros Hit; subst it.
  - by simplify_map_eq.
  - exists o1, o2. by simplify_map_eq.
  - by simplify_map_eq.
Qed.

(** A write that returns has stored the prepared item under the state,
    in place of whatever was stored there. *)
Lemma put_item_Ok db it db' :
  put_item db it = Ok db' →
  ∃ state, it !! "State" = Some (VStr state) ∧ state ≠ EmptyString
           ∧ fault db = None ∧ unserializable (VDict it) = false
           ∧ db' = {| StateNames := <[state := it]> (StateNames db);
                      fault := None |}.
Proof.
  unfold put_item. destruct (unserializable (VDict it)); [done|].
  destruct (fault db) eqn:Hf; [done|].
  destruct (it !! "State") as [[| | | |[|c state]| | |]|]; try done.
  intros [= <-]. by exists (String c state).
Qed.

Lemma put_item_returns db it state :
  unserializable (VDict it) = false → fault db = None →
  it !! "State" = Some (VStr state) → state ≠ EmptyString →
  put_item db it = Ok {| StateNames := <[state := it]> (StateNames db);
                         fault := None |}.
Proof.
  intros Hfl Hf Hst Hne. unfold put_item. rewrite Hfl, Hf, Hst.
  by destruct state.
Qed.

Lemma write_to_dynamodb_Ok db state name_buckets unique total other db' :
  write_to_dynamodb db state name_buckets unique total other = Ok db' →
  ∃ it, prepare_item state name_buckets unique total other = Ok it
        ∧ state ≠ EmptyString ∧ fault db = None
        ∧ db' = {| StateNames := <[state := it]> (StateNames db);
                   fault := None |}.
Proof.
  unfold write_to_dynamodb.
  destruct (prepare_item _ _ _ _ _) as [it|] eqn:Hit; [|done]. simpl.
  intros (state' & Hst & Hne & Hf & _ & ->)%put_item_Ok.
  apply prepare_item_lookup in Hit as Hl. destruct Hl as (Hst' & _).
  rewrite Hst' in Hst. injection Hst as <-. by exists it.
Qed.

(** [process_state_file] writes the item computed from the file and the
    international names alone. *)
Lemma process_state_file_computed_item db file_path file international_names
    existing_names :
  process_state_file db file_path file international_names existing_names
  = (it <- computed_item file_path file international_names ;; put_item db it).
Proof.
  unfold process_state_file, computed_item, write_to_dynamodb.
  destruct (analyze_names file) as [results total]. simpl.
  destruct (create_name_buckets results 3950 4) as [name_buckets|]; [|done].
  simpl. destruct international_names as [[|name names]|]; try done.
  simpl. by destruct (create_international_name_buckets _ _ _ _).
Qed.

Lemma computed_item_State file_path file international_names it :
  computed_item file_path file international_names = Ok it →
  it !! "State" = Some (VStr (state_of_path file_path)).
Proof.
  unfold computed_item.
  destruct (create_name_buckets _ _ _) as [name_buckets|]; [|done]. simpl.
  destruct (match international_names with
            | Some ((_ :: _) as names) => _
            | _ => _
            end) as [other|]; [|done]. simpl.
  intros Hit%prepare_item_lookup. apply Hit.
Qed.

(** The item is always computed: four buckets and two supplementary
    buckets are asked for. *)
Lemma computed_item_returns file_path file international_names :
  ∃ it, computed_item file_path file international_names = Ok it.
Proof.
  unfold computed_item.
  destruct (create_name_buckets_returns (analyze_names file).1 3950 4)
    as (nb & -> & Hlen); [lia|]. simpl.
  destruct nb as [|b1 [|b2 [|b3 [|b4 nb]]]]; try done.
  destruct international_names as [[|name names]|]; simpl; eauto.
  destruct (create_name_buckets_returns
              ((fun n => (n, 0)) <$>
                 filter (fun n => n ∉ state_names_of (b1 :: b2 :: b3 :: b4 :: nb))
                   (name :: names)) 3950 2)
    as (other & Hother & Hlen2); [lia|].
  rewrite (create_international_name_buckets_filter _ _ _ _ 0), Hother. simpl.
  destruct other as [|o1 [|o2 other]]; try done. simpl. eauto.
Qed.

Lemma process_state_file_Ok db file_path file international_names
    existing_names db' :
  process_state_file db file_path file international_names existing_names
  = Ok db' →
  ∃ it, computed_item file_path file international_names = Ok it
        ∧ state_of_path file_path ≠ EmptyString ∧ fault db = None
        ∧ unserializable (VDict it) = false
        ∧ db' = {| StateNames := <[state_of_path file_path := it]> (StateNames db);
                   fault := None |}.
Proof.
  rewrite process_state_file_computed_item.
  destruct (computed_item _ _ _) as [it|] eqn:Hit; [|done]. simpl.
  intros (state' & Hst & Hne & Hf & Hser & ->)%put_item_Ok.
  apply computed_item_State in Hit as Hst'.
  rewrite Hst' in Hst. injection Hst as <-. by exists it.
Qed.

Lemma process_state_file_returns db file_path file international_names
    existing_names :
  state_of_path file_path ≠ EmptyString → fault db = None →
  match computed_item file_path file international_names with
  | Ok it => unserializable (VDict it) = false
  | Raise _ => False
  end →
  ∃ db', process_state_file db file_path file international_names
           existing_names = Ok db'.
Proof.
  intros Hne Hf Hser. rewrite process_state_file_computed_item.
  destruct (computed_item _ _ _) as [it|] eqn:Hit; [|done]. simpl.
  pose proof (computed_item_State _ _ _ _ Hit) as Hst.
  rewrite (put_item_returns db it _ Hser Hf Hst Hne). eauto.
Qed.

End loader.

(** C8: a run of [process_state_file] that returns leaves a table that a
    second run on the same file and international names leaves exactly
    as it is; the record of the state is the item computed from these
    inputs alone, put in place of whatever the table held for the state. *)
Theorem publish_idempotent (db db1 : dynamodb) (file_path : string)
    (file : list string) (international_names : option (list string))
    (existing_names existing_names' : option (gset string)) :
  process_state_file db file_path file international_names existing_names
  = Ok db1 →
  process_state_file db1 file_path file international_names existing_names'
  = Ok db1
  ∧ ∃ it, computed_item file_path file international_names = Ok it
          ∧ StateNames db1
            = <[state_of_path file_path := it]> (StateNames db).
Proof.
  intros (it & Hit & Hne & Hf & Hfl & ->)%process_state_file_Ok.
  split; [|eauto].
  rewrite process_state_file_computed_item, Hit. simpl.
  pose proof (computed_item_State _ _ _ _ Hit) as Hst.
  rewrite (put_item_returns
             {| StateNames := <[state_of_path file_path := it]> (StateNames db);
                fault := None |} it _ Hfl eq_refl Hst Hne). simpl.
  by rewrite insert_insert_eq.
Qed.

(** C10: two runs of [process_state_file] on the same file and
    international names, over any two tables and with any two
    [existing_names] arguments, store the same record for the state; its
    supplementary buckets are those packed from the international names
    and the names of the state's own buckets. *)
Theorem supplementary_buckets_ignore_the_table (db1 db2 db1' db2' : dynamodb)
    (file_path : string) (file : list string)
    (international_names : option (list string))
    (existing_names1 existing_names2 : option (gset string)) :
  process_state_file db1 file_path file international_names existing_names1
  = Ok db1' →
  process_state_file db2 file_path file international_names existing_names2
  = Ok db2' →
  ∃ it,
    StateNames db1' !! state_of_path file_path = Some it
    ∧ StateNames db2' !! state_of_path file_path = Some it
    ∧ match international_names with
      | Some ((_ :: _) as names) =>
          ∃ name_buckets o1 o2,
            create_name_buckets (analyze_names file).1 3950 4 = Ok name_buckets
            ∧ create_international_name_buckets names
                (state_names_of name_buckets) 3950 2 = Ok [o1; o2]
            ∧ it !! "otherNamesBucket1" = Some (names_value o1)
            ∧ it !! "otherNamesBucket2" = Some (names_value o2)
      | _ => it !! "otherNamesBucket1" = None
             ∧ it !! "otherNamesBucket2" = None
      end.
Proof.
  intros (it & Hit & _ & _ & _ & ->)%process_state_file_Ok
         (it' & Hit' & _ & _ & _ & ->)%process_state_file_Ok.
  rewrite Hit in Hit'. injection Hit'; clear Hit'; intros Hit'; subst it'.
  exists it. simpl. rewrite !lookup_insert_eq. split; [done|]. split; [done|].
  unfold computed_item in Hit.
  destruct (create_name_buckets _ _ _) as [name_buckets|]; [|done].
  simpl in Hit.
  destruct international_names as [[|name names]|]; simpl in Hit.
  - by apply prepare_item_supplementary in Hit.
  - pose proof (create_name_buckets_spec
      ((fun n => (n, 0)) <$>
         filter (fun n => n ∉ state_names_of name_buckets) (name :: names))
      3950 2) as Hspec.
    rewrite <- (create_international_name_buckets_filter _ _ _ _ 0) in Hspec.
    destruct (create_international_name_buckets _ _ _ _) as [other|] eqn:Hother;
      [|done].
    destruct Hspec as (Hlen & _). simpl in Hit.
    destruct other as [|o1 [|o2 [|o3 other]]]; try done.
    apply prepare_item_supplementary in Hit
      as (o1' & o2' & [= <-] & [= <-] & ? & ?).
    exists name_buckets, o1, o2. by rewrite Hother.
  - by apply prepare_item_supplementary in Hit.
Qed.

(** * Properties of the lookup handlers *)

Section lookup.
Context `{Runtime}.

Implicit Types (db : dynamodb) (event data : pyval) (state bucket : string).

(** [json.dumps] returns on an error object, on a list of names and on
    the empty list. *)
Lemma json_error_error_object (msg : string) :
  json_error (error_object msg) = None.
Proof. unfold error_object. cbn [json_error]. by rewrite map_fold_singleton. Qed.

Lemma json_error_names_value (names : list string) :
  json_error (names_value names) = None.
Proof.
  unfold names_value. cbn [json_error].
  induction names as [|name names IH]; [done|]. by rewrite fmap_cons.
Qed.

Lemma format_response_Ok data (is_api_gateway : bool) :
  json_error data = None →
  format_response data is_api_gateway = Ok (response_of data is_api_gateway).
Proof.
  intros Hdata. unfold format_response, response_of, dumps.
  destruct is_api_gateway; [|done]. by rewrite Hdata.
Qed.

Lemma format_response_error_object (msg : string) (is_api_gateway : bool) :
  format_response (error_object msg) is_api_gateway
  = Ok (response_of (error_object msg) is_api_gateway).
Proof. apply format_response_Ok, json_error_error_object. Qed.

Lemma format_response_Raise data (is_api_gateway : bool) e :
  format_response data is_api_gateway = Raise e
  ↔ is_api_gateway = true ∧ json_error data = Some e.
Proof.
  unfold format_response, dumps. destruct is_api_gateway.
  - destruct (json_error data); simpl; split; try done.
    + intros [= ->]. done.
    + intros [_ [= ->]]. done.
    + by intros [_ ?].
  - split; [done|]. by intros [? _].
Qed.

(** Lists of names come back from the table as they were put. *)
Lemma deserialize_names_value (names : list string) :
  deserialize (names_value names) = names_value names.
Proof.
  unfold names_value. cbn [deserialize]. f_equal.
  induction names as [|name names IH]; [done|].
  rewrite !fmap_cons. cbn [deserialize]. by f_equal.
Qed.

Lemma status_code_response_of data :
  status_code (response_of data true) = Some (VInt 200)
  ∧ response_body (response_of data true) = Some (VStr (json_dumps data)).
Proof. split; reflexivity. Qed.

Lemma status_code_invalid_request_format :
  status_code invalid_request_format = Some (VInt 400).
Proof. reflexivity. Qed.

Lemma extract_parameters_direct state bucket :
  extract_parameters (direct_event state bucket)
  = Ok (inr (VStr state, VStr bucket)).
Proof. reflexivity. Qed.

Lemma extract_parameters_args (state bucket : pyval) :
  extract_parameters (args_event state bucket) = Ok (inr (state, bucket)).
Proof. reflexivity. Qed.

(** Where the parameters are extracted, the event is a dict and
    ['body' in event] is evaluated without an exception. *)
Lemma extract_parameters_py_in event r :
  extract_parameters event = Ok r →
  py_in "body" event = Ok (is_api_gateway_event event).
Proof.
  unfold extract_parameters. destruct event; simpl; try done.
Qed.

Lemma truthy_VStr state : truthy (VStr state) = true ↔ state ≠ EmptyString.
Proof.
  simpl. destruct (String.eqb_spec state EmptyString); simpl; split; congruence.
Qed.

(** A request for one of the six partitions of a state passes the
    validation. *)
Lemma parse_and_validate_valid event (st : pyval) bucket :
  extract_parameters event = Ok (inr (st, VStr bucket)) →
  truthy st = true →
  bucket ∈ own_identifiers ++ supplementary_identifiers →
  parse_and_validate event = Ok (Proceed st bucket).
Proof.
  intros Hex Hst Hin. unfold parse_and_validate.
  rewrite Hex. cbn [Py.bind]. rewrite Hst.
  unfold own_identifiers, supplementary_identifiers in Hin. simpl in Hin.
  repeat (apply elem_of_cons in Hin as [->|Hin]; [reflexivity|]).
  by apply elem_of_nil in Hin.
Qed.

Lemma startswith_app (prefix s : string) : startswith (prefix +:+ s) prefix = true.
Proof.
  unfold startswith. induction prefix as [|c prefix IH]; simpl.
  - by destruct s.
  - by destruct (ascii_dec c c).
Qed.

Lemma slice_from_app (prefix s : string) :
  slice_from (String.length prefix) (prefix +:+ s) = s.
Proof. induction prefix as [|c prefix IH]; simpl; [by destruct s|done]. Qed.

Lemma validate_bucket_number_own event suffix n is_api_gateway :
  py_in "body" event = Ok is_api_gateway →
  int suffix = Some n → n < 1 ∨ 4 < n →
  validate_bucket_number event ("stateBucket" +:+ suffix)
  = Ok (Some (response_of
      (error_object "For state buckets, number must be between 1 and 4")
      is_api_gateway)).
Proof.
  intros Hin Hint Hrange. unfold validate_bucket_number.
  rewrite startswith_app, slice_from_app, Hint, Hin.
  cbn [Py.bind]. rewrite format_response_error_object.
  destruct Hrange.
  - by rewrite bool_decide_eq_true_2.
  - rewrite (bool_decide_eq_true_2 (n > 4)) by lia. by rewrite orb_true_r.
Qed.

Lemma validate_bucket_number_supplementary event suffix n is_api_gateway :
  py_in "body" event = Ok is_api_gateway →
  int suffix = Some n → n < 1 ∨ 2 < n →
  validate_bucket_number event ("otherNamesBucket" +:+ suffix)
  = Ok (Some (response_of
      (error_object "For other names buckets, number must be between 1 and 2")
      is_api_gateway)).
Proof.
  intros Hin Hint Hrange. unfold validate_bucket_number.
  replace (startswith ("otherNamesBucket" +:+ suffix) "stateBucket")
    with false by reflexivity.
  rewrite startswith_app, slice_from_app, Hint, Hin.
  cbn [Py.bind]. rewrite format_response_error_object.
  destruct Hrange.
  - by rewrite bool_decide_eq_true_2.
  - rewrite (bool_decide_eq_true_2 (n > 2)) by lia. by rewrite orb_true_r.
Qed.

(** A request for an own partition whose number is not one of 1..4. *)
Lemma parse_and_validate_own_range event (st : pyval) suffix n :
  extract_parameters event
  = Ok (inr (st, VStr ("stateBucket" +:+ suffix))) →
  truthy st = true → int suffix = Some n → n < 1 ∨ 4 < n →
  parse_and_validate event
  = Ok (Return (response_of
      (error_object "For state buckets, number must be between 1 and 4")
      (is_api_gateway_event event))).
Proof.
  intros Hex Hst Hint Hrange. unfold parse_and_validate.
  rewrite Hex. cbn [Py.bind]. rewrite Hst.
  replace (truthy (VStr ("stateBucket" +:+ suffix))) with true by reflexivity.
  cbn [negb orb existsb]. rewrite startswith_app. cbn [negb orb].
  by rewrite (validate_bucket_number_own _ _ n (is_api_gateway_event event)
                (extract_parameters_py_in _ _ Hex) Hint Hrange).
Qed.

(** A request for a supplementary partition whose number is not 1 or 2. *)
Lemma parse_and_validate_supplementary_range event (st : pyval) suffix n :
  extract_parameters event
  = Ok (inr (st, VStr ("otherNamesBucket" +:+ suffix))) →
  truthy st = true → int suffix = Some n → n < 1 ∨ 2 < n →
  parse_and_validate event
  = Ok (Return (response_of
      (error_object "For other names buckets, number must be between 1 and 2")
      (is_api_gateway_event event))).
Proof.
  intros Hex Hst Hint Hrange. unfold parse_and_validate.
  rewrite Hex. cbn [Py.bind]. rewrite Hst.
  replace (truthy (VStr ("otherNamesBucket" +:+ suffix))) with true
    by reflexivity.
  cbn [negb orb existsb]. rewrite startswith_app, orb_true_r. cbn [negb].
  by rewrite (validate_bucket_number_supplementary _ _ n
                (is_api_gateway_event event)
                (extract_parameters_py_in _ _ Hex) Hint Hrange).
Qed.

Lemma get_item_state db state :
  state ≠ EmptyString → fault db = None →
  get_item db (VStr state) = Ok (deserialize_item <$> StateNames db !! state).
Proof. intros Hne Hf. unfold get_item. simpl. rewrite Hf. by destruct state. Qed.

(** The deployed handler on a request that passes the validation, over a
    table that answers: it formats the stored value as boto3 returns it,
    or the empty list. *)
Lemma lambda_handler_lookup db event state bucket :
  parse_and_validate event = Ok (Proceed (VStr state) bucket) →
  state ≠ EmptyString → fault db = None →
  lambda_handler db event
  = (format_response
       (default (VList [])
          (deserialize <$> (StateNames db !! state ≫= (.!! bucket))))
       (is_api_gateway_event event),
     [GetItem (VStr state)]).
Proof.
  intros Hv Hne Hf. unfold lambda_handler. rewrite Hv, get_item_state by done.
  destruct (StateNames db !! state) as [it|]; simpl; [|done].
  unfold deserialize_item. rewrite lookup_fmap.
  by destruct (it !! bucket).
Qed.

(** The deployed handler returns what the loader stored for each own
    partition. *)
Lemma lambda_handler_round_trip db db' state name_buckets unique total other
    event (n : nat) bucket :
  write_to_dynamodb db state name_buckets unique total other = Ok db' →
  own_identifiers !! n = Some bucket →
  extract_parameters event = Ok (inr (VStr state, VStr bucket)) →
  ∃ names,
    name_buckets !! n = Some names
    ∧ lambda_handler db' event
      = (Ok (response_of (names_value names) (is_api_gateway_event event)),
         [GetItem (VStr state)]).
Proof.
  intros (it & Hit & Hne & Hf & ->)%write_to_dynamodb_Ok Hn Hex.
  destruct (prepare_item_lookup _ _ _ _ _ _ Hit) as (_ & Hown & _).
  destruct (Hown n bucket Hn) as (names & Hnames & Hlookup).
  exists names. split; [done|].
  rewrite (lambda_handler_lookup _ _ state bucket); [|
    apply parse_and_validate_valid; [done|by apply truthy_VStr|];
    apply elem_of_app; left; by eapply list_elem_of_lookup_2 |done|done].
  cbn [StateNames]. rewrite lookup_insert_eq. cbn [mbind option_bind].
  rewrite Hlookup. cbn [fmap option_fmap option_map default].
  by rewrite deserialize_names_value,
    (format_response_Ok _ _ (json_error_names_value names)).
Qed.

Lemma py_getitem_bucket_number_event_state state (n : Z) :
  py_getitem (bucket_number_event state n) "state" = Ok (VStr state).
Proof. reflexivity. Qed.

Lemma py_getitem_bucket_number_event_number state (n : Z) :
  py_getitem (bucket_number_event state n) "bucketNumber" = Ok (VInt n).
Proof. reflexivity. Qed.

(** The older handler finds none of the partitions that the loader
    stored: it reads the key [nameBucket<n>]. *)
Lemma get_state_names_lambda_handler_after_write db db' state name_buckets
    unique total other (n : Z) :
  write_to_dynamodb db state name_buckets unique total other = Ok db' →
  1 ≤ n ≤ 5 →
  get_state_names_lambda.lambda_handler db' (bucket_number_event state n)
  = (Ok (VList []), [GetItem (VStr state)]).
Proof.
  intros (it & Hit & Hne & Hf & ->)%write_to_dynamodb_Ok Hn.
  destruct (prepare_item_lookup _ _ _ _ _ _ Hit) as (_ & _ & Hnone).
  unfold get_state_names_lambda.lambda_handler.
  rewrite py_getitem_bucket_number_event_state,
    py_getitem_bucket_number_event_number.
  cbn [Py.bind get_state_names_lambda.as_int]. rewrite !bool_decide_eq_false_2 by lia.
  cbn [orb]. rewrite get_item_state by done. cbn [StateNames].
  rewrite lookup_insert_eq. cbn [fmap option_fmap option_map].
  unfold deserialize_item. rewrite lookup_fmap.
  by rewrite Hnone by apply (startswith_app "nameBucket").
Qed.

(** The older handler takes the number five for a valid one and goes
    to the table. *)
Lemma get_state_names_lambda_handler_five db state :
  state ≠ EmptyString → fault db = None →
  ∃ names,
    get_state_names_lambda.lambda_handler db (bucket_number_event state 5)
    = (Ok names, [GetItem (VStr state)])
    ∧ names = default (VList [])
                (deserialize <$> (StateNames db !! state ≫= (.!! "nameBucket5"))).
Proof.
  intros Hne Hf. unfold get_state_names_lambda.lambda_handler.
  rewrite py_getitem_bucket_number_event_state,
    py_getitem_bucket_number_event_number.
  cbn [Py.bind get_state_names_lambda.as_int orb]. rewrite !bool_decide_eq_false_2 by lia.
  cbn [orb]. rewrite get_item_state by done.
  destruct (StateNames db !! state) as [it|]; simpl; [|eauto].
  unfold deserialize_item. rewrite lookup_fmap.
  destruct (it !! _); eauto.
Qed.

(** How the [try] block can end with a [return]. *)
Lemma parse_and_validate_Return event response :
  parse_and_validate event = Ok (Return response) →
  (response = invalid_request_format
   ∧ ∃ body, request_body event = Ok body ∧ args_shape body = Ok false
             ∧ transcript_shape body = Ok false)
  ∨ ∃ msg, response = response_of (error_object msg) (is_api_gateway_event event).
Proof.
  unfold parse_and_validate.
  destruct (extract_parameters event) as [[r|[st bk]]|] eqn:Hex; simpl; [| |done].
  - intros [= <-]. left.
    unfold extract_parameters in Hex.
    destruct (if is_dict event then _ else _) as [[|]|]; simpl in Hex;
      [| |done].
    + destruct (request_body event) as [body|]; simpl in Hex; [|done].
      destruct (args_shape body) as [[|]|] eqn:Ha; simpl in Hex; [| |done].
      { destruct (py_getitem body "args") as [a|]; simpl in Hex; [|done].
        destruct (py_get a "state"); simpl in Hex; [|done].
        destruct (py_get a "bucket"); simpl in Hex; done. }
      destruct (transcript_shape body) as [[|]|] eqn:Ht; simpl in Hex; [| |done].
      { destruct (py_getitem body "call") as [c|]; simpl in Hex; [|done].
        destruct (py_getitem c _) as [t|]; simpl in Hex; [|done].
        destruct (py_iter t) as [l|]; simpl in Hex; [|done].
        destruct (first_tool_call l); simpl in Hex; done. }
      injection Hex; clear Hex; intros Hex; subst r. eauto.
    + destruct (py_get event "state"); simpl in Hex; [|done].
      destruct (py_get event "bucket"); simpl in Hex; done.
  - rewrite (extract_parameters_py_in _ _ Hex). cbn [Py.bind].
    rewrite !format_response_error_object. cbn [Py.bind]. intros Hr. right.
    destruct (negb (truthy st) || negb (truthy bk)); simpl in Hr.
    { injection Hr; clear Hr; intros Hr; subst response. eauto. }
    destruct bk as [| | | |bucket| | |]; try done.
    destruct (negb _); simpl in Hr.
    { injection Hr; clear Hr; intros Hr; subst response. eauto. }
    unfold validate_bucket_number in Hr.
    rewrite (extract_parameters_py_in _ _ Hex) in Hr. cbn [Py.bind] in Hr.
    rewrite !format_response_error_object in Hr. cbn [Py.bind] in Hr.
    repeat (case_match; simpl in Hr; try done);
      injection Hr; clear Hr; intros Hr; subst response; eauto.
Qed.

(** A body of neither shape gets the response with status 400. *)
Lemma lambda_handler_invalid_format db event body :
  is_api_gateway_event event = true →
  request_body event = Ok body → args_shape body = Ok false →
  transcript_shape body = Ok false →
  lambda_handler db event = (Ok invalid_request_format, []).
Proof.
  intros Hapi Hb Ha Ht. unfold lambda_handler, parse_and_validate.
  unfold extract_parameters. destruct event; try done. simpl in Hapi |- *.
  rewrite Hapi. simpl. rewrite Hb. simpl. rewrite Ha. simpl. by rewrite Ht.
Qed.

(** When an exception leaves the deployed handler: the request has
    passed the validation, and either the call to the table raises an
    exception that is not a [ClientError], or the event is an API Gateway
    event and [json.dumps] raises on the value read from the table. *)
Lemma lambda_handler_Raise db event e :
  (lambda_handler db event).1 = Raise e
  ↔ ∃ (st : pyval) bucket,
      parse_and_validate event = Ok (Proceed st bucket)
      ∧ ((get_item db st = Raise e ∧ ∀ msg, e ≠ ClientError msg)
         ∨ (is_api_gateway_event event = true
            ∧ ∃ it v, get_item db st = Ok (Some it) ∧ it !! bucket = Some v
                      ∧ json_error v = Some e)).
Proof.
  unfold lambda_handler.
  destruct (parse_and_validate event) as [[response|st bucket]|e'] eqn:Hv;
    cbn [fst].
  - split; [done|]. by intros (? & ? & ? & _).
  - split.
    + intros Hr. exists st, bucket. split; [done|].
      destruct (get_item db st) as [[it|]|e0] eqn:Hget.
      * destruct (it !! bucket) as [v|] eqn:Hb.
        -- apply format_response_Raise in Hr as [Hapi Hje]. right. eauto 10.
        -- by apply format_response_Raise in Hr as [_ ?].
      * by apply format_response_Raise in Hr as [_ ?].
      * destruct e0; try (injection Hr as <-; left; split; [done|by intros ?]).
        rewrite format_response_error_object in Hr. done.
    + intros (st' & bucket' & [= <- <-] & [[Hget Hne]|(Hapi & it & v & Hget & Hb & Hje)]).
      * rewrite Hget. destruct e; try done. by destruct (Hne msg).
      * rewrite Hget, Hb. apply format_response_Raise. done.
  - rewrite format_response_error_object. split; [done|].
    by intros (? & ? & ? & _).
Qed.

(** Every response of the deployed handler on an API Gateway event. *)
Lemma lambda_handler_api_gateway db event response :
  is_api_gateway_event event = true →
  (lambda_handler db event).1 = Ok response →
  (∃ data, json_error data = None ∧ response = response_of data true)
  ∨ (response = invalid_request_format
     ∧ ∃ body, request_body event = Ok body ∧ args_shape body = Ok false
               ∧ transcript_shape body = Ok false).
Proof.
  intros Hapi. unfold lambda_handler.
  assert (Hfmt : ∀ data,
    format_response data (is_api_gateway_event event) = Ok response →
    ∃ data, json_error data = None ∧ response = response_of data true).
  { intros data Hr. rewrite Hapi in Hr. unfold format_response, dumps in Hr.
    destruct (json_error data) eqn:Hje; [done|]. simpl in Hr.
    injection Hr as <-. by exists data. }
  destruct (parse_and_validate event) as [[r|state bucket]|e] eqn:Hv;
    cbn [fst].
  - intros [= ->]. apply parse_and_validate_Return in Hv as [?|[msg ->]];
      [by right|]. left. rewrite Hapi. exists (error_object msg).
    split; [apply json_error_error_object|done].
  - destruct (get_item db state) as [[it|]|e]; [| |destruct e; try done].
    + destruct (it !! bucket); intros Hr; left; by eapply Hfmt.
    + intros Hr; left; by eapply Hfmt.
    + intros Hr; left; by eapply Hfmt.
  - intros Hr; left; by eapply Hfmt.
Qed.

(** A request that passes the validation has a state that is true. *)
Lemma parse_and_validate_Proceed_truthy event (st : pyval) bucket :
  parse_and_validate event = Ok (Proceed st bucket) → truthy st = true.
Proof.
  unfold parse_and_validate. intros Hv.
  destruct (extract_parameters event) as [[r|[st' bk]]|]; simpl in Hv;
    try done.
  destruct (truthy st') eqn:Hst; simpl in Hv.
  2:{ destruct (py_in "body" event); simpl in Hv; [|done].
      by destruct (format_response _ _). }
  destruct (truthy bk); simpl in Hv.
  2:{ destruct (py_in "body" event); simpl in Hv; [|done].
      by destruct (format_response _ _). }
  destruct bk; try done.
  destruct (startswith _ _ || _); simpl in Hv.
  2:{ destruct (py_in "body" event); simpl in Hv; [|done].
      by destruct (format_response _ _). }
  destruct (validate_bucket_number _ _) as [[r|]|]; simpl in Hv; try done.
  inversion Hv; by subst.
Qed.

(** The deployed handler rejects an own partition whose number is not
    one of 1..4, and a supplementary partition whose number is not 1 or
    2, without a call to the table. *)
Lemma lambda_handler_rejects_out_of_range db event (st : pyval) suffix n :
  truthy st = true → int suffix = Some n →
  (extract_parameters event
   = Ok (inr (st, VStr ("stateBucket" +:+ suffix))) →
   n < 1 ∨ 4 < n →
   lambda_handler db event
   = (Ok (response_of
            (error_object "For state buckets, number must be between 1 and 4")
            (is_api_gateway_event event)), []))
  ∧ (extract_parameters event
     = Ok (inr (st, VStr ("otherNamesBucket" +:+ suffix))) →
     n < 1 ∨ 2 < n →
     lambda_handler db event
     = (Ok (response_of
              (error_object
                 "For other names buckets, number must be between 1 and 2")
              (is_api_gateway_event event)), [])).
Proof.
  intros Hst Hint. split; intros Hex Hrange; unfold lambda_handler.
  - by rewrite (parse_and_validate_own_range _ _ _ _ Hex Hst Hint Hrange).
  - by rewrite (parse_and_validate_supplementary_range _ _ _ _ Hex Hst Hint Hrange).
Qed.

End lookup.

(** C1: after [write_to_dynamodb] has stored partitions for OH, the older
    handler of [get_state_names_lambda.py] answers a request for
    partition 1 with the empty list, because it reads the key
    [nameBucket1], while the deployed handler of [lambda_function.py]
    returns the names stored under [stateBucket1], in their order. *)
Theorem older_handler_reads_another_key `{Runtime} :
  ∃ db',
    write_to_dynamodb empty_table "OH" [["James"; "Mary"]; ["Linda"]; []; []]
      3 30 None = Ok db'
    ∧ get_state_names_lambda.lambda_handler db' (bucket_number_event "OH" 1)
      = (Ok (VList []), [GetItem (VStr "OH")])
    ∧ lambda_handler db' (direct_event "OH" "stateBucket1")
      = (Ok (names_value ["James"; "Mary"]), [GetItem (VStr "OH")]).
Proof.
  eexists. split; [reflexivity|]. split; reflexivity.
Qed.

(** C6: for every state, the deployed handler of [lambda_function.py]
    answers a request for an own partition whose number is outside 1..4,
    and a request for a supplementary partition whose number is outside
    1..2, with the range error of the family (in the envelope, for an API
    Gateway event) and makes no call to the table.  The older handler of
    [get_state_names_lambda.py], whose range is 1..5, answers a number
    outside it with its range error and makes no call either. *)
Theorem out_of_range_ordinals_are_rejected `{Runtime} (db : dynamodb)
    (event : pyval) (state suffix : string) (n : Z) :
  state ≠ EmptyString → int suffix = Some n →
  (extract_parameters event
   = Ok (inr (VStr state, VStr ("stateBucket" +:+ suffix))) →
   n < 1 ∨ 4 < n →
   lambda_handler db event
   = (Ok (response_of
            (error_object "For state buckets, number must be between 1 and 4")
            (is_api_gateway_event event)), []))
  ∧ (extract_parameters event
     = Ok (inr (VStr state, VStr ("otherNamesBucket" +:+ suffix))) →
     n < 1 ∨ 2 < n →
     lambda_handler db event
     = (Ok (response_of
              (error_object
                 "For other names buckets, number must be between 1 and 2")
              (is_api_gateway_event event)), []))
  ∧ (n < 1 ∨ 5 < n →
     get_state_names_lambda.lambda_handler db (bucket_number_event state n)
     = (Ok (error_object "bucketNumber must be an integer between 1 and 5"),
        [])).
Proof.
  intros Hne%truthy_VStr Hint.
  destruct (lambda_handler_rejects_out_of_range db event (VStr state) suffix n
              Hne Hint) as [Hown Hother].
  split; [done|]. split; [done|].
  intros Hrange. unfold get_state_names_lambda.lambda_handler.
  rewrite py_getitem_bucket_number_event_state,
    py_getitem_bucket_number_event_number.
  cbn [Py.bind get_state_names_lambda.as_int].
  destruct Hrange.
  - by rewrite bool_decide_eq_true_2.
  - rewrite (bool_decide_eq_true_2 (n > 5)) by lia. by rewrite orb_true_r.
Qed.

(** The older handler takes the partition number 5 for a valid one and
    reads the table, while the deployed handler answers [stateBucket5]
    and [otherNamesBucket3] with the range error of the family and makes
    no call to the table. *)
Example older_handler_accepts_bucket_five `{Runtime} :
  get_state_names_lambda.lambda_handler empty_table (bucket_number_event "OH" 5)
  = (Ok (VList []), [GetItem (VStr "OH")])
  ∧ lambda_handler empty_table (direct_event "OH" "stateBucket5")
    = (Ok (error_object "For state buckets, number must be between 1 and 4"),
       [])
  ∧ lambda_handler empty_table (direct_event "OH" "otherNamesBucket3")
    = (Ok (error_object
             "For other names buckets, number must be between 1 and 2"), []).
Proof. repeat split; reflexivity. Qed.

(** C7: for a request that passes the validation with a state code, over
    a table that answers, the deployed handler returns the empty list (in
    the envelope, for an API Gateway event) when the table holds no
    record for the state, and when the record holds nothing under the
    requested partition. *)
Theorem missing_data_resolves_to_empty `{Runtime} (db : dynamodb)
    (event : pyval) (state bucket : string) :
  parse_and_validate event = Ok (Proceed (VStr state) bucket) →
  fault db = None →
  StateNames db !! state = None
  ∨ (∃ it, StateNames db !! state = Some it ∧ it !! bucket = None) →
  lambda_handler db event
  = (Ok (response_of (VList []) (is_api_gateway_event event)),
     [GetItem (VStr state)]).
Proof.
  intros Hv Hf Hmissing.
  assert (Hne : state ≠ EmptyString).
  { apply truthy_VStr. by eapply parse_and_validate_Proceed_truthy. }
  rewrite (lambda_handler_lookup db event state bucket Hv Hne Hf).
  assert (Hempty : ∀ b, format_response (VList []) b
                        = Ok (response_of (VList []) b)).
  { intros b. by apply format_response_Ok. }
  destruct Hmissing as [->|(it & -> & Hb)]; simpl; [by rewrite Hempty|].
  rewrite Hb. simpl. by rewrite Hempty.
Qed.

(** C9: on an event that is a dict with a [body] entry, every response
    of the deployed handler is the envelope that [format_response]
    builds, with status 200 and the encoded data (list or error object)
    as its body, except the response with status 400, which is returned
    only for a body of neither shape, and always for such a body.  The
    errors of the validation and of the table are among the former: a
    request without a state or a bucket, a bucket of neither family, a
    number out of the range of the family, and a [ClientError] of the
    table each get the envelope with status 200 around the error
    object. *)
Theorem api_gateway_responses_carry_status_200 `{Runtime} (db : dynamodb)
    (event : pyval) :
  is_api_gateway_event event = true →
  (∀ response, (lambda_handler db event).1 = Ok response →
     (∃ data, json_error data = None
              ∧ response = response_of data true
              ∧ status_code response = Some (VInt 200)
              ∧ response_body response = Some (VStr (json_dumps data)))
     ∨ (response = invalid_request_format
        ∧ status_code response = Some (VInt 400)
        ∧ ∃ body, request_body event = Ok body ∧ args_shape body = Ok false
                  ∧ transcript_shape body = Ok false))
  ∧ (∀ body, request_body event = Ok body → args_shape body = Ok false →
             transcript_shape body = Ok false →
             lambda_handler db event = (Ok invalid_request_format, []))
  ∧ (∀ (st bk : pyval),
       extract_parameters event = Ok (inr (st, bk)) →
       (truthy st = false ∨ truthy bk = false →
        lambda_handler db event
        = (Ok (response_of
                 (error_object "Missing required parameters: state and bucket")
                 true), []))
       ∧ (∀ bucket, truthy st = true → bk = VStr bucket →
            bucket ≠ EmptyString →
            startswith bucket "stateBucket" = false →
            startswith bucket "otherNamesBucket" = false →
            lambda_handler db event
            = (Ok (response_of
                     (error_object
                        "bucket must start with 'stateBucket' or 'otherNamesBucket'")
                     true), []))
       ∧ (∀ suffix n, truthy st = true → int suffix = Some n →
            (bk = VStr ("stateBucket" +:+ suffix) ∧ (n < 1 ∨ 4 < n) →
             lambda_handler db event
             = (Ok (response_of
                      (error_object
                         "For state buckets, number must be between 1 and 4")
                      true), []))
            ∧ (bk = VStr ("otherNamesBucket" +:+ suffix) ∧ (n < 1 ∨ 2 < n) →
               lambda_handler db event
               = (Ok (response_of
                        (error_object
                           "For other names buckets, number must be between 1 and 2")
                        true), [])))
       ∧ (∀ bucket msg, truthy st = true → unserializable st = false →
            bk = VStr bucket →
            bucket ∈ own_identifiers ++ supplementary_identifiers →
            fault db = Some (ClientError msg) →
            lambda_handler db event
            = (Ok (response_of (error_object (str_exn (ClientError msg))) true),
               [GetItem st]))).
Proof.
  intros Hapi. split_and?.
  - intros response Hr.
    destruct (lambda_handler_api_gateway db event response Hapi Hr)
      as [(data & Hje & ->)|[-> Hneither]].
    + left. exists data. split; [done|]. split; [done|].
      apply status_code_response_of.
    + right. split; [done|]. split; [|done].
      apply status_code_invalid_request_format.
  - intros body. by apply lambda_handler_invalid_format.
  - intros st bk Hex.
    pose proof (extract_parameters_py_in _ _ Hex) as Hin.
    rewrite Hapi in Hin. split_and?.
    + intros Hfalse. unfold lambda_handler, parse_and_validate.
      rewrite Hex, Hin. cbn [Py.bind].
      rewrite format_response_error_object. cbn [Py.bind].
      by destruct Hfalse as [-> | ->]; [|rewrite orb_true_r].
    + intros bucket Hst -> Hne%truthy_VStr Hown Hother.
      unfold lambda_handler, parse_and_validate.
      rewrite Hex, Hin. cbn [Py.bind]. rewrite Hst, Hne.
      cbn [negb orb existsb]. rewrite Hown, Hother. cbn [negb orb Py.bind].
      by rewrite format_response_error_object.
    + intros suffix n Hst Hint.
      pose proof (lambda_handler_rejects_out_of_range db event st suffix n
                    Hst Hint) as [Hown Hother].
      rewrite Hapi in Hown, Hother.
      split; intros [-> Hrange]; [by apply Hown|by apply Hother].
    + intros bucket msg Hst Hser -> Hbucket Hfault.
      unfold lambda_handler.
      rewrite (parse_and_validate_valid _ _ _ Hex Hst Hbucket).
      unfold get_item. rewrite Hser, Hfault, Hapi.
      by rewrite format_response_error_object.
Qed.

Example create_name_buckets_ex1 :
  create_name_buckets [("Amy", 9); ("Bo", 7); ("Cy", 5); ("Di", 1)] 15 2
  = Ok [["Amy"; "Bo"]; ["Cy"; "Di"]].
Proof. reflexivity. Qed.

Example create_name_buckets_ex2 :
  create_name_buckets [("Amy", 9); ("Bo", 7); ("Cy", 5); ("Di", 1)] 9 2
  = Ok [["Amy"]; ["Bo"]].
Proof. reflexivity. Qed.

Example analyze_names_ex1 :
  analyze_names ["OH,F,1960,Mary,10"; "OH,M,1960,John,12"; "bad line";
                 "OH,F,1954,Mary,5"; "OH,F,1961,Mary,x"; "OH,F,1961,Mary,7
";
                 "OH,F,2010, Ann,12"; "OH,F,2011,Ann,1"]
  = ([("Mary", 17); ("John", 12); (" Ann", 12)], 41).
Proof. reflexivity. Qed.

Example int_ex :
  int " 1_000 " = Some 1000 ∧ int "-12" = Some (-12) ∧ int "+ 1" = None
  ∧ int "1__0" = None ∧ int "" = None ∧ int "12a" = None.
Proof. repeat split; reflexivity. Qed.

Lemma skipped_line_ex_fields : skipped_line "bad line".
Proof. apply skipped_field_count. vm_compute. discriminate. Qed.

Lemma analyze_names_sum_consistent_witness :
  let file := ["OH,F,1960,Mary,10"; "OH,F,1954,Mary,5"; "OH,M,1960,John,12";
               "OH,F,1961,Mary,7"] in
  (file = ["OH,F,1960,Mary,10"] ++ "OH,F,1954,Mary,5"
            :: ["OH,M,1960,John,12"; "OH,F,1961,Mary,7"]
   ∧ skipped_line "OH,F,1954,Mary,5")
  ∧ (sum_counts (analyze_names file).1 = (analyze_names file).2
     ∧ NoDup (analyze_names file).1.*1
     ∧ StronglySorted count_ge (analyze_names file).1)
  ∧ analyze_names file
    = analyze_names (["OH,F,1960,Mary,10"]
                     ++ ["OH,M,1960,John,12"; "OH,F,1961,Mary,7"])
  ∧ (analyze_names file).2 = 29
  ∧ (("Mary", 17) ∈ (analyze_names file).1
     ↔ "Mary" ∈ ["Mary"; "John"; "Mary"]
       ∧ 17 = total_for "Mary" [("Mary", 10); ("John", 12); ("Mary", 7)]).
Proof.
  intros file.
  assert (Hskip : skipped_line "OH,F,1954,Mary,5").
  { eapply (skipped_window _ "OH" "F" "1954" "Mary" "5" 1954);
      [reflexivity|reflexivity|lia]. }
  pose proof (analyze_names_sum_consistent file) as (H1 & H2 & _ & H4 & H5).
  split; [split; [reflexivity|exact Hskip]|]. split; [exact H1|].
  split.
  { exact (H2 ["OH,F,1960,Mary,10"] "OH,F,1954,Mary,5"
             ["OH,M,1960,John,12"; "OH,F,1961,Mary,7"] eq_refl Hskip). }
  split; [exact H4|]. exact (H5 "Mary" 17).
Defined.

Example process_state_file_ex :
  match process_state_file empty_table "data/states/OH.TXT"
          ["OH,M,1960,John,12"; "OH,F,1960,Mary,10"] (Some ["Yuki"; "John"])
          None with
  | Ok db' =>
      dom (StateNames db') = {["OH"]}
      ∧ (StateNames db' !! "OH" ≫= (.!! "stateBucket1"))
        = Some (names_value ["John"; "Mary"])
      ∧ (StateNames db' !! "OH" ≫= (.!! "stateBucket2"))
        = Some (names_value [])
      ∧ (StateNames db' !! "OH" ≫= (.!! "stateBucket1Count")) = Some (VInt 2)
      ∧ (StateNames db' !! "OH" ≫= (.!! "uniqueNamesCount")) = Some (VInt 2)
      ∧ (StateNames db' !! "OH" ≫= (.!! "totalNameCount")) = Some (VInt 22)
      ∧ (StateNames db' !! "OH" ≫= (.!! "otherNamesBucket1"))
        = Some (names_value ["Yuki"])
      ∧ (StateNames db' !! "OH" ≫= (.!! "otherNamesBucket2"))
        = Some (names_value [])
  | Raise _ => False
  end.
Proof. vm_compute. repeat split. Qed.

Lemma publish_idempotent_witness :
  ∃ db1,
    process_state_file empty_table "data/states/OH.TXT"
      ["OH,M,1960,John,12"; "OH,F,1960,Mary,10"] (Some ["Yuki"; "John"]) None
    = Ok db1
    ∧ (process_state_file db1 "data/states/OH.TXT"
         ["OH,M,1960,John,12"; "OH,F,1960,Mary,10"] (Some ["Yuki"; "John"]) None
       = Ok db1
       ∧ ∃ it, computed_item "data/states/OH.TXT"
                 ["OH,M,1960,John,12"; "OH,F,1960,Mary,10"]
                 (Some ["Yuki"; "John"]) = Ok it
               ∧ StateNames db1
                 = <[state_of_path "data/states/OH.TXT" := it]>
                     (StateNames empty_table)).
Proof.
  destruct (process_state_file_returns empty_table "data/states/OH.TXT"
              ["OH,M,1960,John,12"; "OH,F,1960,Mary,10"]
              (Some ["Yuki"; "John"]) None) as [db1 H1];
    [vm_compute; discriminate|reflexivity|vm_compute; reflexivity|].
  exists db1. split; [exact H1|].
  exact (publish_idempotent _ _ _ _ _ None None H1).
Defined.

Lemma supplementary_buckets_ignore_the_table_witness :
  let db2 := {| StateNames := {[ "OH" := {[ "stateBucket1" := names_value ["Yuki"] ]} ]};
                fault := None |} in
  let file := ["OH,M,1960,John,12"; "OH,F,1960,Mary,10"] in
  ∃ db1' db2',
    process_state_file empty_table "OH.TXT" file (Some ["Yuki"; "John"]) None
    = Ok db1'
    ∧ process_state_file db2 "OH.TXT" file (Some ["Yuki"; "John"])
        (Some {["Mary"]}) = Ok db2'
    ∧ ∃ it,
        StateNames db1' !! state_of_path "OH.TXT" = Some it
        ∧ StateNames db2' !! state_of_path "OH.TXT" = Some it
        ∧ ∃ name_buckets o1 o2,
            create_name_buckets (analyze_names file).1 3950 4 = Ok name_buckets
            ∧ create_international_name_buckets ["Yuki"; "John"]
                (state_names_of name_buckets) 3950 2 = Ok [o1; o2]
            ∧ it !! "otherNamesBucket1" = Some (names_value o1)
            ∧ it !! "otherNamesBucket2" = Some (names_value o2).
Proof.
  intros db2 file.
  destruct (process_state_file_returns empty_table "OH.TXT" file
              (Some ["Yuki"; "John"]) None) as [db1' H1];
    [vm_compute; discriminate|reflexivity|vm_compute; reflexivity|].
  destruct (process_state_file_returns db2 "OH.TXT" file
              (Some ["Yuki"; "John"]) (Some {["Mary"]})) as [db2' H2];
    [vm_compute; discriminate|reflexivity|vm_compute; reflexivity|].
  exists db1', db2'. split; [exact H1|]. split; [exact H2|].
  exact (supplementary_buckets_ignore_the_table _ _ _ _ _ _ _ _ _ H1 H2).
Defined.

Lemma missing_data_resolves_to_empty_witness :
  let db := {| StateNames := {[ "OH" := {[ "stateBucket1" := names_value ["James"] ]} ]};
               fault := None |} in
  (parse_and_validate (H := example_runtime) (direct_event "OH" "otherNamesBucket1")
   = Ok (Proceed (VStr "OH") "otherNamesBucket1")
   ∧ fault db = None
   ∧ (StateNames db !! "OH" = None
      ∨ (∃ it, StateNames db !! "OH" = Some it
               ∧ it !! "otherNamesBucket1" = None)))
  ∧ lambda_handler (H := example_runtime) db
      (direct_event "OH" "otherNamesBucket1")
    = (Ok (VList []), [GetItem (VStr "OH")]).
Proof.
  intros db.
  assert (H1 : parse_and_validate (H := example_runtime)
                 (direct_event "OH" "otherNamesBucket1")
               = Ok (Proceed (VStr "OH") "otherNamesBucket1")) by reflexivity.
  assert (H2 : fault db = None) by reflexivity.
  assert (H3 : StateNames db !! "OH" = None
               ∨ (∃ it, StateNames db !! "OH" = Some it
                        ∧ it !! "otherNamesBucket1" = None)).
  { right. eexists. split; reflexivity. }
  split; [done|].
  exact (missing_data_resolves_to_empty (H := example_runtime) db _ _ _ H1 H2 H3).
Defined.

Example never_published_state :
  lambda_handler (H := example_runtime) empty_table
    (direct_event "ZZ" "stateBucket1")
  = (Ok (VList []), [GetItem (VStr "ZZ")]).
Proof. reflexivity. Qed.

Lemma api_gateway_responses_carry_status_200_witness :
  let event := args_event (VStr "OH") (VStr "stateBucket9") in
  let failing := {| StateNames := ∅;
                    fault := Some (ClientError "ResourceNotFoundException") |} in
  is_api_gateway_event event = true
  ∧ lambda_handler (H := example_runtime) empty_table event
    = (Ok (response_of (H := example_runtime)
             (error_object "For state buckets, number must be between 1 and 4")
             true), [])
  ∧ lambda_handler (H := example_runtime) failing
      (args_event (VStr "OH") (VStr "stateBucket1"))
    = (Ok (response_of (H := example_runtime)
             (error_object "ResourceNotFoundException") true),
       [GetItem (VStr "OH")])
  ∧ ∀ response,
      (lambda_handler (H := example_runtime) empty_table event).1 = Ok response →
      (∃ data, json_error data = None
               ∧ response = response_of (H := example_runtime) data true
               ∧ status_code response = Some (VInt 200)
               ∧ response_body response
                 = Some (VStr (json_dumps (Runtime := example_runtime) data)))
      ∨ (response = invalid_request_format (H := example_runtime)
         ∧ status_code response = Some (VInt 400)
         ∧ ∃ body, request_body (H := example_runtime) event = Ok body
                   ∧ args_shape body = Ok false
                   ∧ transcript_shape body = Ok false).
Proof.
  intros event failing.
  assert (Hapi : is_api_gateway_event event = true) by reflexivity.
  assert (Hapi' : is_api_gateway_event
                    (args_event (VStr "OH") (VStr "stateBucket1")) = true)
    by reflexivity.
  assert (Hbucket : "stateBucket1" ∈ own_identifiers ++ supplementary_identifiers)
    by (by repeat constructor).
  pose proof (api_gateway_responses_carry_status_200 (H := example_runtime)
                empty_table event Hapi) as (Hall & _ & Herr).
  pose proof (api_gateway_responses_carry_status_200 (H := example_runtime)
                failing _ Hapi') as (_ & _ & Herr').
  split; [exact Hapi|]. split; [|split; [|exact Hall]].
  - destruct (Herr (VStr "OH") (VStr "stateBucket9") eq_refl)
      as (_ & _ & Hrange & _).
    refine (proj1 (Hrange "9" 9 eq_refl eq_refl) (conj eq_refl _)). lia.
  - destruct (Herr' (VStr "OH") (VStr "stateBucket1") eq_refl)
      as (_ & _ & _ & Hfault).
    exact (Hfault "stateBucket1" "ResourceNotFoundException" eq_refl eq_refl
             eq_refl Hbucket eq_refl).
Defined.

(** The kinds of error on an API Gateway event, in the example runtime:
    each comes back with status 200 and the error object in the body. *)
Example api_gateway_missing_parameters :
  lambda_handler (H := example_runtime) empty_table
    (args_event (VStr "OH") VNone)
  = (Ok (response_of (H := example_runtime)
           (error_object "Missing required parameters: state and bucket")
           true), []).
Proof. reflexivity. Qed.

Example api_gateway_unrecognized_family :
  lambda_handler (H := example_runtime) empty_table
    (args_event (VStr "OH") (VStr "nameBucket1"))
  = (Ok (response_of (H := example_runtime)
           (error_object
              "bucket must start with 'stateBucket' or 'otherNamesBucket'")
           true), []).
Proof. reflexivity. Qed.

Example api_gateway_out_of_range :
  lambda_handler (H := example_runtime) empty_table
    (args_event (VStr "OH") (VStr "otherNamesBucket3"))
  = (Ok (response_of (H := example_runtime)
           (error_object
              "For other names buckets, number must be between 1 and 2")
           true), []).
Proof. reflexivity. Qed.

Example api_gateway_store_failure :
  lambda_handler (H := example_runtime)
    {| StateNames := ∅;
       fault := Some (ClientError "ProvisionedThroughputExceededException") |}
    (args_event (VStr "OH") (VStr "stateBucket1"))
  = (Ok (response_of (H := example_runtime)
           (error_object "ProvisionedThroughputExceededException") true),
     [GetItem (VStr "OH")]).
Proof. reflexivity. Qed.

Example api_gateway_encoded_body :
  lambda_handler (H := example_runtime) empty_table
    (VDict {[ "body" := VStr (example_dumps example_body) ]})
  = (Ok (response_of (H := example_runtime)
           (error_object "For state buckets, number must be between 1 and 4")
           true), []).
Proof. vm_compute. reflexivity. Qed.

Example api_gateway_undecodable_body :
  lambda_handler (H := example_runtime) empty_table
    (VDict {[ "body" := VStr "not json" ]})
  = (Ok (response_of (H := example_runtime)
           (error_object "Error parsing request: JSONDecodeError") true), []).
Proof. vm_compute. reflexivity. Qed.

Example api_gateway_neither_shape :
  lambda_handler (H := example_runtime) empty_table
    (VDict {[ "body" := VDict {[ "name" := VStr "get_names_bucket" ]} ]})
  = (Ok (invalid_request_format (H := example_runtime)), [])
  ∧ status_code (invalid_request_format (H := example_runtime))
    = Some (VInt 400).
Proof. split; reflexivity. Qed.

Example api_gateway_transcript :
  lambda_handler (H := example_runtime) empty_table
    (VDict {[ "body" := VDict {[ "call" := VDict {[
       "transcript_with_tool_calls" :=
         VList [VDict {[ "name" := VStr "other" ]};
                VDict {[ "arguments" := VStr (example_dumps example_arguments) ]}]
     ]} ]} ]})
  = (Ok (response_of (H := example_runtime)
           (error_object "For state buckets, number must be between 1 and 4")
           true), []).
Proof. vm_compute. reflexivity. Qed.

Example float_state_leaves_the_handler :
  lambda_handler (H := example_runtime) empty_table
    (args_event (VFloat 4609434218613702656) (VStr "stateBucket1"))
  = (Raise SerializerError, [GetItem (VFloat 4609434218613702656)]).
Proof. reflexivity. Qed.

Example example_dumps_error :
  example_dumps (names_value ["James"; "Mary"])
  = "[" +:+ quoted "James" +:+ ", " +:+ quoted "Mary" +:+ "]".
Proof. reflexivity. Qed.

Lemma out_of_range_ordinals_are_rejected_witness :
  ("OH" ≠ EmptyString ∧ int "5" = Some 5 ∧ int "3" = Some 3 ∧ int "6" = Some 6)
  ∧ lambda_handler (H := example_runtime) empty_table
      (direct_event "OH" "stateBucket5")
    = (Ok (error_object "For state buckets, number must be between 1 and 4"),
       [])
  ∧ lambda_handler (H := example_runtime) empty_table
      (args_event (VStr "OH") (VStr "otherNamesBucket3"))
    = (Ok (response_of (H := example_runtime)
             (error_object
                "For other names buckets, number must be between 1 and 2")
             true), [])
  ∧ get_state_names_lambda.lambda_handler (H := example_runtime) empty_table
      (bucket_number_event "OH" 6)
    = (Ok (error_object "bucketNumber must be an integer between 1 and 5"), []).
Proof.
  assert (Hne : "OH" ≠ EmptyString) by discriminate.
  split; [by repeat split|]. split; [|split].
  - refine (proj1 (out_of_range_ordinals_are_rejected (H := example_runtime)
                     empty_table (direct_event "OH" "stateBucket5") "OH" "5" 5
                     Hne eq_refl) eq_refl _). lia.
  - refine (proj1 (proj2
              (out_of_range_ordinals_are_rejected (H := example_runtime)
                 empty_table (args_event (VStr "OH") (VStr "otherNamesBucket3"))
                 "OH" "3" 3 Hne eq_refl)) eq_refl _). lia.
  - refine (proj2 (proj2
              (out_of_range_ordinals_are_rejected (H := example_runtime)
                 empty_table (direct_event "OH" "stateBucket6") "OH" "6" 6
                 Hne eq_refl)) _). lia.
Defined.

(** The white space of [int] and of [strip]: a separator (28 to 31)
    before the digits is stripped from a line and refused by [int]; the
    no-break space and the next line control are skipped by both. *)
Example int_white_space :
  int (String (ascii_of_nat 31) "1") = None
  ∧ int (String (ascii_of_nat 28) "1960") = None
  ∧ int (String (ascii_of_nat 160) "1") = Some 1
  ∧ int ("1" +:+ String (ascii_of_nat 133) EmptyString) = Some 1
  ∧ int "1 2" = None ∧ int "00012" = Some 12 ∧ int "-0" = Some 0.
Proof. repeat split; reflexivity. Qed.

Example int_digit_limit :
  match int (String.concat "" (replicate 4300 "1")) with
  | Some _ => True
  | None => False
  end
  ∧ int (String.concat "" (replicate 4301 "1")) = None
  ∧ int (String.concat "" (replicate 4301 "0")) = None.
Proof. vm_compute. repeat split. Qed.

Example strip_no_break_space :
  strip ("Ana" +:+ String (ascii_of_nat 160) EmptyString) = "Ana"
  ∧ strip (String (ascii_of_nat 31) "Bo" +:+ String (ascii_of_nat 133) " ")
    = "Bo"
  ∧ read_international_names
      (Some ["Ana" +:+ String (ascii_of_nat 160) EmptyString;
             String (ascii_of_nat 160) EmptyString; "Bo"])
    = ["Ana"; "Bo"].
Proof. repeat split; reflexivity. Qed.

Example analyze_names_separator_before_the_year :
  analyze_names ["OH,F," +:+ String (ascii_of_nat 28) "1960,Mary,5";
                 "OH,F,1960,Ann,5"; "OH,F,1960,Mary,5"]
  = ([("Ann", 5); ("Mary", 5)], 10)
  ∧ analyze_names ["OH,F,1960,Mary,10" +:+ String (ascii_of_nat 160) EmptyString]
    = ([("Mary", 10)], 10).
Proof. split; reflexivity. Qed.

Example bucket_number_after_a_separator :
  lambda_handler (H := example_runtime) empty_table
    (direct_event "OH" ("stateBucket" +:+ String (ascii_of_nat 31) "1"))
  = (Ok (error_object
           "Invalid bucket format. Expected 'stateBucket1' through 'stateBucket4'"),
     [])
  ∧ lambda_handler (H := example_runtime) empty_table
      (direct_event "OH" ("stateBucket1" +:+ String (ascii_of_nat 160) EmptyString))
    = (Ok (VList []), [GetItem (VStr "OH")]).
Proof. split; reflexivity. Qed.

(** Numbers come back from the table as [Decimal]: a direct request gets
    them, and [json.dumps] raises on them for an API Gateway request. *)
Example stored_numbers_leave_the_handler :
  let db := {| StateNames :=
                 {[ "OH" := {[ "stateBucket1" := VList [VInt 1; VInt 2] ]} ]};
               fault := None |} in
  lambda_handler (H := example_runtime) db (direct_event "OH" "stateBucket1")
  = (Ok (VList [VDecimal 1 0; VDecimal 2 0]), [GetItem (VStr "OH")])
  ∧ lambda_handler (H := example_runtime) db
      (args_event (VStr "OH") (VStr "stateBucket1"))
    = (Raise TypeError, [GetItem (VStr "OH")]).
Proof. split; reflexivity. Qed.

Example botocore_error_leaves_the_handler :
  lambda_handler (H := example_runtime)
    {| StateNames := ∅; fault := Some (BotoCoreError "EndpointConnectionError") |}
    (direct_event "OH" "stateBucket1")
  = (Raise (BotoCoreError "EndpointConnectionError"), [GetItem (VStr "OH")]).
Proof. reflexivity. Qed.

(** * Further properties of the bucketing *)

Section packing_more.

Implicit Types (bs : list (list string)) (st : pack_state) (m k : Z).

Lemma greedy_of_inv m k st :
  pack_inv k st → greedy_inv m st →
  greedy m (buckets st)
  ∧ (((1 ≤ current_bucket_idx st)%nat → buckets st !! 0%nat ≠ Some []) →
     ∀ (j : nat) b, buckets st !! 0%nat = Some [] →
                    buckets st !! j = Some b → b = []).
Proof.
  intros Hinv [HT1 HT2].
  assert (Hlater : ∀ (j : nat) b, (current_bucket_idx st < j)%nat →
                     buckets st !! j = Some b → b = [])
    by apply Hinv.
  split; [split|].
  - intros i b name rest Hi HSi.
    destruct (decide (S i ≤ current_bucket_idx st)%nat); [by eapply HT1|].
    apply Hlater in HSi; [done|lia].
  - intros i j b Hij Hi Hj.
    destruct (decide (i ≤ current_bucket_idx st)%nat).
    + exfalso. eapply HT2; [|exact Hi]. lia.
    + eapply Hlater; [|exact Hj]. lia.
  - intros H0 j b Hb0 Hj.
    destruct (decide (1 ≤ current_bucket_idx st)%nat); [by apply H0 in Hb0|].
    destruct j; [congruence|]. eapply Hlater; [|exact Hj]. lia.
Qed.

Lemma greedy_inv_initial m k : greedy_inv m (initial_pack_state k).
Proof. split; simpl; intros; lia. Qed.

(** A name appended to the current bucket. *)
Lemma greedy_inv_append m st b name size :
  greedy_inv m st →
  buckets st !! current_bucket_idx st = Some b →
  greedy_inv m {| buckets := <[current_bucket_idx st := b ++ [name]]> (buckets st);
                  current_bucket_idx := current_bucket_idx st;
                  current_size := size |}.
Proof.
  intros [HT1 HT2] Hb.
  assert (Hlt : (current_bucket_idx st < length (buckets st))%nat)
    by (eapply lookup_lt_Some; eauto).
  split; simpl.
  - intros i b' name' rest Hi Hb' HSi.
    rewrite list_lookup_insert_ne in Hb' by lia.
    destruct (decide (S i = current_bucket_idx st)) as [Heq|Hne].
    + rewrite Heq, list_lookup_insert_eq in HSi by done.
      destruct b as [|h t].
      { exfalso. eapply (HT2 (S i)); [lia|]. by rewrite Heq. }
      simpl in HSi. injection HSi as <- <-.
      eapply (HT1 i); [lia|exact Hb'|]. by rewrite Heq.
    + rewrite list_lookup_insert_ne in HSi by lia. eapply (HT1 i); eauto.
  - intros i Hi.
    destruct (decide (i = current_bucket_idx st)) as [->|Hne].
    + rewrite list_lookup_insert_eq by done. by destruct b.
    + rewrite list_lookup_insert_ne by lia. apply HT2. lia.
Qed.

(** A name that opens the next bucket because it did not fit. *)
Lemma greedy_inv_advance m k st name size :
  pack_inv k st → greedy_inv m st →
  current_size st + (len name + 4) > m →
  buckets st !! S (current_bucket_idx st) = Some [] →
  greedy_inv m {| buckets := <[S (current_bucket_idx st) := [name]]> (buckets st);
                  current_bucket_idx := S (current_bucket_idx st);
                  current_size := size |}.
Proof.
  intros Hinv [HT1 HT2] Hfull Hnext.
  assert (Hlt : (S (current_bucket_idx st) < length (buckets st))%nat)
    by (eapply lookup_lt_Some; eauto).
  split; simpl.
  - intros i b' name' rest Hi Hb' HSi.
    rewrite list_lookup_insert_ne in Hb' by lia.
    destruct (decide (i = current_bucket_idx st)) as [->|Hne].
    + rewrite list_lookup_insert_eq in HSi by done.
      injection HSi as <- <-.
      rewrite (inv_size _ _ Hinv), Hb' in Hfull. done.
    + rewrite list_lookup_insert_ne in HSi by lia. eapply (HT1 i); [|done..]. lia.
  - intros i Hi.
    destruct (decide (i = S (current_bucket_idx st))) as [->|Hne].
    + by rewrite list_lookup_insert_eq.
    + rewrite list_lookup_insert_ne by lia. apply HT2. lia.
Qed.

Lemma create_name_buckets_loop_greedy m k results st :
  pack_inv k st → greedy_inv m st →
  match create_name_buckets_loop m k results st with
  | Ok bs =>
      greedy m bs
      ∧ (Forall (fun r => len r.1 + 6 ≤ m) results →
         ((1 ≤ current_bucket_idx st)%nat → buckets st !! 0%nat ≠ Some []) →
         ∀ (j : nat) b, bs !! 0%nat = Some [] → bs !! j = Some b → b = [])
  | Raise _ => True
  end.
Proof.
  revert st. induction results as [|[name c] results IH];
    intros st Hinv Hg; simpl.
  - destruct (greedy_of_inv m k st Hinv Hg) as [? H0]. split; [done|].
    intros _. apply H0.
  - case_bool_decide as Hfull.
    + case_bool_decide as Hlast.
      * destruct (greedy_of_inv m k st Hinv Hg) as [? H0]. split; [done|].
        intros _. apply H0.
      * unfold append_to_bucket.
        destruct (buckets st !! S (current_bucket_idx st)) as [b|] eqn:Hb;
          simpl; [|done].
        assert (b = []) as -> by (eapply pack_inv_next_empty; eauto).
        specialize (IH _
          (pack_inv_append k st _ [] name (2 + (len name + 4))
             Hinv Hb ltac:(lia) ltac:(done))
          (greedy_inv_advance m k st name (2 + (len name + 4))
             Hinv Hg Hfull Hb)).
        simpl in IH. destruct (create_name_buckets_loop _ _ _ _) as [bs|e];
          [|done].
        destruct IH as [Hgreedy H0]. split; [done|].
        intros Hfit Hst. inversion Hfit as [|? ? Hname Hrest]; subst.
        apply H0; [done|]. intros _.
        rewrite list_lookup_insert_ne by lia.
        destruct (decide (1 ≤ current_bucket_idx st)%nat); [by apply Hst|].
        assert (Hidx : current_bucket_idx st = 0%nat) by lia.
        intros Hb0. rewrite (inv_size _ _ Hinv), Hidx, Hb0 in Hfull.
        simpl in Hfull, Hname. unfold serialized_size in Hfull. simpl in Hfull.
        lia.
    + unfold append_to_bucket.
      destruct (buckets st !! current_bucket_idx st) as [b|] eqn:Hb; simpl;
        [|done].
      pose proof (pack_inv_current_size k st b Hinv Hb) as Hsz.
      specialize (IH _
        (pack_inv_append k st _ b name (current_size st + (len name + 4))
           Hinv Hb ltac:(lia) ltac:(lia))
        (greedy_inv_append m st b name (current_size st + (len name + 4))
           Hg Hb)).
      simpl in IH. destruct (create_name_buckets_loop _ _ _ _) as [bs|e];
        [|done].
      destruct IH as [Hgreedy H0]. split; [done|].
      intros Hfit Hst. inversion Hfit as [|? ? Hname Hrest]; subst.
      apply H0; [done|]. intros Hidx.
      destruct (decide (current_bucket_idx st = 0%nat)) as [Heq|Hne].
      * rewrite Heq in Hidx. lia.
      * rewrite list_lookup_insert_ne by lia. apply Hst. lia.
Qed.

End packing_more.

(** X1: for a positive number of buckets [create_name_buckets] returns,
    for every list and every size limit, exactly that number of buckets;
    for a number of buckets that is zero or negative it returns no bucket
    when there are no names or the first name does not fit an empty
    bucket, and raises [IndexError] otherwise. *)
Theorem create_name_buckets_bucket_count (results : list (string * Z)) (m k : Z) :
  (1 ≤ k → ∃ bs, create_name_buckets results m k = Ok bs
                 ∧ length bs = Z.to_nat k)
  ∧ (k ≤ 0 →
     create_name_buckets results m k
     = match results with
       | [] => Ok []
       | (name, _) :: _ =>
           if bool_decide (2 + (len name + 4) > m) then Ok []
           else Raise IndexError
       end).
Proof.
  split.
  - apply create_name_buckets_returns.
  - intros Hk. unfold create_name_buckets, initial_pack_state, empty_buckets.
    replace (Z.to_nat k) with 0%nat by lia.
    destruct results as [|[name c] results]; simpl; [done|].
    case_bool_decide; [|done]. by rewrite bool_decide_eq_true_2 by lia.
Qed.

(** X2: the packing is greedy.  In the result of [create_name_buckets]
    the first name of a bucket did not fit the bucket before it; after an
    empty bucket other than the first all buckets are empty; when every
    name fits an empty bucket this holds from the first bucket on. *)
Theorem create_name_buckets_greedy (results : list (string * Z)) (m k : Z)
    (bs : list (list string)) :
  create_name_buckets results m k = Ok bs →
  (∀ (i : nat) b name rest,
     bs !! i = Some b → bs !! S i = Some (name :: rest) →
     serialized_size b + (len name + 4) > m)
  ∧ (∀ (i j : nat) b,
       (1 ≤ i < j)%nat → bs !! i = Some [] → bs !! j = Some b → b = [])
  ∧ (Forall (fun r => len r.1 + 6 ≤ m) results →
     ∀ (j : nat) b, bs !! 0%nat = Some [] → bs !! j = Some b → b = []).
Proof.
  unfold create_name_buckets. intros Hbs.
  pose proof (create_name_buckets_loop_greedy m k results _
                (pack_inv_initial k) (greedy_inv_initial m k)) as H.
  rewrite Hbs in H. destruct H as [[Ht Hc] H0].
  split; [done|]. split; [done|].
  intros Hfit. apply H0; [done|]. simpl. lia.
Qed.

Lemma create_name_buckets_greedy_witness :
  create_name_buckets [("Amy", 9); ("Bo", 7); ("Cy", 5); ("Di", 1)] 15 3
  = Ok [["Amy"; "Bo"]; ["Cy"; "Di"]; []]
  ∧ ((∀ (i : nat) b name rest,
        [["Amy"; "Bo"]; ["Cy"; "Di"]; []] !! i = Some b →
        [["Amy"; "Bo"]; ["Cy"; "Di"]; []] !! S i = Some (name :: rest) →
        serialized_size b + (len name + 4) > 15)
     ∧ (∀ (i j : nat) b,
          (1 ≤ i < j)%nat →
          [["Amy"; "Bo"]; ["Cy"; "Di"]; []] !! i = Some [] →
          [["Amy"; "Bo"]; ["Cy"; "Di"]; []] !! j = Some b → b = [])
     ∧ (Forall (fun r : string * Z => len r.1 + 6 ≤ 15)
          [("Amy", 9); ("Bo", 7); ("Cy", 5); ("Di", 1)] →
        ∀ (j : nat) b,
          [["Amy"; "Bo"]; ["Cy"; "Di"]; []] !! 0%nat = Some [] →
          [["Amy"; "Bo"]; ["Cy"; "Di"]; []] !! j = Some b → b = [])).
Proof.
  assert (H : create_name_buckets [("Amy", 9); ("Bo", 7); ("Cy", 5); ("Di", 1)] 15 3
              = Ok [["Amy"; "Bo"]; ["Cy"; "Di"]; []]) by reflexivity.
  split; [exact H|].
  exact (create_name_buckets_greedy _ 15 3 _ H).
Defined.

(** X3: when every name fits an empty bucket and [create_name_buckets]
    leaves some names out, no bucket of the result is empty. *)
Theorem create_name_buckets_drops_when_full (results : list (string * Z))
    (m k : Z) (bs : list (list string)) :
  create_name_buckets results m k = Ok bs →
  Forall (fun r => len r.1 + 6 ≤ m) results →
  (length (concat bs) < length results)%nat →
  Forall (fun b => b ≠ []) bs.
Proof.
  intros Hbs Hfit Hless.
  pose proof (create_name_buckets_spec results m k) as Hspec.
  rewrite Hbs in Hspec. destruct Hspec as (Hlen & (dropped & Hcat & Hdrop) & _).
  unfold create_name_buckets in Hbs.
  pose proof (create_name_buckets_loop_greedy m k results _
                (pack_inv_initial k) (greedy_inv_initial m k)) as Hg.
  rewrite Hbs in Hg. destruct Hg as [[_ Hcont] H0].
  specialize (H0 Hfit ltac:(simpl; lia)).
  destruct dropped as [|d rest].
  { rewrite app_nil_r in Hcat. apply (f_equal length) in Hcat.
    rewrite length_fmap in Hcat. lia. }
  specialize (Hdrop d rest eq_refl).
  assert (Hd : len d + 6 ≤ m).
  { rewrite Forall_forall in Hfit.
    assert (Hin : d ∈ results.*1).
    { rewrite Hcat. apply elem_of_app. right. by left. }
    apply list_elem_of_fmap in Hin as (r & -> & Hr). by apply Hfit. }
  destruct (last bs) as [bl|] eqn:Hlast; simpl in Hdrop.
  2:{ apply last_None in Hlast. subst bs. constructor. }
  assert (Hbl : bl ≠ []).
  { intros ->. rewrite serialized_size_nil in Hdrop. lia. }
  rewrite last_lookup in Hlast.
  apply Forall_forall. intros b Hb ->.
  apply list_elem_of_lookup in Hb as [i Hi].
  pose proof (lookup_lt_Some _ _ _ Hi) as Hlt.
  destruct (decide (i = pred (length bs))) as [->|Hne]; [congruence|].
  destruct i as [|i].
  - apply Hbl. by eapply H0.
  - apply Hbl. eapply (Hcont (S i) (pred (length bs))); [lia|done..].
Qed.

Lemma create_name_buckets_drops_when_full_witness :
  create_name_buckets [("Amy", 9); ("Bo", 7); ("Cy", 5); ("Di", 1)] 9 2
  = Ok [["Amy"]; ["Bo"]]
  ∧ Forall (fun r : string * Z => len r.1 + 6 ≤ 9)
      [("Amy", 9); ("Bo", 7); ("Cy", 5); ("Di", 1)]
  ∧ (length (concat [["Amy"]; ["Bo"]])
     < length [("Amy", 9); ("Bo", 7); ("Cy", 5); ("Di", 1)])%nat
  ∧ Forall (fun b : list string => b ≠ []) [["Amy"]; ["Bo"]].
Proof.
  assert (H1 : create_name_buckets [("Amy", 9); ("Bo", 7); ("Cy", 5); ("Di", 1)] 9 2
               = Ok [["Amy"]; ["Bo"]]) by reflexivity.
  assert (H2 : Forall (fun r : string * Z => len r.1 + 6 ≤ 9)
                 [("Amy", 9); ("Bo", 7); ("Cy", 5); ("Di", 1)]).
  { repeat constructor; vm_compute; discriminate. }
  assert (H3 : (length (concat [["Amy"]; ["Bo"]])
                < length [("Amy", 9); ("Bo", 7); ("Cy", 5); ("Di", 1)])%nat)
    by (simpl; lia).
  exact (conj H1 (conj H2 (conj H3
    (create_name_buckets_drops_when_full _ 9 2 _ H1 H2 H3)))).
Defined.

(** * Further properties of the loader *)

Section loader_more.

Implicit Types (db : dynamodb) (it : item) (state : string)
  (name_buckets : list (list string)).

Lemma elem_of_state_names_of name name_buckets :
  name ∈ state_names_of name_buckets ↔ name ∈ concat name_buckets.
Proof.
  unfold state_names_of.
  assert (H : ∀ acc : gset string,
    name ∈ foldl (fun state_names bucket => state_names ∪ list_to_set bucket)
             acc name_buckets
    ↔ name ∈ acc ∨ name ∈ concat name_buckets).
  { induction name_buckets as [|b bs IH]; intros acc; simpl.
    - rewrite elem_of_nil. tauto.
    - rewrite IH, elem_of_union, elem_of_list_to_set, elem_of_app. tauto. }
  rewrite H, elem_of_empty. tauto.
Qed.

Lemma fmap_fst_pair (c : Z) (names : list string) :
  ((fun name => (name, c)) <$> names).*1 = names.
Proof. induction names as [|n names IH]; simpl; [done|]. by f_equal. Qed.

(** The counts of a prepared item. *)
Lemma prepare_item_counts state name_buckets unique total other it :
  prepare_item state name_buckets unique total other = Ok it →
  it !! "uniqueNamesCount" = Some (VInt unique)
  ∧ it !! "totalNameCount" = Some (VInt total)
  ∧ ∀ key v, key ∈ own_identifiers ++ supplementary_identifiers →
      it !! key = Some v →
      ∃ names, v = names_value names
               ∧ it !! (key +:+ "Count")
                 = Some (VInt (Z.of_nat (length names))).
Proof.
  unfold prepare_item, subscript. intros Hit.
  destruct (name_buckets !! 0%nat) as [b1|]; [|done].
  destruct (name_buckets !! 1%nat) as [b2|]; [|done].
  destruct (name_buckets !! 2%nat) as [b3|]; [|done].
  destruct (name_buckets !! 3%nat) as [b4|]; [|done].
  simpl in Hit.
  destruct other as [[|o1 [|o2 other]]|]; simpl in Hit; try done;
    injection Hit; clear Hit; intros Hit; subst it;
    (split; [by simplify_map_eq|]); (split; [by simplify_map_eq|]);
    intros key v Hkey Hv;
    unfold own_identifiers, supplementary_identifiers in Hkey; simpl in Hkey;
    repeat (apply elem_of_cons in Hkey as [->|Hkey];
            [simpl; simplify_map_eq; eauto|]);
    by apply elem_of_nil in Hkey.
Qed.

(** The own buckets that [process_state_file] computes and stores. *)
Lemma computed_item_own_buckets file_path file international_names it :
  computed_item file_path file international_names = Ok it →
  ∃ b1 b2 b3 b4 other,
    create_name_buckets (analyze_names file).1 3950 4 = Ok [b1; b2; b3; b4]
    ∧ match international_names with
      | Some ((_ :: _) as names) =>
          ∃ o, create_international_name_buckets names
                 (state_names_of [b1; b2; b3; b4]) 3950 2 = Ok o
               ∧ other = Some o
      | _ => other = None
      end
    ∧ prepare_item (state_of_path file_path) [b1; b2; b3; b4]
        (Z.of_nat (length (analyze_names file).1)) (analyze_names file).2 other
      = Ok it.
Proof.
  unfold computed_item. intros Hit.
  pose proof (create_name_buckets_spec (analyze_names file).1 3950 4) as Hspec.
  destruct (create_name_buckets _ _ _) as [nb|]; [|done].
  destruct Hspec as (Hlen & _). simpl in Hit.
  destruct nb as [|b1 [|b2 [|b3 [|b4 [|b5 nb]]]]]; try done.
  exists b1, b2, b3, b4. split_and?; try done.
  destruct international_names as [[|name names]|]; simpl in Hit; eauto.
  destruct (create_international_name_buckets _ _ _ _) as [o|]; [|done].
  simpl in Hit. exists (Some o). eauto.
Qed.

End loader_more.

(** X6: the record that [process_state_file] stores for the state holds
    under the four own partitions a prefix of the ranked names of the
    file, in order and without a repetition, under [uniqueNamesCount] the
    number of all ranked names, dropped ones included, and under
    [totalNameCount] the sum of their totals. *)
Theorem published_record_holds_ranked_prefix (db db' : dynamodb)
    (file_path : string) (file : list string)
    (international_names : option (list string))
    (existing_names : option (gset string)) :
  process_state_file db file_path file international_names existing_names
  = Ok db' →
  ∃ it b1 b2 b3 b4 dropped,
    StateNames db' !! state_of_path file_path = Some it
    ∧ it !! "stateBucket1" = Some (names_value b1)
    ∧ it !! "stateBucket2" = Some (names_value b2)
    ∧ it !! "stateBucket3" = Some (names_value b3)
    ∧ it !! "stateBucket4" = Some (names_value b4)
    ∧ (analyze_names file).1.*1 = b1 ++ b2 ++ b3 ++ b4 ++ dropped
    ∧ NoDup (b1 ++ b2 ++ b3 ++ b4)
    ∧ it !! "uniqueNamesCount"
      = Some (VInt (Z.of_nat (length (b1 ++ b2 ++ b3 ++ b4 ++ dropped))))
    ∧ it !! "totalNameCount"
      = Some (VInt (sum_counts (analyze_names file).1)).
Proof.
  intros (it & Hit & _ & _ & _ & ->)%process_state_file_Ok.
  apply computed_item_own_buckets in Hit
    as (b1 & b2 & b3 & b4 & other & Hnb & _ & Hit).
  pose proof (create_name_buckets_spec (analyze_names file).1 3950 4) as Hspec.
  rewrite Hnb in Hspec. destruct Hspec as (_ & (dropped & Hcat & _) & _).
  simpl in Hcat. rewrite app_nil_r, <- !app_assoc in Hcat.
  destruct (analyze_names_spec file) as (Hsum & Hnd & _).
  destruct (prepare_item_lookup _ _ _ _ _ _ Hit) as (_ & Hown & _).
  destruct (prepare_item_counts _ _ _ _ _ _ Hit) as (Hu & Ht & _).
  exists it, b1, b2, b3, b4, dropped. simpl. rewrite lookup_insert_eq.
  split; [done|].
  destruct (Hown 0%nat "stateBucket1" eq_refl) as (? & [= <-] & ->).
  destruct (Hown 1%nat "stateBucket2" eq_refl) as (? & [= <-] & ->).
  destruct (Hown 2%nat "stateBucket3" eq_refl) as (? & [= <-] & ->).
  destruct (Hown 3%nat "stateBucket4" eq_refl) as (? & [= <-] & ->).
  split_and?; try done.
  - rewrite Hcat, !app_assoc in Hnd. apply NoDup_app in Hnd as [Hnd _].
    by rewrite !app_assoc.
  - rewrite Hu, <- Hcat. by rewrite length_fmap.
  - by rewrite Ht, Hsum.
Qed.

(** X7: with international names, the supplementary partitions that
    [process_state_file] stores hold a prefix of the international names
    that are in none of the own partitions of the state, in order; none
    of their names is in an own partition. *)
Theorem published_supplementary_excludes_own (db db' : dynamodb)
    (file_path : string) (file : list string) (name : string)
    (names : list string) (existing_names : option (gset string)) :
  process_state_file db file_path file (Some (name :: names)) existing_names
  = Ok db' →
  ∃ it b1 b2 b3 b4 o1 o2 dropped,
    StateNames db' !! state_of_path file_path = Some it
    ∧ it !! "stateBucket1" = Some (names_value b1)
    ∧ it !! "stateBucket2" = Some (names_value b2)
    ∧ it !! "stateBucket3" = Some (names_value b3)
    ∧ it !! "stateBucket4" = Some (names_value b4)
    ∧ it !! "otherNamesBucket1" = Some (names_value o1)
    ∧ it !! "otherNamesBucket2" = Some (names_value o2)
    ∧ filter (fun n => n ∉ b1 ++ b2 ++ b3 ++ b4) (name :: names)
      = o1 ++ o2 ++ dropped
    ∧ ∀ n, n ∈ o1 ++ o2 → n ∉ b1 ++ b2 ++ b3 ++ b4.
Proof.
  intros (it & Hit & _ & _ & _ & ->)%process_state_file_Ok.
  apply computed_item_own_buckets in Hit
    as (b1 & b2 & b3 & b4 & other & Hnb & (o & Ho & ->) & Hit).
  rewrite (create_international_name_buckets_filter _ _ _ _ 0) in Ho.
  pose proof (create_name_buckets_spec
    ((fun n => (n, 0)) <$>
       filter (fun n => n ∉ state_names_of [b1; b2; b3; b4]) (name :: names))
    3950 2) as Hspec.
  rewrite Ho in Hspec. destruct Hspec as (Hlen & (dropped & Hcat & _) & _).
  rewrite fmap_fst_pair in Hcat.
  rewrite (list_filter_iff _ (fun n => n ∉ b1 ++ b2 ++ b3 ++ b4)) in Hcat.
  2:{ intros n. rewrite elem_of_state_names_of. simpl.
      by rewrite app_nil_r. }
  destruct o as [|o1 [|o2 [|o3 o]]]; try done.
  simpl in Hcat. rewrite app_nil_r, <- app_assoc in Hcat.
  destruct (prepare_item_lookup _ _ _ _ _ _ Hit) as (_ & Hown & _).
  pose proof (prepare_item_supplementary _ _ _ _ _ _ Hit)
    as (? & ? & [= <-] & [= <-] & Ho1 & Ho2).
  exists it, b1, b2, b3, b4, o1, o2, dropped. simpl. rewrite lookup_insert_eq.
  split; [done|].
  destruct (Hown 0%nat "stateBucket1" eq_refl) as (? & [= <-] & ->).
  destruct (Hown 1%nat "stateBucket2" eq_refl) as (? & [= <-] & ->).
  destruct (Hown 2%nat "stateBucket3" eq_refl) as (? & [= <-] & ->).
  destruct (Hown 3%nat "stateBucket4" eq_refl) as (? & [= <-] & ->).
  split_and?; try done.
  intros n Hn.
  assert (Hin : n ∈ filter (fun n => n ∉ b1 ++ b2 ++ b3 ++ b4) (name :: names)).
  { rewrite Hcat, app_assoc. apply elem_of_app. by left. }
  by apply list_elem_of_filter in Hin as [? _].
Qed.

(** * The scan of the table *)

Section scan_more.

Implicit Types (db : dynamodb) (it : item) (existing_names : gset string).

Lemma names_value_inj (names names' : list string) :
  names_value names = names_value names' → names = names'.
Proof.
  unfold names_value. intros [= H]. revert names' H.
  induction names as [|n names IH]; intros [|n' names'] H; simpl in H;
    try done.
  injection H as -> H. f_equal. by apply IH.
Qed.

Lemma set_update_names existing_names (names : list string) :
  (set_update existing_names (VStr <$> names)).2 = None
  ∧ ∀ x, x ∈ (set_update existing_names (VStr <$> names)).1
         ↔ x ∈ existing_names ∨ x ∈ names.
Proof.
  revert existing_names. induction names as [|n names IH];
    intros existing_names; simpl.
  - split; [done|]. intros x. rewrite elem_of_nil. tauto.
  - destruct (IH ({[n]} ∪ existing_names)) as [Hnone Hin]. split; [done|].
    intros x. rewrite Hin, elem_of_union, elem_of_singleton, elem_of_cons.
    tauto.
Qed.

Lemma scan_item_buckets_names it keys existing_names :
  own_partitions_are_names it → keys ⊆ own_identifiers →
  (scan_item_buckets it keys existing_names).2 = None
  ∧ ∀ x, x ∈ (scan_item_buckets it keys existing_names).1
         ↔ x ∈ existing_names
           ∨ ∃ key names, key ∈ keys ∧ it !! key = Some (names_value names)
                          ∧ x ∈ names.
Proof.
  intros Hit. revert existing_names.
  induction keys as [|key keys IH]; intros existing_names Hsub; simpl.
  - split; [done|]. intros x. split; [tauto|].
    intros [?|(? & ? & []%elem_of_nil & _)]; done.
  - assert (Hsub' : keys ⊆ own_identifiers).
    { intros k Hk. apply Hsub. by right. }
    destruct (it !! key) as [v|] eqn:Hv.
    + destruct (Hit key v) as [names ->]; [apply Hsub; by left|done|].
      simpl. destruct (set_update_names existing_names names) as [Hnone Hin].
      destruct (set_update existing_names (VStr <$> names)) as [s o].
      simpl in Hnone, Hin. subst o.
      destruct (IH s Hsub') as [Hnone' Hin']. split; [done|].
      intros x. rewrite Hin', Hin. split.
      * intros [[?|?]|(k & ns & Hk & Hns & Hx)]; [by left|right..].
        -- exists key, names. split; [by left|done].
        -- exists k, ns. split; [by right|done].
      * intros [?|(k & ns & [->|Hk]%elem_of_cons & Hns & Hx)].
        -- by left; left.
        -- rewrite Hv in Hns. assert (names = ns) as <-
             by (apply names_value_inj; congruence).
           by left; right.
        -- right. eauto.
    + destruct (IH existing_names Hsub') as [Hnone Hin]. split; [done|].
      intros x. rewrite Hin. split.
      * intros [?|(k & ns & Hk & Hns & Hx)]; [by left|right].
        exists k, ns. split; [by right|done].
      * intros [?|(k & ns & [->|Hk]%elem_of_cons & Hns & Hx)];
          [by left|congruence|right; eauto].
Qed.

Lemma scan_items_names (items : list item) existing_names :
  Forall own_partitions_are_names items →
  (scan_items items existing_names).2 = None
  ∧ ∀ x, x ∈ (scan_items items existing_names).1
         ↔ x ∈ existing_names
           ∨ ∃ it key names, it ∈ items ∧ key ∈ own_identifiers
                             ∧ it !! key = Some (names_value names) ∧ x ∈ names.
Proof.
  intros Hall. revert existing_names.
  induction Hall as [|it items Hit Hall IH]; intros existing_names;
    cbn [scan_items].
  - split; [done|]. intros x. split; [tauto|].
    intros [?|(? & ? & ? & []%elem_of_nil & _)]; done.
  - destruct (scan_item_buckets_names it own_identifiers existing_names Hit)
      as [Hnone Hin]; [by intros ?|].
    change ["stateBucket1"; "stateBucket2"; "stateBucket3"; "stateBucket4"]
      with own_identifiers.
    destruct (scan_item_buckets it own_identifiers existing_names) as [s o].
    simpl in Hnone, Hin. subst o.
    destruct (IH s) as [Hnone' Hin']. split; [done|].
    intros x. rewrite Hin', Hin. split.
    + intros [[?|(k & ns & Hk & Hns & Hx)]|(i & k & ns & Hi & Hk & Hns & Hx)];
        [by left|right..].
      * exists it, k, ns. split; [by left|done].
      * exists i, k, ns. split; [by right|done].
    + intros [?|(i & k & ns & [->|Hi]%elem_of_cons & Hk & Hns & Hx)].
      * by left; left.
      * left; right. eauto.
      * right. exists i, k, ns. eauto.
Qed.

(** The own partitions of a record that holds lists of names come back
    from the table as they were put. *)
Lemma deserialize_item_own it :
  own_partitions_are_names it →
  own_partitions_are_names (deserialize_item it)
  ∧ ∀ key, key ∈ own_identifiers → deserialize_item it !! key = it !! key.
Proof.
  intros Hit.
  assert (Hkey : ∀ key, key ∈ own_identifiers →
                        deserialize_item it !! key = it !! key).
  { intros key Hkey. unfold deserialize_item. rewrite lookup_fmap.
    destruct (it !! key) as [v|] eqn:Hv; [|done].
    destruct (Hit key v Hkey Hv) as [names ->].
    cbn [fmap option_fmap option_map].
    by rewrite deserialize_names_value. }
  split; [|done]. intros key v Hin Hv. rewrite Hkey in Hv by done.
  by eapply Hit.
Qed.

(** What the scan of a table that answers collects. *)
Lemma get_all_existing_names_spec db name :
  fault db = None →
  (∀ state it, StateNames db !! state = Some it → own_partitions_are_names it) →
  name ∈ get_all_existing_names db
  ↔ ∃ state it key names,
      StateNames db !! state = Some it ∧ key ∈ own_identifiers
      ∧ it !! key = Some (names_value names) ∧ name ∈ names.
Proof.
  unfold get_all_existing_names, scan. intros -> Hall.
  destruct (scan_items_names
              (deserialize_item <$> (map_to_list (StateNames db)).*2) ∅)
    as [_ Hin].
  { apply Forall_forall. intros it Hit.
    apply list_elem_of_fmap in Hit as (it0 & -> & Hit).
    apply list_elem_of_fmap in Hit as ([state it'] & -> & Hit).
    apply elem_of_map_to_list in Hit. apply deserialize_item_own.
    by eapply Hall. }
  rewrite Hin, elem_of_empty. split.
  - intros [[]|(it & key & names & Hit & Hkey & Hnames & Hx)].
    apply list_elem_of_fmap in Hit as (it0 & -> & Hit).
    apply list_elem_of_fmap in Hit as ([state it'] & -> & Hit).
    apply elem_of_map_to_list in Hit. exists state, it', key, names.
    split; [done|]. split; [done|]. split; [|done].
    rewrite <- Hnames. symmetry.
    apply deserialize_item_own; [by eapply Hall|done].
  - intros (state & it & key & names & Hit & Hkey & Hnames & Hx). right.
    exists (deserialize_item it), key, names. split.
    { apply list_elem_of_fmap. exists it. split; [done|].
      apply list_elem_of_fmap. exists (state, it). split; [done|].
      by apply elem_of_map_to_list. }
    split; [done|]. split; [|done]. rewrite <- Hnames.
    apply deserialize_item_own; [by eapply Hall|done].
Qed.

(** The own partitions of a prepared item are lists of names. *)
Lemma prepare_item_own_partitions state name_buckets unique total other it :
  prepare_item state name_buckets unique total other = Ok it →
  own_partitions_are_names it.
Proof.
  intros Hit key v Hkey Hv.
  apply list_elem_of_lookup_1 in Hkey as [n Hn].
  destruct (prepare_item_lookup _ _ _ _ _ _ Hit) as (_ & Hown & _).
  destruct (Hown n key Hn) as (names & _ & Hnames).
  exists names. congruence.
Qed.

End scan_more.

(** X8: [get_all_existing_names] returns the empty set when the table
    answers the scan with an error; over a table that answers and whose
    records hold lists of names under the four own partitions, it returns
    exactly the names of these partitions, and none of the supplementary
    partitions. *)
Theorem get_all_existing_names_own_names (db : dynamodb) :
  (is_Some (fault db) → get_all_existing_names db = ∅)
  ∧ (fault db = None →
     (∀ state it, StateNames db !! state = Some it →
                  own_partitions_are_names it) →
     ∀ name,
       name ∈ get_all_existing_names db
       ↔ ∃ state it key names,
           StateNames db !! state = Some it ∧ key ∈ own_identifiers
           ∧ it !! key = Some (names_value names) ∧ name ∈ names).
Proof.
  split.
  - unfold get_all_existing_names, scan. by intros [msg ->].
  - intros Hf Hall name. by apply get_all_existing_names_spec.
Qed.

(** * The names file, the state files and the batch *)

Section strings_more.

Lemma lstrip_head (s : string) :
  match lstrip s with
  | String c _ => isspace c = false
  | EmptyString => True
  end.
Proof.
  induction s as [|c s IH]; simpl; [done|].
  by destruct (isspace c) eqn:Hc.
Qed.

Lemma rstrip_head (c : ascii) (s : string) :
  isspace c = false → ∃ t, rstrip (String c s) = String c t.
Proof.
  intros Hc. simpl. destruct (rstrip s); [rewrite Hc|]; eauto.
Qed.

Lemma rstrip_idemp (s : string) : rstrip (rstrip s) = rstrip s.
Proof.
  induction s as [|c s IH]; simpl; [done|].
  destruct (rstrip s) as [|d t] eqn:Hr.
  - destruct (isspace c) eqn:Hc; simpl; [done|]. by rewrite Hc.
  - cbn [rstrip] in *. fold rstrip in *. by rewrite IH.
Qed.

Lemma strip_idemp (s : string) : strip (strip s) = strip s.
Proof.
  unfold strip. pose proof (lstrip_head s) as Hhead.
  destruct (lstrip s) as [|c t]; [done|].
  destruct (rstrip_head c t Hhead) as [u Hu]. rewrite Hu.
  simpl lstrip. rewrite Hhead, <- Hu. apply rstrip_idemp.
Qed.

Lemma split_not_nil (sep : ascii) (s : string) : split sep s ≠ [].
Proof.
  induction s as [|c s IH]; simpl; [done|].
  destruct (Ascii.eqb c sep); [done|]. by destruct (split sep s).
Qed.

(** A part of a split holds no separator, and no character that the
    string does not hold. *)
Lemma split_parts (sep : ascii) (s : string) :
  Forall (fun part => has_char sep part = false) (split sep s).
Proof.
  induction s as [|c s IH]; simpl; [by repeat constructor|].
  destruct (Ascii.eqb c sep) eqn:Hc; [by constructor|].
  destruct (split sep s) as [|part parts].
  { repeat constructor. simpl. by rewrite Hc. }
  inversion IH; subst. constructor; [|done]. simpl. by rewrite Hc.
Qed.

Lemma split_parts_without (c sep : ascii) (s : string) :
  has_char c s = false →
  Forall (fun part => has_char c part = false) (split sep s).
Proof.
  induction s as [|d s IH]; simpl; [by repeat constructor|].
  intros [Hd Hs]%orb_false_iff. specialize (IH Hs).
  destruct (Ascii.eqb d sep); [by constructor|].
  destruct (split sep s) as [|part parts].
  { repeat constructor. simpl. by rewrite Hd. }
  inversion IH; subst. constructor; [|done]. simpl. by rewrite Hd.
Qed.

Lemma split_without (sep : ascii) (s : string) :
  has_char sep s = false → split sep s = [s].
Proof.
  induction s as [|c s IH]; simpl; [done|].
  intros [Hc Hs]%orb_false_iff. rewrite Hc, IH; done.
Qed.

Lemma split_app (sep : ascii) (s t : string) :
  has_char sep s = false →
  split sep (s +:+ String sep t) = s :: split sep t.
Proof.
  induction s as [|c s IH]; simpl.
  - by rewrite Ascii.eqb_refl.
  - intros [Hc Hs]%orb_false_iff. rewrite Hc, IH; done.
Qed.

Lemma split_app_two (sep : ascii) (s t : string) :
  ∃ p q parts, split sep (s +:+ String sep t) = p :: q :: parts.
Proof.
  induction s as [|c s (p & q & parts & IH)]; simpl.
  - rewrite Ascii.eqb_refl. pose proof (split_not_nil sep t).
    destruct (split sep t) as [|q parts]; [done|]. eauto.
  - rewrite IH. destruct (Ascii.eqb c sep); eauto.
Qed.

Lemma last_split_app (sep : ascii) (s t : string) :
  List.last (split sep (s +:+ String sep t)) EmptyString
  = List.last (split sep t) EmptyString.
Proof.
  induction s as [|c s IH]; simpl.
  - rewrite Ascii.eqb_refl. pose proof (split_not_nil sep t).
    by destruct (split sep t).
  - destruct (split_app_two sep s t) as (p & q & parts & Hsplit).
    rewrite Hsplit in *. by destruct (Ascii.eqb c sep).
Qed.

End strings_more.

(** X9: [read_international_names] returns the lines of the file
    stripped, without those that are empty after stripping; every name it
    returns is not empty and has no white space around it, and reading
    its own result again changes nothing. *)
Theorem read_international_names_stripped (file : list string) :
  read_international_names (Some file)
  = filter (fun name => name ≠ EmptyString) (strip <$> file)
  ∧ Forall (fun name => name ≠ EmptyString ∧ strip name = name)
      (read_international_names (Some file))
  ∧ read_international_names (Some (read_international_names (Some file)))
    = read_international_names (Some file).
Proof.
  assert (Hloop : ∀ lines names,
    read_international_names_loop lines names
    = names ++ filter (fun name => name ≠ EmptyString) (strip <$> lines)).
  { induction lines as [|line lines IH]; intros names;
      cbn [read_international_names_loop].
    - by rewrite app_nil_r.
    - rewrite fmap_cons, filter_cons.
      destruct (String.eqb_spec (strip line) EmptyString) as [Heq|Hne];
        cbn [negb].
      + rewrite IH. by rewrite decide_False by (by intros ?).
      + rewrite IH, <- app_assoc. by rewrite decide_True. }
  assert (H1 : ∀ lines, read_international_names (Some lines)
                = filter (fun name => name ≠ EmptyString) (strip <$> lines)).
  { intros lines. unfold read_international_names. by rewrite Hloop. }
  assert (H2 : Forall (fun name => name ≠ EmptyString ∧ strip name = name)
                 (read_international_names (Some file))).
  { rewrite H1. apply Forall_forall. intros name Hin.
    apply list_elem_of_filter in Hin as [Hne Hin].
    apply list_elem_of_fmap in Hin as (line & -> & _).
    split; [done|]. apply strip_idemp. }
  split; [apply H1|]. split; [done|].
  rewrite (H1 (read_international_names _)).
  induction H2 as [|name names [Hne Hstrip] _ IH]; [done|].
  rewrite fmap_cons, filter_cons, Hstrip. rewrite decide_True by done.
  by rewrite IH.
Qed.

(** X10: the state code that [process_state_file] takes from a path
    holds no dot and no slash; for a file [<state>.<extension>] in a
    directory it is [<state>], whatever dots and slashes the directory
    has, and whatever dots the extension. *)
Theorem state_of_path_of_file_name (file_path directory state extension : string) :
  (has_char "." (state_of_path file_path) = false
   ∧ has_char "/" (state_of_path file_path) = false)
  ∧ (has_char "/" state = false → has_char "." state = false →
     has_char "/" extension = false →
     state_of_path (directory +:+ "/" +:+ state +:+ "." +:+ extension) = state).
Proof.
  split.
  - unfold state_of_path.
    set (basename := List.last (split "/" file_path) EmptyString).
    assert (Hbase : has_char "/" basename = false).
    { pose proof (split_parts "/" file_path) as Hparts.
      pose proof (split_not_nil "/" file_path) as Hne.
      rewrite Forall_forall in Hparts. apply Hparts.
      apply list_elem_of_In. subst basename.
      destruct (exists_last Hne) as (l & x & ->). rewrite last_last.
      apply in_or_app. right. by left. }
    pose proof (split_parts "." basename) as Hdot.
    pose proof (split_parts_without "/" "." basename Hbase) as Hslash.
    pose proof (split_not_nil "." basename) as Hne.
    destruct (split "." basename) as [|part parts]; [done|].
    inversion Hdot; inversion Hslash; subst. done.
  - intros Hs Hd He. unfold state_of_path.
    change (directory +:+ "/" +:+ state +:+ "." +:+ extension)
      with (directory +:+ String "/" (state +:+ String "." extension)).
    rewrite (last_split_app "/" directory).
    assert (Hrest : has_char "/" (state +:+ String "." extension) = false).
    { clear Hd. induction state as [|c s IH]; simpl in *; [done|].
      apply orb_false_iff in Hs as [-> Hs]. by apply IH. }
    rewrite (split_without "/" _ Hrest). simpl List.last.
    by rewrite (split_app "." state extension Hd).
Qed.

(** * The batch over the state files *)

Section batch.

Implicit Types (db : dynamodb) (files : list (string * list string))
  (names : list string).

Lemma main_loop_app db names files files' :
  main_loop db names (files ++ files')
  = match main_loop db names files with
    | (db1, None) => main_loop db1 names files'
    | stopped => stopped
    end.
Proof.
  revert db. induction files as [|[file_path file] files IH]; intros db;
    simpl; [done|].
  destruct (process_state_file db file_path file (Some names) None); [|done].
  apply IH.
Qed.

(** A run of [process_state_file] that returns changes the record of
    its state only. *)
Lemma process_state_file_frame db db' file_path file international_names
    existing_names state :
  process_state_file db file_path file international_names existing_names
  = Ok db' →
  state ≠ state_of_path file_path →
  StateNames db' !! state = StateNames db !! state.
Proof.
  intros (it & _ & _ & _ & _ & ->)%process_state_file_Ok Hne. simpl.
  by rewrite lookup_insert_ne.
Qed.

Lemma main_loop_frame db db' names files state :
  main_loop db names files = (db', None) →
  (∀ entry, entry ∈ files → state_of_path entry.1 ≠ state) →
  StateNames db' !! state = StateNames db !! state.
Proof.
  revert db. induction files as [|[file_path file] files IH]; intros db;
    simpl.
  - by intros [= ->].
  - destruct (process_state_file db file_path file (Some names) None)
      as [db1|] eqn:Hp; [|done].
    intros Hloop Hstate. rewrite (IH db1 Hloop).
    + eapply process_state_file_frame; [done|].
      intros ->. by apply (Hstate (file_path, file)); [left|].
    + intros entry Hin. apply Hstate. by right.
Qed.

(** Where the loop stops. *)
Lemma main_loop_stopped db db' names files e :
  main_loop db names files = (db', Some e) →
  ∃ before file_path file after,
    files = before ++ (file_path, file) :: after
    ∧ main_loop db names before = (db', None)
    ∧ process_state_file db' file_path file (Some names) None = Raise e.
Proof.
  revert db. induction files as [|[file_path file] files IH]; intros db;
    simpl; [done|].
  destruct (process_state_file db file_path file (Some names) None)
    as [db1|e'] eqn:Hp.
  - intros (before & p & f & after & -> & Hbefore & Hraise)%IH.
    exists ((file_path, file) :: before), p, f, after.
    split; [done|]. split; [|done]. simpl. by rewrite Hp.
  - intros [= -> ->]. exists [], file_path, file, files. done.
Qed.

End batch.

(** X11: when [main] ends without an exception, the records of the
    states that no file with the suffix [.TXT] names are as before, and
    the record of every other state is the item computed from the last
    of its files in the listing and the international names; when an
    exception ends it, the table is as the files before the failing one
    left it. *)
Theorem main_publishes_last_file_of_each_state (db db' : dynamodb)
    (international_names_file : option (list string))
    (states_data_dir : list (string * list string)) (outcome : option exn) :
  main db international_names_file states_data_dir = (db', outcome) →
  let names := read_international_names international_names_file in
  let files := state_files states_data_dir in
  match outcome with
  | None =>
      (∀ state, (∀ entry, entry ∈ files → state_of_path entry.1 ≠ state) →
                StateNames db' !! state = StateNames db !! state)
      ∧ (∀ before file_path file after,
           files = before ++ (file_path, file) :: after →
           (∀ entry, entry ∈ after →
                     state_of_path entry.1 ≠ state_of_path file_path) →
           ∃ it, computed_item file_path file (Some names) = Ok it
                 ∧ StateNames db' !! state_of_path file_path = Some it)
  | Some e =>
      ∃ before file_path file after,
        files = before ++ (file_path, file) :: after
        ∧ main_loop db names before = (db', None)
        ∧ process_state_file db' file_path file (Some names) None = Raise e
  end.
Proof.
  intros Hmain names files. unfold main in Hmain. fold names files in Hmain.
  destruct outcome as [e|]; [by apply main_loop_stopped|].
  split; [intros state; by apply (main_loop_frame _ _ _ _ _ Hmain)|].
  intros before file_path file after Hfiles Hafter.
  rewrite Hfiles, main_loop_app in Hmain.
  destruct (main_loop db names before) as [db1 [e|]]; [done|].
  simpl in Hmain.
  destruct (process_state_file db1 file_path file (Some names) None)
    as [db2|] eqn:Hp; [|done].
  apply process_state_file_Ok in Hp as (it & Hit & _ & _ & _ & ->).
  exists it. split; [done|].
  rewrite (main_loop_frame _ _ _ _ _ Hmain Hafter). simpl.
  by rewrite lookup_insert_eq.
Qed.

(** * Further properties of the lookup handlers *)

Section lookup_more.
Context `{Runtime}.

Implicit Types (db : dynamodb) (event data : pyval) (state bucket : string).

(** The parameters of a flat request. *)
Lemma extract_parameters_flat (d : gmap string pyval) :
  d !! "body" = None →
  extract_parameters (VDict d)
  = Ok (inr (default VNone (d !! "state"), default VNone (d !! "bucket"))).
Proof.
  intros Hbody. unfold extract_parameters. simpl.
  rewrite Hbody. rewrite bool_decide_eq_false_2; [done|]. by intros [? ?].
Qed.

Lemma lambda_handler_Return db event response :
  parse_and_validate event = Ok (Return response) →
  lambda_handler db event = (Ok response, []).
Proof. intros Hv. unfold lambda_handler. by rewrite Hv. Qed.

Lemma parse_and_validate_missing event (st bk : pyval) :
  extract_parameters event = Ok (inr (st, bk)) →
  truthy st = false ∨ truthy bk = false →
  parse_and_validate event
  = Ok (Return (response_of
      (error_object "Missing required parameters: state and bucket")
      (is_api_gateway_event event))).
Proof.
  intros Hex Hfalse. unfold parse_and_validate. rewrite Hex. cbn [Py.bind].
  rewrite (extract_parameters_py_in _ _ Hex). cbn [Py.bind].
  rewrite format_response_error_object. cbn [Py.bind].
  destruct Hfalse as [-> | ->]; [done|]. by rewrite orb_true_r.
Qed.

(** A bucket that is a string of neither family, or of a family with a
    suffix that is not an integer. *)
Lemma parse_and_validate_bucket_format event (st : pyval) bucket :
  extract_parameters event = Ok (inr (st, VStr bucket)) →
  truthy st = true → bucket ≠ EmptyString →
  (startswith bucket "stateBucket" = false →
   startswith bucket "otherNamesBucket" = false →
   parse_and_validate event
   = Ok (Return (response_of
       (error_object
          "bucket must start with 'stateBucket' or 'otherNamesBucket'")
       (is_api_gateway_event event))))
  ∧ (∀ suffix, bucket = "stateBucket" +:+ suffix → int suffix = None →
       parse_and_validate event
       = Ok (Return (response_of
           (error_object
              "Invalid bucket format. Expected 'stateBucket1' through 'stateBucket4'")
           (is_api_gateway_event event))))
  ∧ (∀ suffix, bucket = "otherNamesBucket" +:+ suffix → int suffix = None →
       parse_and_validate event
       = Ok (Return (response_of
           (error_object
              "Invalid bucket format. Expected 'otherNamesBucket1' or 'otherNamesBucket2'")
           (is_api_gateway_event event)))).
Proof.
  intros Hex Hst Hne%truthy_VStr.
  unfold parse_and_validate, validate_bucket_number.
  rewrite Hex, (extract_parameters_py_in _ _ Hex). cbn [Py.bind].
  rewrite !format_response_error_object. cbn [Py.bind].
  rewrite Hst, Hne. cbn [negb orb existsb]. split_and?.
  - by intros -> ->.
  - intros suffix -> Hint.
    by rewrite startswith_app, slice_from_app, Hint.
  - intros suffix -> Hint.
    replace (startswith ("otherNamesBucket" +:+ suffix) "stateBucket")
      with false by reflexivity.
    by rewrite startswith_app, slice_from_app, Hint.
Qed.

(** The parameters of a request whose body has the [args] shape. *)
Lemma extract_parameters_args_shape event (body args : gmap string pyval) :
  is_api_gateway_event event = true →
  request_body event = Ok (VDict body) →
  body !! "args" = Some (VDict args) →
  extract_parameters event
  = Ok (inr (default VNone (args !! "state"),
             default VNone (args !! "bucket"))).
Proof.
  intros Hapi Hbody Hargs. unfold extract_parameters, args_shape.
  destruct event; try done. simpl in Hapi. cbn [is_dict py_in].
  rewrite Hapi. cbn [Py.bind]. rewrite Hbody. cbn [Py.bind py_in py_getitem].
  rewrite Hargs. by rewrite bool_decide_eq_true_2 by eauto.
Qed.

(** The loop over the transcript stops at the first tool call that has
    arguments. *)
Lemma first_tool_call_first (before after : list pyval)
    (tool_call args : gmap string pyval) text :
  Forall (fun v => ∃ d : gmap string pyval,
                     v = VDict d ∧ d !! "arguments" = None) before →
  tool_call !! "arguments" = Some (VStr text) →
  json_loads text = Some (VDict args) →
  first_tool_call (before ++ VDict tool_call :: after)
  = Ok (default VNone (args !! "state"), default VNone (args !! "bucket")).
Proof.
  intros Hbefore Harg Hloads.
  induction Hbefore as [|v before (d & -> & Hd) _ IH]; simpl.
  - rewrite bool_decide_eq_true_2 by eauto. simpl. rewrite Harg. simpl.
    by rewrite Hloads.
  - rewrite bool_decide_eq_false_2; [done|]. rewrite Hd. by intros [? ?].
Qed.

Lemma args_shape_false (body : gmap string pyval) :
  (∀ a, body !! "args" ≠ Some (VDict a)) → args_shape (VDict body) = Ok false.
Proof.
  intros Hargs. unfold args_shape. cbn [py_in py_getitem Py.bind].
  destruct (body !! "args") as [v|] eqn:Hv; cbn.
  - destruct v; try done. by destruct (Hargs d).
  - done.
Qed.

Lemma transcript_shape_true (body call : gmap string pyval) :
  body !! "call" = Some (VDict call) →
  is_Some (call !! "transcript_with_tool_calls") →
  transcript_shape (VDict body) = Ok true.
Proof.
  intros Hcall Htr. unfold transcript_shape. cbn [py_in py_getitem Py.bind].
  rewrite Hcall. cbn. by rewrite bool_decide_eq_true_2.
Qed.

Lemma extract_parameters_transcript_shape event
    (body call tool_call args : gmap string pyval)
    (before after : list pyval) text :
  is_api_gateway_event event = true →
  request_body event = Ok (VDict body) →
  (∀ a, body !! "args" ≠ Some (VDict a)) →
  body !! "call" = Some (VDict call) →
  call !! "transcript_with_tool_calls"
  = Some (VList (before ++ VDict tool_call :: after)) →
  Forall (fun v => ∃ d : gmap string pyval,
                     v = VDict d ∧ d !! "arguments" = None) before →
  tool_call !! "arguments" = Some (VStr text) →
  json_loads text = Some (VDict args) →
  extract_parameters event
  = Ok (inr (default VNone (args !! "state"),
             default VNone (args !! "bucket"))).
Proof.
  intros Hapi Hbody Hargs Hcall Htr Hbefore Harg Hloads.
  unfold extract_parameters.
  destruct event; try done. simpl in Hapi. cbn [is_dict py_in].
  rewrite Hapi. cbn [Py.bind]. rewrite Hbody. cbn [Py.bind].
  rewrite (args_shape_false _ Hargs). cbn [Py.bind].
  rewrite (transcript_shape_true _ _ Hcall) by eauto.
  cbn [Py.bind py_getitem]. rewrite Hcall. cbn [Py.bind py_getitem].
  rewrite Htr. cbn [Py.bind py_iter].
  by rewrite (first_tool_call_first _ _ _ _ _ Hbefore Harg Hloads).
Qed.

(** The deployed handler uses the event through its parameters and
    through the test for an API Gateway event only. *)
Lemma lambda_handler_ext db event event' :
  extract_parameters event = extract_parameters event' →
  is_api_gateway_event event = is_api_gateway_event event' →
  lambda_handler db event = lambda_handler db event'.
Proof.
  intros Hex Hapi.
  unfold lambda_handler, parse_and_validate, validate_bucket_number.
  rewrite <- Hex, <- Hapi.
  destruct (extract_parameters event) as [r|e] eqn:Hex1; [|done].
  symmetry in Hex.
  by rewrite (extract_parameters_py_in _ _ Hex1),
    (extract_parameters_py_in _ _ Hex), <- Hapi.
Qed.

End lookup_more.

(** X12: a flat request whose state or bucket is missing, null, empty
    or zero is answered with the error about missing parameters, and so
    is the API Gateway request with these arguments, in the envelope; the
    table is not called. *)
Theorem lambda_handler_missing_parameters `{Runtime} (db : dynamodb)
    (d : gmap string pyval) :
  d !! "body" = None →
  truthy (default VNone (d !! "state")) = false
  ∨ truthy (default VNone (d !! "bucket")) = false →
  lambda_handler db (VDict d)
  = (Ok (error_object "Missing required parameters: state and bucket"), [])
  ∧ lambda_handler db
      (args_event (default VNone (d !! "state")) (default VNone (d !! "bucket")))
    = (Ok (response_of
             (error_object "Missing required parameters: state and bucket")
             true), []).
Proof.
  intros Hbody Hfalse. split.
  - rewrite (lambda_handler_Return db (VDict d)
               (error_object "Missing required parameters: state and bucket"));
      [done|].
    rewrite (parse_and_validate_missing (VDict d) _ _
               (extract_parameters_flat d Hbody) Hfalse).
    simpl. rewrite Hbody. rewrite bool_decide_eq_false_2; [done|].
    by intros [? ?].
  - apply lambda_handler_Return.
    by rewrite (parse_and_validate_missing _ _ _
                  (extract_parameters_args _ _) Hfalse).
Qed.

(** X13: for a request with a state, a bucket that is a string of
    neither family gets the error about the prefix; a bucket of a family
    whose suffix [int] does not parse gets the error of the family about
    the format; a bucket that is not a string gets the error about
    parsing, from the [AttributeError].  The table is not called. *)
Theorem lambda_handler_bucket_format `{Runtime} (db : dynamodb)
    (event st bk : pyval) :
  extract_parameters event = Ok (inr (st, bk)) →
  truthy st = true → truthy bk = true →
  (∀ bucket, bk = VStr bucket →
     startswith bucket "stateBucket" = false →
     startswith bucket "otherNamesBucket" = false →
     lambda_handler db event
     = (Ok (response_of
              (error_object
                 "bucket must start with 'stateBucket' or 'otherNamesBucket'")
              (is_api_gateway_event event)), []))
  ∧ (∀ suffix, bk = VStr ("stateBucket" +:+ suffix) → int suffix = None →
       lambda_handler db event
       = (Ok (response_of
                (error_object
                   "Invalid bucket format. Expected 'stateBucket1' through 'stateBucket4'")
                (is_api_gateway_event event)), []))
  ∧ (∀ suffix, bk = VStr ("otherNamesBucket" +:+ suffix) → int suffix = None →
       lambda_handler db event
       = (Ok (response_of
                (error_object
                   "Invalid bucket format. Expected 'otherNamesBucket1' or 'otherNamesBucket2'")
                (is_api_gateway_event event)), []))
  ∧ (is_str bk = false →
     lambda_handler db event
     = (Ok (response_of
              (error_object
                 ("Error parsing request: " +:+ str_exn AttributeError))
              (is_api_gateway_event event)), [])).
Proof.
  intros Hex Hst Hbk. split_and?.
  - intros bucket -> Hown Hother. apply lambda_handler_Return.
    apply truthy_VStr in Hbk.
    destruct (parse_and_validate_bucket_format event st bucket Hex Hst Hbk)
      as (Hfamily & _).
    by apply Hfamily.
  - intros suffix -> Hint. apply lambda_handler_Return.
    apply truthy_VStr in Hbk.
    destruct (parse_and_validate_bucket_format event st _ Hex Hst Hbk)
      as (_ & Hown & _).
    by apply (Hown suffix).
  - intros suffix -> Hint. apply lambda_handler_Return.
    apply truthy_VStr in Hbk.
    destruct (parse_and_validate_bucket_format event st _ Hex Hst Hbk)
      as (_ & _ & Hother).
    by apply (Hother suffix).
  - intros Hstr. unfold lambda_handler, parse_and_validate.
    rewrite Hex. cbn [Py.bind]. rewrite Hst, Hbk. cbn [negb orb].
    destruct bk; try done; by rewrite format_response_error_object.
Qed.

(** X14: an API Gateway request and a direct request that carry the
    same state and bucket make the same calls to the table, and the
    outcome of the API Gateway request is that of [format_response] on
    the data that the direct request gets: the envelope with status 200
    around the encoded data, or the exception of [json.dumps] on data
    that it does not encode; an exception that leaves the one leaves the
    other. *)
Theorem api_gateway_response_wraps_direct_response `{Runtime}
    (db : dynamodb) (event event' : pyval) (parameters : pyval * pyval) :
  extract_parameters event = Ok (inr parameters) →
  extract_parameters event' = Ok (inr parameters) →
  is_api_gateway_event event = false →
  is_api_gateway_event event' = true →
  lambda_handler db event'
  = (data <- (lambda_handler db event).1 ;; format_response data true,
     (lambda_handler db event).2).
Proof.
  intros Hex Hex' Hapi Hapi'. destruct parameters as [st bk].
  unfold lambda_handler, parse_and_validate, validate_bucket_number.
  rewrite Hex, Hex', (extract_parameters_py_in _ _ Hex),
    (extract_parameters_py_in _ _ Hex'), Hapi, Hapi'.
  cbn [Py.bind]. rewrite !format_response_error_object. cbn [Py.bind].
  assert (Hfmt : ∀ msg, format_response (response_of (error_object msg) false) true
                        = Ok (response_of (error_object msg) true)).
  { intros msg. apply format_response_error_object. }
  destruct (negb (truthy st) || negb (truthy bk));
    [cbn [fst snd Py.bind]; by rewrite Hfmt|].
  destruct bk as [| | | |bucket| | |];
    try (cbn [fst snd Py.bind]; rewrite ?format_response_error_object;
         cbn [fst snd Py.bind]; by rewrite ?Hfmt).
  destruct (negb _); [cbn [fst snd Py.bind]; by rewrite Hfmt|].
  assert (Hlookup :
    (match get_item db st with
     | Ok (Some it) =>
         match it !! bucket with
         | Some names => format_response names true
         | None => format_response (VList []) true
         end
     | Ok None => format_response (VList []) true
     | Raise (ClientError msg) =>
         format_response (error_object (str_exn (ClientError msg))) true
     | Raise e => Raise e
     end)
    = (data <- (match get_item db st with
                | Ok (Some it) =>
                    match it !! bucket with
                    | Some names => format_response names false
                    | None => format_response (VList []) false
                    end
                | Ok None => format_response (VList []) false
                | Raise (ClientError msg) =>
                    format_response (error_object (str_exn (ClientError msg)))
                      false
                | Raise e => Raise e
                end) ;; format_response data true)).
  { destruct (get_item db st) as [[it|]|[]]; try done.
    by destruct (it !! bucket). }
  destruct (startswith bucket "stateBucket").
  { destruct (int _) as [n|]; [|cbn [fst snd Py.bind]; by rewrite Hfmt].
    destruct (bool_decide (n < 1) || bool_decide (n > 4));
      [cbn [fst snd Py.bind]; by rewrite Hfmt|].
    cbn [Py.bind fst snd]. by rewrite Hlookup. }
  destruct (startswith bucket "otherNamesBucket").
  { destruct (int _) as [n|]; [|cbn [fst snd Py.bind]; by rewrite Hfmt].
    destruct (bool_decide (n < 1) || bool_decide (n > 2));
      [cbn [fst snd Py.bind]; by rewrite Hfmt|].
    cbn [Py.bind fst snd]. by rewrite Hlookup. }
  cbn [Py.bind fst snd]. by rewrite Hlookup.
Qed.

(** X15: an exception leaves the deployed handler exactly when the
    request has passed the validation and either the call to the table
    raises an exception that is not a [ClientError] (the refusal of
    boto3 to serialize the state, an error of botocore), or the event is
    an API Gateway event and [json.dumps] raises on the value that the
    table holds under the bucket (a number, which comes back as a
    [Decimal]).  Every other event, of any type, gets a response. *)
Theorem lambda_handler_exceptions `{Runtime} (db : dynamodb) (event : pyval)
    (e : exn) :
  (lambda_handler db event).1 = Raise e
  ↔ ∃ (st : pyval) bucket,
      parse_and_validate event = Ok (Proceed st bucket)
      ∧ ((get_item db st = Raise e ∧ ∀ msg, e ≠ ClientError msg)
         ∨ (is_api_gateway_event event = true
            ∧ ∃ it v, get_item db st = Ok (Some it) ∧ it !! bucket = Some v
                      ∧ json_error v = Some e)).
Proof. apply lambda_handler_Raise. Qed.

(** X16: when the table answers a valid request with an error, the
    deployed handler returns the error object with the text of the error
    (in the envelope, for an API Gateway event) after its one call; a
    state that is not a string is refused by the table in this way. *)
Theorem lambda_handler_store_failure `{Runtime} (db : dynamodb)
    (event st : pyval) (bucket : string) :
  extract_parameters event = Ok (inr (st, VStr bucket)) →
  truthy st = true → unserializable st = false →
  bucket ∈ own_identifiers ++ supplementary_identifiers →
  (∀ msg, fault db = Some (ClientError msg) →
     lambda_handler db event
     = (Ok (response_of (error_object (str_exn (ClientError msg)))
              (is_api_gateway_event event)), [GetItem st]))
  ∧ (fault db = None → is_str st = false →
     lambda_handler db event
     = (Ok (response_of
              (error_object (str_exn (ClientError "ValidationException")))
              (is_api_gateway_event event)), [GetItem st])).
Proof.
  intros Hex Hst Hser Hin.
  assert (Hv : parse_and_validate event = Ok (Proceed st bucket)).
  { unfold parse_and_validate. rewrite Hex. cbn [Py.bind]. rewrite Hst.
    unfold own_identifiers, supplementary_identifiers in Hin. simpl in Hin.
    repeat (apply elem_of_cons in Hin as [->|Hin]; [reflexivity|]).
    by apply elem_of_nil in Hin. }
  unfold lambda_handler, get_item. rewrite Hv, Hser. split.
  - intros msg ->. by rewrite format_response_error_object.
  - intros -> Hstr. destruct st; try done;
      by rewrite format_response_error_object.
Qed.

(** X17: of an API Gateway body the deployed handler reads [args] when
    it is a dict, whatever the body holds besides; otherwise, when the
    body has a transcript, the arguments of the first tool call that has
    some, decoded.  In both cases the answer is that to the request with
    these arguments. *)
Theorem lambda_handler_reads_args_before_transcript `{Runtime}
    (db : dynamodb) (event : pyval) (body : gmap string pyval) :
  is_api_gateway_event event = true →
  request_body event = Ok (VDict body) →
  (∀ args : gmap string pyval, body !! "args" = Some (VDict args) →
     lambda_handler db event
     = lambda_handler db
         (args_event (default VNone (args !! "state"))
            (default VNone (args !! "bucket"))))
  ∧ (∀ (call tool_call args : gmap string pyval) before after text,
       (∀ a, body !! "args" ≠ Some (VDict a)) →
       body !! "call" = Some (VDict call) →
       call !! "transcript_with_tool_calls"
       = Some (VList (before ++ VDict tool_call :: after)) →
       Forall (fun v => ∃ d : gmap string pyval,
                          v = VDict d ∧ d !! "arguments" = None) before →
       tool_call !! "arguments" = Some (VStr text) →
       json_loads text = Some (VDict args) →
       lambda_handler db event
       = lambda_handler db
           (args_event (default VNone (args !! "state"))
              (default VNone (args !! "bucket")))).
Proof.
  intros Hapi Hbody. split.
  - intros args Hargs. apply lambda_handler_ext; [|by rewrite Hapi].
    by rewrite (extract_parameters_args_shape _ _ _ Hapi Hbody Hargs),
      extract_parameters_args.
  - intros call tool_call args before after text Hargs Hcall Htr Hbefore
      Harg Hloads.
    apply lambda_handler_ext; [|by rewrite Hapi].
    by rewrite (extract_parameters_transcript_shape _ _ _ _ _ _ _ _
                  Hapi Hbody Hargs Hcall Htr Hbefore Harg Hloads),
      extract_parameters_args.
Qed.

(** X18: the older handler answers an event without [state] or
    [bucketNumber] with the error that names the missing key, and a
    [bucketNumber] that is not an integer of 1..5 with the error about the
    range, without a call to the table; on an event that is not a dict
    its [TypeError] leaves the handler, where the deployed handler
    answers with the error about parsing. *)
Theorem older_handler_validation `{Runtime} (db : dynamodb) (event : pyval) :
  (∀ d : gmap string pyval, event = VDict d →
     (d !! "state" = None →
      get_state_names_lambda.lambda_handler db event
      = (Ok (error_object
               ("Missing required parameter: " +:+ str_exn (KeyError "state"))),
         []))
     ∧ (is_Some (d !! "state") → d !! "bucketNumber" = None →
        get_state_names_lambda.lambda_handler db event
        = (Ok (error_object
                 ("Missing required parameter: "
                  +:+ str_exn (KeyError "bucketNumber"))), []))
     ∧ (∀ v, is_Some (d !! "state") → d !! "bucketNumber" = Some v →
          match get_state_names_lambda.as_int v with
          | Some n => n < 1 ∨ 5 < n
          | None => True
          end →
          get_state_names_lambda.lambda_handler db event
          = (Ok (error_object
                   "bucketNumber must be an integer between 1 and 5"), [])))
  ∧ (is_dict event = false →
     get_state_names_lambda.lambda_handler db event = (Raise TypeError, [])
     ∧ lambda_handler db event
       = (Ok (error_object
                ("Error parsing request: " +:+ str_exn AttributeError)), [])).
Proof.
  split.
  - intros d ->. unfold get_state_names_lambda.lambda_handler.
    cbn [py_getitem]. split_and?.
    + by intros ->.
    + intros [st ->] ->. done.
    + intros v [st ->] -> Hv. cbn [Py.bind].
      destruct (get_state_names_lambda.as_int v) as [n|]; [|done].
      destruct Hv.
      * by rewrite bool_decide_eq_true_2.
      * rewrite (bool_decide_eq_true_2 (n > 5)) by lia.
        by rewrite orb_true_r.
  - intros Hdict. destruct event; try done; split; try done;
      unfold lambda_handler; cbn; by rewrite format_response_error_object.
Qed.

(** * The loader and the deployed handler together *)

(** X19: after a run of [process_state_file] that returns, the deployed
    handler answers a request for the state of the file and any of the
    six partitions with the names that the loader packed for it: the
    buckets of [create_name_buckets] for the own partitions, those of
    [create_international_name_buckets] for the supplementary ones, and
    the empty list for these when there are no international names. *)
Theorem published_partitions_are_served `{Runtime} (db db' : dynamodb)
    (file_path : string) (file : list string)
    (international_names : option (list string))
    (existing_names : option (gset string)) :
  process_state_file db file_path file international_names existing_names
  = Ok db' →
  ∃ b1 b2 b3 b4 o1 o2,
    create_name_buckets (analyze_names file).1 3950 4 = Ok [b1; b2; b3; b4]
    ∧ match international_names with
      | Some ((_ :: _) as names) =>
          create_international_name_buckets names
            (state_names_of [b1; b2; b3; b4]) 3950 2 = Ok [o1; o2]
      | _ => o1 = [] ∧ o2 = []
      end
    ∧ ∀ event bucket names,
        (bucket, names) ∈ [("stateBucket1", b1); ("stateBucket2", b2);
                           ("stateBucket3", b3); ("stateBucket4", b4);
                           ("otherNamesBucket1", o1); ("otherNamesBucket2", o2)] →
        extract_parameters event
        = Ok (inr (VStr (state_of_path file_path), VStr bucket)) →
        lambda_handler db' event
        = (Ok (response_of (names_value names) (is_api_gateway_event event)),
           [GetItem (VStr (state_of_path file_path))]).
Proof.
  intros (it & Hit & Hne & _ & _ & ->)%process_state_file_Ok.
  apply computed_item_own_buckets in Hit
    as (b1 & b2 & b3 & b4 & other & Hnb & Hother & Hit).
  destruct (prepare_item_lookup _ _ _ _ _ _ Hit) as (_ & Hown & _).
  pose proof (prepare_item_supplementary _ _ _ _ _ _ Hit) as Hsup.
  destruct (Hown 0%nat "stateBucket1" eq_refl) as (? & [= <-] & H1).
  destruct (Hown 1%nat "stateBucket2" eq_refl) as (? & [= <-] & H2).
  destruct (Hown 2%nat "stateBucket3" eq_refl) as (? & [= <-] & H3).
  destruct (Hown 3%nat "stateBucket4" eq_refl) as (? & [= <-] & H4).
  assert (Hserve : ∀ o1 o2,
    default (VList []) (deserialize <$> it !! "otherNamesBucket1")
    = names_value o1 →
    default (VList []) (deserialize <$> it !! "otherNamesBucket2")
    = names_value o2 →
    ∀ event bucket names,
      (bucket, names) ∈ [("stateBucket1", b1); ("stateBucket2", b2);
                         ("stateBucket3", b3); ("stateBucket4", b4);
                         ("otherNamesBucket1", o1); ("otherNamesBucket2", o2)] →
      extract_parameters event
      = Ok (inr (VStr (state_of_path file_path), VStr bucket)) →
      lambda_handler
        {| StateNames := <[state_of_path file_path := it]> (StateNames db);
           fault := None |} event
      = (Ok (response_of (names_value names) (is_api_gateway_event event)),
         [GetItem (VStr (state_of_path file_path))])).
  { intros o1 o2 Ho1 Ho2 event bucket names Hin Hex.
    rewrite (lambda_handler_lookup _ _ (state_of_path file_path) bucket);
      [|apply parse_and_validate_valid; [done|by apply truthy_VStr|]|done|done].
    - cbn [StateNames]. rewrite lookup_insert_eq. cbn [mbind option_bind].
      assert (Hvalue : default (VList []) (deserialize <$> it !! bucket)
                       = names_value names).
      { repeat (apply elem_of_cons in Hin as [Heq|Hin];
                [inversion Heq; subst;
                 first [ rewrite H1 | rewrite H2 | rewrite H3 | rewrite H4
                       | apply Ho1 | apply Ho2 ];
                 cbn [fmap option_fmap option_map default];
                 by rewrite deserialize_names_value|]).
        by apply elem_of_nil in Hin. }
      by rewrite Hvalue, (format_response_Ok _ _ (json_error_names_value names)).
    - repeat (apply elem_of_cons in Hin as [Heq|Hin];
              [inversion Heq; subst;
               unfold own_identifiers, supplementary_identifiers;
               simpl; by repeat constructor|]).
      by apply elem_of_nil in Hin. }
  destruct international_names as [[|name names]|].
  - subst other. destruct Hsup as [Hs1 Hs2].
    exists b1, b2, b3, b4, [], []. split; [done|]. split; [done|].
    apply Hserve; rewrite ?Hs1, ?Hs2; cbn [fmap option_fmap option_map default];
      by rewrite ?deserialize_names_value.
  - destruct Hother as (o & Ho & ->).
    pose proof (create_name_buckets_spec
      ((fun n => (n, 0)) <$>
         filter (fun n => n ∉ state_names_of [b1; b2; b3; b4]) (name :: names))
      3950 2) as Hspec.
    rewrite <- (create_international_name_buckets_filter _ _ _ _ 0) in Hspec.
    rewrite Ho in Hspec. destruct Hspec as (Hlen & _).
    destruct o as [|o1 [|o2 [|o3 o]]]; try done.
    destruct Hsup as (? & ? & [= <-] & [= <-] & Hs1 & Hs2).
    exists b1, b2, b3, b4, o1, o2. split; [done|]. split; [done|].
    apply Hserve; rewrite ?Hs1, ?Hs2; cbn [fmap option_fmap option_map default];
      by rewrite ?deserialize_names_value.
  - subst other. destruct Hsup as [Hs1 Hs2].
    exists b1, b2, b3, b4, [], []. split; [done|]. split; [done|].
    apply Hserve; rewrite ?Hs1, ?Hs2; cbn [fmap option_fmap option_map default];
      by rewrite ?deserialize_names_value.
Qed.

(** X20: [process_state_file] keeps the records of the table such that
    the scan of [get_all_existing_names] reads them without an error, and
    after it the scan finds the names of the own partitions of the state
    of the file and those of the records of the other states, and no
    other name. *)
Theorem published_names_are_found_by_the_scan (db db' : dynamodb)
    (file_path : string) (file : list string)
    (international_names : option (list string))
    (existing_names : option (gset string)) :
  (∀ state it, StateNames db !! state = Some it → own_partitions_are_names it) →
  process_state_file db file_path file international_names existing_names
  = Ok db' →
  (∀ state it, StateNames db' !! state = Some it → own_partitions_are_names it)
  ∧ ∃ name_buckets,
      create_name_buckets (analyze_names file).1 3950 4 = Ok name_buckets
      ∧ ∀ name,
          name ∈ get_all_existing_names db'
          ↔ name ∈ concat name_buckets
            ∨ ∃ state it key names,
                state ≠ state_of_path file_path
                ∧ StateNames db !! state = Some it ∧ key ∈ own_identifiers
                ∧ it !! key = Some (names_value names) ∧ name ∈ names.
Proof.
  intros Hall (it & Hit & Hne & _ & _ & ->)%process_state_file_Ok.
  apply computed_item_own_buckets in Hit
    as (b1 & b2 & b3 & b4 & other & Hnb & _ & Hit).
  assert (Hall' : ∀ state it',
    <[state_of_path file_path := it]> (StateNames db) !! state = Some it' →
    own_partitions_are_names it').
  { intros state it' Hl. apply lookup_insert_Some in Hl as [[_ <-]|[_ Hl]].
    - by eapply prepare_item_own_partitions.
    - by eapply Hall. }
  split; [done|]. exists [b1; b2; b3; b4]. split; [done|]. intros name.
  rewrite get_all_existing_names_spec by done. cbn [StateNames].
  destruct (prepare_item_lookup _ _ _ _ _ _ Hit) as (_ & Hown & _).
  split.
  - intros (state & it' & key & names & Hl & Hkey & Hnames & Hin).
    apply lookup_insert_Some in Hl as [[_ <-]|[Hst Hl]].
    + left. apply list_elem_of_lookup_1 in Hkey as [n Hn].
      destruct (Hown n key Hn) as (names' & Hb & Hnames').
      assert (names' = names) as ->
        by (apply names_value_inj; congruence).
      apply list_elem_of_In, in_concat. exists names.
      split; apply list_elem_of_In; [|done].
      by eapply list_elem_of_lookup_2.
    + right. exists state, it', key, names. eauto.
  - intros [Hin|(state & it' & key & names & Hst & Hl & Hrest)].
    + apply list_elem_of_In, in_concat in Hin as (names & Hb & Hin).
      apply list_elem_of_In, list_elem_of_lookup_1 in Hb as [n Hb].
      assert (Hn : (n < 4)%nat) by (apply lookup_lt_Some in Hb; simpl in Hb; lia).
      destruct (lookup_lt_is_Some_2 own_identifiers n) as [key Hkey];
        [simpl; lia|].
      destruct (Hown n key Hkey) as (names' & Hb' & Hnames').
      exists (state_of_path file_path), it, key, names.
      rewrite lookup_insert_eq. split; [done|].
      split; [by eapply list_elem_of_lookup_2|].
      split; [congruence|by apply list_elem_of_In].
    + exists state, it', key, names. by rewrite lookup_insert_ne.
Qed.

(** * The further properties at concrete inputs *)

Lemma create_name_buckets_bucket_count_witness :
  (1 ≤ 2
   ∧ ∃ bs, create_name_buckets [("Amy", 9); ("Bo", 7)] 15 2 = Ok bs
           ∧ length bs = Z.to_nat 2)
  ∧ (0 ≤ 0 ∧ create_name_buckets [("Amy", 9); ("Bo", 7)] 15 0 = Raise IndexError)
  ∧ (-1 ≤ 0 ∧ create_name_buckets [("Maximilian", 7)] 15 (-1) = Ok []).
Proof.
  assert (H1 : 1 ≤ 2) by lia.
  assert (H2 : 0 ≤ 0) by lia.
  assert (H3 : -1 ≤ 0) by lia.
  split; [split; [exact H1|]|split; split; [exact H2| |exact H3|]].
  - exact (proj1 (create_name_buckets_bucket_count [("Amy", 9); ("Bo", 7)] 15 2)
             H1).
  - exact (proj2 (create_name_buckets_bucket_count [("Amy", 9); ("Bo", 7)] 15 0)
             H2).
  - exact (proj2 (create_name_buckets_bucket_count [("Maximilian", 7)] 15 (-1))
             H3).
Defined.

Lemma published_record_holds_ranked_prefix_witness :
  let file := ["OH,M,1960,John,12"; "OH,F,1960,Mary,10"; "OH,M,1961,John,3"] in
  ∃ db',
    process_state_file empty_table "data/states/OH.TXT" file None None = Ok db'
    ∧ ∃ it b1 b2 b3 b4 dropped,
        StateNames db' !! state_of_path "data/states/OH.TXT" = Some it
        ∧ it !! "stateBucket1" = Some (names_value b1)
        ∧ it !! "stateBucket2" = Some (names_value b2)
        ∧ it !! "stateBucket3" = Some (names_value b3)
        ∧ it !! "stateBucket4" = Some (names_value b4)
        ∧ (analyze_names file).1.*1 = b1 ++ b2 ++ b3 ++ b4 ++ dropped
        ∧ NoDup (b1 ++ b2 ++ b3 ++ b4)
        ∧ it !! "uniqueNamesCount"
          = Some (VInt (Z.of_nat (length (b1 ++ b2 ++ b3 ++ b4 ++ dropped))))
        ∧ it !! "totalNameCount"
          = Some (VInt (sum_counts (analyze_names file).1)).
Proof.
  intros file.
  destruct (process_state_file_returns empty_table "data/states/OH.TXT" file
              None None) as [db' Hdb'];
    [vm_compute; discriminate|reflexivity|vm_compute; reflexivity|].
  exists db'. split; [exact Hdb'|].
  exact (published_record_holds_ranked_prefix _ _ _ _ _ _ Hdb').
Defined.

Lemma published_supplementary_excludes_own_witness :
  let file := ["OH,M,1960,John,12"; "OH,F,1960,Mary,10"] in
  ∃ db',
    process_state_file empty_table "data/states/OH.TXT" file
      (Some ["Yuki"; "John"; "Chidi"]) None = Ok db'
    ∧ ∃ it b1 b2 b3 b4 o1 o2 dropped,
        StateNames db' !! state_of_path "data/states/OH.TXT" = Some it
        ∧ it !! "stateBucket1" = Some (names_value b1)
        ∧ it !! "stateBucket2" = Some (names_value b2)
        ∧ it !! "stateBucket3" = Some (names_value b3)
        ∧ it !! "stateBucket4" = Some (names_value b4)
        ∧ it !! "otherNamesBucket1" = Some (names_value o1)
        ∧ it !! "otherNamesBucket2" = Some (names_value o2)
        ∧ filter (fun n => n ∉ b1 ++ b2 ++ b3 ++ b4) ["Yuki"; "John"; "Chidi"]
          = o1 ++ o2 ++ dropped
        ∧ ∀ n, n ∈ o1 ++ o2 → n ∉ b1 ++ b2 ++ b3 ++ b4.
Proof.
  intros file.
  destruct (process_state_file_returns empty_table "data/states/OH.TXT" file
              (Some ["Yuki"; "John"; "Chidi"]) None) as [db' Hdb'];
    [vm_compute; discriminate|reflexivity|vm_compute; reflexivity|].
  exists db'. split; [exact Hdb'|].
  exact (published_supplementary_excludes_own _ _ _ _ _ _ _ Hdb').
Defined.

Lemma get_all_existing_names_own_names_witness :
  let db := {| StateNames :=
                 {[ "OH" := {[ "stateBucket2" := names_value ["James"; "Mary"] ]} ]};
               fault := None |} in
  fault db = None
  ∧ (∀ state it, StateNames db !! state = Some it → own_partitions_are_names it)
  ∧ "Mary" ∈ get_all_existing_names db.
Proof.
  intros db.
  assert (Hf : fault db = None) by reflexivity.
  assert (Hall : ∀ state it, StateNames db !! state = Some it →
                             own_partitions_are_names it).
  { intros state it Hl. unfold db in Hl. cbn [StateNames] in Hl.
    apply lookup_singleton_Some in Hl as [_ <-].
    intros key v _ [_ <-]%lookup_singleton_Some. by eexists. }
  split; [exact Hf|]. split; [exact Hall|].
  apply (proj2 (get_all_existing_names_own_names db) Hf Hall "Mary").
  exists "OH", {[ "stateBucket2" := names_value ["James"; "Mary"] ]},
    "stateBucket2", ["James"; "Mary"].
  split; [reflexivity|]. split; [by repeat constructor|].
  split; [reflexivity|by repeat constructor].
Defined.

Lemma state_of_path_of_file_name_witness :
  (has_char "/" "OH" = false ∧ has_char "." "OH" = false
   ∧ has_char "/" "TXT" = false)
  ∧ state_of_path "data/states/OH.TXT" = "OH"
  ∧ state_of_path "data/v1.2/OH.2010.TXT" = "OH".
Proof.
  split; [by repeat split|]. split.
  - exact (proj2 (state_of_path_of_file_name "" "data/states" "OH" "TXT")
             eq_refl eq_refl eq_refl).
  - exact (proj2 (state_of_path_of_file_name "" "data/v1.2" "OH" "2010.TXT")
             eq_refl eq_refl eq_refl).
Defined.

Lemma main_publishes_last_file_of_each_state_witness :
  let names_file := Some ["Yuki"; ""; " John "] in
  let directory :=
    [("OH.TXT", ["OH,M,1960,John,12"]); ("README.md", ["not a state file"]);
     ("PA.TXT", ["PA,F,1960,Mary,10"]); ("OH.old.TXT", ["OH,F,1960,Linda,4"])] in
  let names := read_international_names names_file in
  let db' := (main empty_table names_file directory).1 in
  main empty_table names_file directory = (db', None)
  ∧ (names = ["Yuki"; "John"]
     ∧ state_of_path "data/states/OH.old.TXT" = "OH"
     ∧ state_of_path "data/states/PA.TXT" = "PA")
  ∧ (∃ it, computed_item "data/states/OH.old.TXT" ["OH,F,1960,Linda,4"]
             (Some names) = Ok it
           ∧ StateNames db' !! state_of_path "data/states/OH.old.TXT" = Some it)
  ∧ (∃ it, computed_item "data/states/PA.TXT" ["PA,F,1960,Mary,10"]
             (Some names) = Ok it
           ∧ StateNames db' !! state_of_path "data/states/PA.TXT" = Some it).
Proof.
  intros names_file directory names db'.
  assert (Hmain : main empty_table names_file directory = (db', None))
    by (vm_compute; reflexivity).
  pose proof (main_publishes_last_file_of_each_state _ _ _ _ _ Hmain)
    as [_ Hlast].
  split; [exact Hmain|]. split; [repeat split; reflexivity|]. split.
  - refine (Hlast [("data/states/OH.TXT", ["OH,M,1960,John,12"]);
                   ("data/states/PA.TXT", ["PA,F,1960,Mary,10"])]
              "data/states/OH.old.TXT" ["OH,F,1960,Linda,4"] [] eq_refl _).
    intros entry Hin. destruct (proj1 (elem_of_nil entry) Hin).
  - refine (Hlast [("data/states/OH.TXT", ["OH,M,1960,John,12"])]
              "data/states/PA.TXT" ["PA,F,1960,Mary,10"]
              [("data/states/OH.old.TXT", ["OH,F,1960,Linda,4"])] eq_refl _).
    intros entry Hin.
    apply elem_of_cons in Hin as [->|Hin]; [vm_compute; discriminate|].
    destruct (proj1 (elem_of_nil entry) Hin).
Defined.

Lemma lambda_handler_missing_parameters_witness :
  let d : gmap string pyval := {[ "state" := VStr "OH" ]} in
  d !! "body" = None
  ∧ (truthy (default VNone (d !! "state")) = false
     ∨ truthy (default VNone (d !! "bucket")) = false)
  ∧ lambda_handler (H := example_runtime) empty_table (VDict d)
    = (Ok (error_object "Missing required parameters: state and bucket"), []).
Proof.
  intros d.
  assert (H1 : d !! "body" = None) by reflexivity.
  assert (H2 : truthy (default VNone (d !! "state")) = false
               ∨ truthy (default VNone (d !! "bucket")) = false)
    by (right; reflexivity).
  split; [exact H1|]. split; [exact H2|].
  exact (proj1 (lambda_handler_missing_parameters (H := example_runtime)
                  empty_table d H1 H2)).
Defined.

Lemma lambda_handler_bucket_format_witness :
  let event := direct_event "OH" "stateBucketOne" in
  extract_parameters (H := example_runtime) event
  = Ok (inr (VStr "OH", VStr "stateBucketOne"))
  ∧ int "One" = None
  ∧ lambda_handler (H := example_runtime) empty_table event
    = (Ok (error_object
             "Invalid bucket format. Expected 'stateBucket1' through 'stateBucket4'"),
       [])
  ∧ lambda_handler (H := example_runtime) empty_table
      (VDict (<["state" := VStr "OH"]> (<["bucket" := VInt 1]> ∅)))
    = (Ok (error_object "Error parsing request: AttributeError"), []).
Proof.
  intros event.
  assert (H1 : extract_parameters (H := example_runtime) event
               = Ok (inr (VStr "OH", VStr "stateBucketOne"))) by reflexivity.
  assert (H2 : int "One" = None) by reflexivity.
  split; [exact H1|]. split; [exact H2|]. split.
  - exact (proj1 (proj2 (lambda_handler_bucket_format (H := example_runtime)
                           empty_table event _ _ H1 eq_refl eq_refl))
             "One" eq_refl H2).
  - exact (proj2 (proj2 (proj2
             (lambda_handler_bucket_format (H := example_runtime) empty_table
                (VDict (<["state" := VStr "OH"]> (<["bucket" := VInt 1]> ∅)))
                (VStr "OH") (VInt 1) eq_refl eq_refl eq_refl))) eq_refl).
Defined.

Lemma api_gateway_response_wraps_direct_response_witness :
  let db := {| StateNames :=
                 {[ "OH" := {[ "stateBucket1" := names_value ["James"];
                               "stateBucket2" := VList [VInt 1; VInt 2] ]} ]};
               fault := None |} in
  let event bucket := direct_event "OH" bucket in
  let event' bucket := args_event (VStr "OH") (VStr bucket) in
  (∀ bucket,
     extract_parameters (H := example_runtime) (event bucket)
     = Ok (inr (VStr "OH", VStr bucket))
     ∧ extract_parameters (H := example_runtime) (event' bucket)
       = Ok (inr (VStr "OH", VStr bucket))
     ∧ is_api_gateway_event (event bucket) = false
     ∧ is_api_gateway_event (event' bucket) = true)
  ∧ (lambda_handler (H := example_runtime) db (event "stateBucket1")
     = (Ok (names_value ["James"]), [GetItem (VStr "OH")])
     ∧ lambda_handler (H := example_runtime) db (event' "stateBucket1")
       = (Ok (response_of (H := example_runtime) (names_value ["James"]) true),
          [GetItem (VStr "OH")]))
  ∧ (lambda_handler (H := example_runtime) db (event "stateBucket2")
     = (Ok (VList [VDecimal 1 0; VDecimal 2 0]), [GetItem (VStr "OH")])
     ∧ lambda_handler (H := example_runtime) db (event' "stateBucket2")
       = (Raise TypeError, [GetItem (VStr "OH")])).
Proof.
  intros db event event'.
  split; [intros bucket; by repeat split|]. split.
  - split; [reflexivity|].
    exact (api_gateway_response_wraps_direct_response (H := example_runtime)
             db (event "stateBucket1") (event' "stateBucket1") _
             eq_refl eq_refl eq_refl eq_refl).
  - split; [reflexivity|].
    exact (api_gateway_response_wraps_direct_response (H := example_runtime)
             db (event "stateBucket2") (event' "stateBucket2") _
             eq_refl eq_refl eq_refl eq_refl).
Defined.

Lemma lambda_handler_store_failure_witness :
  let db := {| StateNames := ∅;
               fault := Some (ClientError "ResourceNotFoundException") |} in
  let event := direct_event "OH" "otherNamesBucket2" in
  (extract_parameters (H := example_runtime) event
   = Ok (inr (VStr "OH", VStr "otherNamesBucket2"))
   ∧ "otherNamesBucket2" ∈ own_identifiers ++ supplementary_identifiers)
  ∧ lambda_handler (H := example_runtime) db event
    = (Ok (error_object "ResourceNotFoundException"), [GetItem (VStr "OH")])
  ∧ lambda_handler (H := example_runtime) empty_table
      (VDict (<["state" := VInt 7]> (<["bucket" := VStr "stateBucket1"]> ∅)))
    = (Ok (error_object "ValidationException"), [GetItem (VInt 7)]).
Proof.
  intros db event.
  assert (H1 : extract_parameters (H := example_runtime) event
               = Ok (inr (VStr "OH", VStr "otherNamesBucket2")))
    by reflexivity.
  assert (H2 : "otherNamesBucket2" ∈ own_identifiers ++ supplementary_identifiers)
    by (by repeat constructor).
  assert (H3 : "stateBucket1" ∈ own_identifiers ++ supplementary_identifiers)
    by (by repeat constructor).
  split; [by split|]. split.
  - exact (proj1 (lambda_handler_store_failure (H := example_runtime) db event
                    _ _ H1 eq_refl eq_refl H2) _ eq_refl).
  - exact (proj2 (lambda_handler_store_failure (H := example_runtime)
                    empty_table
                    (VDict (<["state" := VInt 7]>
                              (<["bucket" := VStr "stateBucket1"]> ∅)))
                    (VInt 7) "stateBucket1" eq_refl eq_refl eq_refl H3)
             eq_refl eq_refl).
Defined.

Lemma lambda_handler_reads_args_before_transcript_witness :
  let transcript : gmap string pyval :=
    {[ "transcript_with_tool_calls" :=
         VList ([VDict {[ "name" := VStr "other" ]}]
                ++ VDict {[ "arguments" := VStr (example_dumps example_arguments) ]}
                   :: [VDict {[ "arguments" := VStr "never read" ]}]) ]} in
  let body : gmap string pyval :=
    <["args" := VStr "not a dict"]> {[ "call" := VDict transcript ]} in
  let event := VDict {[ "body" := VDict body ]} in
  (is_api_gateway_event event = true
   ∧ request_body (H := example_runtime) event = Ok (VDict body))
  ∧ lambda_handler (H := example_runtime) empty_table event
    = lambda_handler (H := example_runtime) empty_table
        (args_event (VStr "OH") (VStr "stateBucket9")).
Proof.
  intros transcript body event.
  assert (H1 : is_api_gateway_event event = true) by reflexivity.
  assert (H2 : request_body (H := example_runtime) event = Ok (VDict body))
    by reflexivity.
  split; [by split|].
  refine (proj2 (lambda_handler_reads_args_before_transcript
                   (H := example_runtime) empty_table event body H1 H2)
            transcript {[ "arguments" := VStr (example_dumps example_arguments) ]}
            (<["state" := VStr "OH"]> (<["bucket" := VStr "stateBucket9"]> ∅))
            [VDict {[ "name" := VStr "other" ]}]
            [VDict {[ "arguments" := VStr "never read" ]}]
            (example_dumps example_arguments) _ eq_refl eq_refl _ eq_refl _).
  - intros a Ha. vm_compute in Ha. discriminate Ha.
  - constructor; [|constructor].
    exists {[ "name" := VStr "other" ]}. split; reflexivity.
  - vm_compute. reflexivity.
Defined.

Lemma older_handler_validation_witness :
  get_state_names_lambda.lambda_handler (H := example_runtime) empty_table
    (VDict {[ "state" := VStr "OH" ]})
  = (Ok (error_object "Missing required parameter: 'bucketNumber'"), [])
  ∧ get_state_names_lambda.lambda_handler (H := example_runtime) empty_table
      (VDict (<["state" := VStr "OH"]> (<["bucketNumber" := VStr "1"]> ∅)))
    = (Ok (error_object "bucketNumber must be an integer between 1 and 5"), [])
  ∧ (get_state_names_lambda.lambda_handler (H := example_runtime) empty_table
       (VList [VStr "OH"; VInt 1])
     = (Raise TypeError, [])
     ∧ lambda_handler (H := example_runtime) empty_table
         (VList [VStr "OH"; VInt 1])
       = (Ok (error_object "Error parsing request: AttributeError"), [])).
Proof.
  split; [|split].
  - refine (proj1 (proj2
      (proj1 (older_handler_validation (H := example_runtime) empty_table
                (VDict {[ "state" := VStr "OH" ]}))
         {[ "state" := VStr "OH" ]} eq_refl)) _ eq_refl).
    exists (VStr "OH"). reflexivity.
  - refine (proj2 (proj2
      (proj1 (older_handler_validation (H := example_runtime) empty_table
                (VDict (<["state" := VStr "OH"]>
                          (<["bucketNumber" := VStr "1"]> ∅))))
         (<["state" := VStr "OH"]> (<["bucketNumber" := VStr "1"]> ∅))
         eq_refl)) (VStr "1") _ eq_refl I).
    exists (VStr "OH"). reflexivity.
  - exact (proj2 (older_handler_validation (H := example_runtime) empty_table
                    (VList [VStr "OH"; VInt 1])) eq_refl).
Defined.

Lemma published_partitions_are_served_witness :
  let file := ["OH,M,1960,John,12"; "OH,F,1960,Mary,10"] in
  ∃ db',
    process_state_file empty_table "data/states/OH.TXT" file
      (Some ["Yuki"; "John"]) None = Ok db'
    ∧ lambda_handler (H := example_runtime) db'
        (direct_event "OH" "stateBucket1")
      = (Ok (names_value ["John"; "Mary"]), [GetItem (VStr "OH")])
    ∧ lambda_handler (H := example_runtime) db'
        (args_event (VStr "OH") (VStr "otherNamesBucket1"))
      = (Ok (response_of (H := example_runtime) (names_value ["Yuki"]) true),
         [GetItem (VStr "OH")]).
Proof.
  intros file.
  destruct (process_state_file_returns empty_table "data/states/OH.TXT" file
              (Some ["Yuki"; "John"]) None) as [db' Hdb'];
    [vm_compute; discriminate|reflexivity|vm_compute; reflexivity|].
  exists db'. split; [exact Hdb'|].
  destruct (published_partitions_are_served (H := example_runtime) _ _ _ _ _ _
              Hdb') as (b1 & b2 & b3 & b4 & o1 & o2 & Hnb & Ho & Hserve).
  assert (Hb : [b1; b2; b3; b4] = [["John"; "Mary"]; []; []; []]).
  { assert (Heq : Ok [b1; b2; b3; b4] = Ok [["John"; "Mary"]; []; []; []])
      by (rewrite <- Hnb; reflexivity).
    by inversion Heq. }
  inversion Hb; subst b1 b2 b3 b4.
  assert (Heq : Ok [o1; o2] = Ok [["Yuki"]; []])
    by (rewrite <- Ho; reflexivity).
  inversion Heq; subst o1 o2.
  split.
  - apply (Hserve (direct_event "OH" "stateBucket1") "stateBucket1"
             ["John"; "Mary"]); [by repeat constructor|reflexivity].
  - apply (Hserve (args_event (VStr "OH") (VStr "otherNamesBucket1"))
             "otherNamesBucket1" ["Yuki"]); [by repeat constructor|reflexivity].
Defined.

Lemma published_names_are_found_by_the_scan_witness :
  let file := ["OH,M,1960,John,12"; "OH,F,1960,Mary,10"] in
  (∀ state it, StateNames empty_table !! state = Some it →
               own_partitions_are_names it)
  ∧ ∃ db',
      process_state_file empty_table "data/states/OH.TXT" file
        (Some ["Yuki"; "John"]) None = Ok db'
      ∧ (∀ state it, StateNames db' !! state = Some it →
                     own_partitions_are_names it)
      ∧ ∃ name_buckets,
          create_name_buckets (analyze_names file).1 3950 4 = Ok name_buckets
          ∧ ∀ name,
              name ∈ get_all_existing_names db'
              ↔ name ∈ concat name_buckets
                ∨ ∃ state it key names,
                    state ≠ state_of_path "data/states/OH.TXT"
                    ∧ StateNames empty_table !! state = Some it
                    ∧ key ∈ own_identifiers
                    ∧ it !! key = Some (names_value names) ∧ name ∈ names.
Proof.
  intros file.
  assert (Hall : ∀ state it, StateNames empty_table !! state = Some it →
                             own_partitions_are_names it).
  { intros state it Hl. unfold empty_table in Hl. cbn [StateNames] in Hl.
    rewrite lookup_empty in Hl. discriminate Hl. }
  split; [exact Hall|].
  destruct (process_state_file_returns empty_table "data/states/OH.TXT" file
              (Some ["Yuki"; "John"]) None) as [db' Hdb'];
    [vm_compute; discriminate|reflexivity|vm_compute; reflexivity|].
  exists db'. split; [exact Hdb'|].
  exact (published_names_are_found_by_the_scan _ _ _ _ _ _ Hall Hdb').
Defined.
